(** * ktf_int.cpp: user-land test management of KTF

    A shallow embedding of [src/lib/ktf_int.cpp]: the registry
    ([KernelTestMgr], [testset], [KernelTest]), name resolution
    ([find_test]), deferred wrapper binding ([add_wrapper] and the
    [KernelTest] constructor), enumeration ([get_test_names]) and the two
    response interpreters ([parse_query], [parse_result]).

    Conventions.
    - [std::map<std::string, V>] is a [gmap string V]; it is traversed in
      key order ([map_in_order]), as a [std::map] is.
    - A pointer that may be [NULL] is an [option].
    - [operator[]] of a map inserts a value-initialised entry when the key
      is absent; this is written out ([sets_touch], [tests_touch],
      [get_contexts]).
    - Mutable state is passed explicitly: an operation takes the
      [KernelTestMgr] and returns the new one.
    - [size_t] is a [Z] in [0, 2^64), [int] a [Z] in [-2^31, 2^31),
      [unsigned int] a [Z] in [0, 2^32); conversions and wrap-around are
      written out. *)

From Stdlib Require Import ZArith String Ascii List Lia Sorted OrderedTypeEx.
From stdpp Require Import gmap strings list fin_maps sorting.

Local Open Scope string_scope.
Local Open Scope list_scope.
Local Open Scope Z_scope.

(** ** Machine integers *)

Definition SIZE_MAX : Z := 2 ^ 64 - 1.
Definition INT_MAX : Z := 2 ^ 31 - 1.

(** Arithmetic on [size_t] is modulo [2^64]. *)
Definition size_wrap (z : Z) : Z := z mod 2 ^ 64.

(** Conversion of an integer to [int] (two's complement, 32 bits); also the
    result of an [int] operation that leaves the range. *)
Definition to_int (z : Z) : Z := (z + 2 ^ 31) mod 2 ^ 32 - 2 ^ 31.

Definition int_add (a b : Z) : Z := to_int (a + b).

Definition to_u32 (z : Z) : Z := z mod 2 ^ 32.
Definition to_u64 (z : Z) : Z := z mod 2 ^ 64.

(** ** std::string operations used by the source *)

(** [std::string::npos]. *)
Definition npos : Z := SIZE_MAX.

(** Index of the last occurrence of [c] in [s], if any. *)
Fixpoint rfind_char (c : ascii) (s : string) : option nat :=
  match s with
  | EmptyString => None
  | String a s' =>
      match rfind_char c s' with
      | Some i => Some (S i)
      | None => if Ascii.eqb a c then Some O else None
      end
  end.

(** [s.find_last_of(c)]: the index, or [npos]. *)
Definition find_last_of (s : string) (c : ascii) : Z :=
  match rfind_char c s with
  | Some i => Z.of_nat i
  | None => npos
  end.

(** [s.substr(pos, n)]: throws [std::out_of_range] ([None]) when
    [pos > s.size()], otherwise the [min(n, size - pos)] characters from
    [pos]. *)
Definition substr (s : string) (pos n : Z) : option string :=
  let sz := Z.of_nat (String.length s) in
  if sz <? pos then None
  else Some (substring (Z.to_nat pos) (Z.to_nat (Z.min n (sz - pos))) s).

(** ** Outcome of a call that may throw or loop *)

Inductive outcome (A : Type) : Type :=
| Returns (a : A)
| Throws
| OutOfFuel.
Arguments Returns {A} a.
Arguments Throws {A}.
Arguments OutOfFuel {A}.

(** ** Data model *)

(** A [test_cb] object is identified by a number; [test_cb*] is an option. *)
Definition test_cb : Type := nat.

Definition stringvec : Type := list string.

(** [class KernelTest], the members the constructor initialises. *)
Record KernelTest : Type := mkKernelTest {
  kt_setname : string;
  kt_testname : string;
  kt_setnum : Z;
  kt_testnum : Z;
  user_priv : option (list Z);
  user_priv_sz : Z;
  user_test : option test_cb;
  kt_file : option string;
  kt_line : Z;
  kt_name : string
}.

(** [class testset].  [tests] maps to [KernelTest*]: an entry may hold
    [NULL] ([Some None] in the map). *)
Record testset : Type := mkTestset {
  tests : gmap string (option KernelTest);
  test_names : stringvec;
  wrapper : gmap string (option test_cb);
  setnum : Z
}.

(** [testset()]. *)
Definition new_testset : testset :=
  {| tests := ∅; test_names := []; wrapper := ∅; setnum := 0 |}.

(** [class ConfigurableContext]. *)
Record ConfigurableContext : Type := mkConfigurableContext {
  cc_name : string;
  cc_handle_id : Z;
  cc_type_id : Z;
  cfg_stat : Z
}.

(** [struct name_iter]: [it] is an iterator into [sets], given by the key
    of the node it points to, [None] for [sets.end()]. *)
Record name_iter : Type := mkNameIter {
  it : option string;
  ni_setname : string
}.

(** [class KernelTestMgr]. *)
Record KernelTestMgr : Type := mkKernelTestMgr {
  sets : gmap string testset;
  mgr_test_names : stringvec;
  set_names : stringvec;
  kernelsets : gset string;
  handle_to_ctxvec : gmap Z stringvec;
  cfg_contexts : gmap string (list ConfigurableContext);
  next_set : Z;
  cur : option name_iter
}.

(** [KernelTestMgr()]. *)
Definition new_mgr : KernelTestMgr :=
  {| sets := ∅; mgr_test_names := []; set_names := []; kernelsets := ∅;
     handle_to_ctxvec := ∅; cfg_contexts := ∅; next_set := 0; cur := None |}.

(** Field updates. *)
Definition set_sets (m : KernelTestMgr) (v : gmap string testset) : KernelTestMgr :=
  {| sets := v; mgr_test_names := mgr_test_names m; set_names := set_names m;
     kernelsets := kernelsets m; handle_to_ctxvec := handle_to_ctxvec m;
     cfg_contexts := cfg_contexts m; next_set := next_set m; cur := cur m |}.

Definition set_cur (m : KernelTestMgr) (v : option name_iter) : KernelTestMgr :=
  {| sets := sets m; mgr_test_names := mgr_test_names m; set_names := set_names m;
     kernelsets := kernelsets m; handle_to_ctxvec := handle_to_ctxvec m;
     cfg_contexts := cfg_contexts m; next_set := next_set m; cur := v |}.

Definition set_tests (ts : testset) (v : gmap string (option KernelTest)) : testset :=
  {| tests := v; test_names := test_names ts; wrapper := wrapper ts; setnum := setnum ts |}.

Definition set_wrapper (ts : testset) (v : gmap string (option test_cb)) : testset :=
  {| tests := tests ts; test_names := test_names ts; wrapper := v; setnum := setnum ts |}.

Definition set_test_names (ts : testset) (v : stringvec) : testset :=
  {| tests := tests ts; test_names := v; wrapper := wrapper ts; setnum := setnum ts |}.

Definition set_setnum (ts : testset) (v : Z) : testset :=
  {| tests := tests ts; test_names := test_names ts; wrapper := wrapper ts; setnum := v |}.

Definition set_user_test (kt : KernelTest) (v : option test_cb) : KernelTest :=
  {| kt_setname := kt_setname kt; kt_testname := kt_testname kt;
     kt_setnum := kt_setnum kt; kt_testnum := kt_testnum kt;
     user_priv := user_priv kt; user_priv_sz := user_priv_sz kt;
     user_test := v; kt_file := kt_file kt; kt_line := kt_line kt;
     kt_name := kt_name kt |}.

(** ** operator[] on the maps of the registry *)

(** [sets[setname]] as an rvalue. *)
Definition sets_at (m : KernelTestMgr) (setname : string) : testset :=
  default new_testset (sets m !! setname).

(** The insertion [sets[setname]] performs when the key is absent. *)
Definition sets_touch (m : KernelTestMgr) (setname : string) : KernelTestMgr :=
  match sets m !! setname with
  | Some _ => m
  | None => set_sets m (<[setname := new_testset]> (sets m))
  end.

(** Assignment through the reference [sets[setname]]. *)
Definition sets_store (m : KernelTestMgr) (setname : string) (ts : testset) : KernelTestMgr :=
  set_sets m (<[setname := ts]> (sets m)).

(** [ts.tests[testname]] as an rvalue ([NULL] when absent). *)
Definition tests_at (ts : testset) (testname : string) : option KernelTest :=
  default None (tests ts !! testname).

(** The insertion [ts.tests[testname]] performs when the key is absent. *)
Definition tests_touch (ts : testset) (testname : string) : testset :=
  match tests ts !! testname with
  | Some _ => ts
  | None => set_tests ts (<[testname := None]> (tests ts))
  end.

(** [kt = sets[setname].tests[testname]]: the pointer read and the registry
    after the two insertions. *)
Definition lookup_test (m : KernelTestMgr) (setname testname : string)
  : KernelTestMgr * option KernelTest :=
  let m1 := sets_touch m setname in
  let ts := sets_at m1 setname in
  (sets_store m1 setname (tests_touch ts testname), tests_at ts testname).

Definition set_kernelsets (m : KernelTestMgr) (v : gset string) : KernelTestMgr :=
  {| sets := sets m; mgr_test_names := mgr_test_names m; set_names := set_names m;
     kernelsets := v; handle_to_ctxvec := handle_to_ctxvec m;
     cfg_contexts := cfg_contexts m; next_set := next_set m; cur := cur m |}.

Definition set_set_names (m : KernelTestMgr) (v : stringvec) : KernelTestMgr :=
  {| sets := sets m; mgr_test_names := mgr_test_names m; set_names := v;
     kernelsets := kernelsets m; handle_to_ctxvec := handle_to_ctxvec m;
     cfg_contexts := cfg_contexts m; next_set := next_set m; cur := cur m |}.

Definition set_mgr_test_names (m : KernelTestMgr) (v : stringvec) : KernelTestMgr :=
  {| sets := sets m; mgr_test_names := v; set_names := set_names m;
     kernelsets := kernelsets m; handle_to_ctxvec := handle_to_ctxvec m;
     cfg_contexts := cfg_contexts m; next_set := next_set m; cur := cur m |}.

Definition set_handle_to_ctxvec (m : KernelTestMgr) (v : gmap Z stringvec) : KernelTestMgr :=
  {| sets := sets m; mgr_test_names := mgr_test_names m; set_names := set_names m;
     kernelsets := kernelsets m; handle_to_ctxvec := v;
     cfg_contexts := cfg_contexts m; next_set := next_set m; cur := cur m |}.

Definition set_cfg_contexts (m : KernelTestMgr)
    (v : gmap string (list ConfigurableContext)) : KernelTestMgr :=
  {| sets := sets m; mgr_test_names := mgr_test_names m; set_names := set_names m;
     kernelsets := kernelsets m; handle_to_ctxvec := handle_to_ctxvec m;
     cfg_contexts := v; next_set := next_set m; cur := cur m |}.

Definition set_next_set (m : KernelTestMgr) (v : Z) : KernelTestMgr :=
  {| sets := sets m; mgr_test_names := mgr_test_names m; set_names := set_names m;
     kernelsets := kernelsets m; handle_to_ctxvec := handle_to_ctxvec m;
     cfg_contexts := cfg_contexts m; next_set := v; cur := cur m |}.

(** ** KernelTestMgr::find_add_set, find_add_test *)

(** [find_add_set(setname)].  The reference it returns is
    [sets[setname]] of the registry returned here.  [next_set++] is an
    [int] increment. *)
Definition find_add_set (m : KernelTestMgr) (setname : string) : KernelTestMgr :=
  let new_set := bool_decide (setname ∉ kernelsets m) in
  let m1 :=
    if new_set
    then set_set_names (set_kernelsets m ({[setname]} ∪ kernelsets m))
                       (set_names m ++ [setname])
    else m in
  (* This implicitly adds a new testset to sets, if it's not there *)
  let m2 := sets_touch m1 setname in
  if new_set
  then set_next_set (sets_store m2 setname (set_setnum (sets_at m2 setname) (next_set m2)))
                    (int_add (next_set m2) 1)
  else m2.

(** [find_add_test(setname, testname)]. *)
Definition find_add_test (m : KernelTestMgr) (setname testname : string) : KernelTestMgr :=
  let m1 := find_add_set m setname in
  set_mgr_test_names m1 (mgr_test_names m1 ++ [testname]).

(** [get_contexts(id)]: [handle_to_ctxvec[id]], which inserts an empty
    vector for an unknown id. *)
Definition get_contexts (m : KernelTestMgr) (id : Z) : KernelTestMgr * stringvec :=
  match handle_to_ctxvec m !! id with
  | Some v => (m, v)
  | None => (set_handle_to_ctxvec m (<[id := []]> (handle_to_ctxvec m)), [])
  end.

(** ** KernelTest::KernelTest and KernelTestMgr::add_test *)

(** The constructor [KernelTest(sn, tn, handle_id)], with its effect on the
    registry [kmgr()].  The object is stored in [ts.tests[testname]] by
    address; the map of the model holds the object as it is when the
    constructor returns. *)
Definition KernelTest_ctor (m : KernelTestMgr) (sn tn : string) (handle_id : Z)
  : KernelTestMgr :=
  let name := sn +:+ "." +:+ tn in
  let m1 := find_add_test m sn tn in
  let ts := sets_at m1 sn in
  let this_setnum := setnum ts in
  (* ts.tests[testname] = this *)
  let tests1 := <[tn := None]> (tests ts) in
  (* the expanded names *)
  let '(m2, names) :=
    if handle_id =? 0 then (m1, [tn])
    else let '(m', ctxv) := get_contexts m1 handle_id in
         (m', List.map (fun c => tn +:+ "_" +:+ c) ctxv) in
  let test_names1 := (test_names ts ++ names) in
  let this_testnum := Z.of_nat (size tests1) in
  let this :=
    {| kt_setname := sn; kt_testname := tn; kt_setnum := this_setnum;
       kt_testnum := this_testnum; user_priv := None; user_priv_sz := 0;
       user_test := None; kt_file := None; kt_line := -1; kt_name := name |} in
  let '(this1, wrapper1) :=
    match wrapper ts !! tn with
    | Some hit => (set_user_test this hit, delete tn (wrapper ts))
    | None => (this, wrapper ts)
    end in
  sets_store m2 sn
    {| tests := <[tn := Some this1]> tests1; test_names := test_names1;
       wrapper := wrapper1; setnum := setnum ts |}.

(** [add_test(setname, tname, handle_id)]: [new KernelTest(...)]. *)
Definition add_test (m : KernelTestMgr) (setname tname : string) (handle_id : Z)
  : KernelTestMgr :=
  KernelTest_ctor m setname tname handle_id.

(** ** KernelTestMgr::find_test *)

Definition find_test_result : Type := KernelTestMgr * string * option KernelTest.

(** The [while (pos >= 0)] loop.  [pos] is a [size_t], so the test holds
    for every value it can take; it is kept as the source has it.  [pctx] is
    the string [*pctx]. *)
Fixpoint find_test_loop (fuel : nat) (m : KernelTestMgr) (setname testname : string)
    (pctx : string) (pos : Z) : outcome find_test_result :=
  match fuel with
  | O => OutOfFuel
  | S fuel' =>
      if 0 <=? pos then
        match substr testname 0 pos, substr testname (size_wrap (pos + 1)) npos with
        | Some tname, Some ctx =>
            let '(m1, kt) := lookup_test m setname tname in
            match kt with
            | Some _ => Returns (m1, ctx, kt)
            | None =>
                (* context name might contain an '_' , iterate on *)
                find_test_loop fuel' m1 setname testname ctx (find_last_of tname "_")
            end
        | _, _ => Throws
        end
      else Returns (m, pctx, None)
  end.

(** [find_test(setname, testname, pctx)]; the last component of the result
    is the pointer returned, the second the final [*pctx]. *)
Definition find_test (fuel : nat) (m : KernelTestMgr) (setname testname : string)
    (pctx : string) : outcome find_test_result :=
  (* Try direct lookup first *)
  let '(m1, kt) := lookup_test m setname testname in
  match kt with
  | Some _ => Returns (m1, "", kt)
  | None =>
      (* If we don't have any contexts set, no need to parse name *)
      if bool_decide (handle_to_ctxvec m1 = ∅) then Returns (m1, pctx, None)
      else find_test_loop fuel m1 setname testname pctx (find_last_of testname "_")
  end.

(** ** add_cset, add_configurable_context, add_wrapper *)

Definition add_cset (m : KernelTestMgr) (hid : Z) (ctxs : stringvec) : KernelTestMgr :=
  set_handle_to_ctxvec m (<[hid := ctxs]> (handle_to_ctxvec m)).

(** [ConfigurableContext(name_, type_id_, hid, cfg_stat_)]: the members
    [handle_id] and [type_id] are [int]s initialised from unsigned values. *)
Definition ConfigurableContext_ctor (name_ : string) (type_id_ hid cfg_stat_ : Z)
  : ConfigurableContext :=
  {| cc_name := name_; cc_handle_id := to_int hid; cc_type_id := to_int type_id_;
     cfg_stat := cfg_stat_ |}.

Definition add_configurable_context (m : KernelTestMgr) (ctx : string)
    (type_id hid cfg_stat_ : Z) : KernelTestMgr :=
  set_cfg_contexts m
    (<[ctx := (default [] (cfg_contexts m !! ctx)
               ++ [ConfigurableContext_ctor ctx type_id hid cfg_stat_])]>
       (cfg_contexts m)).

(** [add_wrapper(setname, testname, tcb)]. *)
Definition add_wrapper (m : KernelTestMgr) (setname testname : string)
    (tcb : option test_cb) : KernelTestMgr :=
  let m1 := sets_touch m setname in
  let ts := tests_touch (sets_at m1 setname) testname in
  match tests_at ts testname with
  | Some kt =>
      (* kt->user_test = tcb *)
      sets_store m1 setname
        (set_tests ts (<[testname := Some (set_user_test kt tcb)]> (tests ts)))
  | None =>
      sets_store m1 setname (set_wrapper ts (<[testname := tcb]> (wrapper ts)))
  end.

(** ** Diagnostics *)

(** Attribute tags.
    Modelled from the spec: [enum ktf_attr] is declared in
    [kernel/ktf_unlproto.h], which is not among the sources; these are the
    tags the spec's wire protocol lists and [ktf_int.cpp] names. *)
Inductive ktf_attr : Type :=
| KTF_A_UNSPEC | KTF_A_TYPE | KTF_A_VERSION | KTF_A_SNAM | KTF_A_TNAM
| KTF_A_NUM | KTF_A_STR | KTF_A_FILE | KTF_A_STAT | KTF_A_LIST | KTF_A_TEST
| KTF_A_HID | KTF_A_HLIST | KTF_A_DATA | KTF_A_MOD | KTF_A_COVOPT.

#[global] Instance ktf_attr_eq_dec : EqDecision ktf_attr.
Proof. solve_decision. Defined.

(** What the code writes to [stderr], and the one [log] message a claim
    speaks of.  The other [log] calls of the source are debug output and
    are left out. *)
Inductive event : Type :=
| EvSkipSuite (setname : string)
    (* "Note: Skipping test suite %s which has combined tests ..." *)
| EvVersionDiff (note : string) (user_lib kernel : Z * Z * Z * Z)
    (* "%s: KTF version difference - user lib ..., kernel has ..." *)
| EvUnexpectedAttr (where_ : string) (ty : ktf_attr)
    (* "%s: Unexpected attribute type %d" *)
| EvNoSetCount
    (* "No test set count in kernel response??" *)
| EvExecFailed (stat : Z).
    (* "Failed to execute test in kernel - status %d" *)

(** ** Key-order traversal of a std::map *)

Definition key_le {V : Type} : relation (string * V) :=
  fun a b => Is_true (String.leb a.1 b.1).

#[global] Instance key_le_dec {V : Type} (a b : string * V) : Decision (key_le a b).
Proof. unfold key_le. apply _. Defined.

(** The nodes of the map from [begin()] to [end()]. *)
Definition map_in_order {V : Type} (m : gmap string V) : list (string * V) :=
  merge_sort key_le (map_to_list m).

(** [m.begin()]. *)
Definition map_begin {V : Type} (m : gmap string V) : option string :=
  fst <$> head (map_in_order m).

Fixpoint drop_below {V : Type} (k : string) (l : list (string * V)) : list (string * V) :=
  match l with
  | [] => []
  | e :: l' => if String.ltb e.1 k then drop_below k l' else l
  end.

(** The nodes from the one iterator [i] points to up to [end()]. *)
Definition nodes_from {V : Type} (i : option string) (m : gmap string V)
  : list (string * V) :=
  match i with
  | None => []
  | Some k => drop_below k (map_in_order m)
  end.

(** ** KernelTestMgr::get_test_names *)

Section Enumeration.

(** The loop test reads [cur->it->second.wrapper.size()] before it
    compares [cur->it] with [sets.end()]; what it reads through the end
    iterator is not specified. *)
Variable end_wrapper_size : nat.

(** [cur->it->second.wrapper.size() != 0 && cur->it != sets.end()], where
    [l] are the nodes from [cur->it] on. *)
Definition skip_cond (l : list (string * testset)) : bool :=
  negb (Nat.eqb (match l with
                 | [] => end_wrapper_size
                 | e :: _ => size (wrapper e.2)
                 end) 0)
  && (match l with [] => false | _ :: _ => true end).

(** The [while] loop: the nodes from the final [cur->it] on, and the
    diagnostics logged. *)
Fixpoint skip_loop (l : list (string * testset))
  : list (string * testset) * list event :=
  match l with
  | [] => ([], [])
  | e :: l' =>
      if skip_cond l then
        let '(rest, diag) := skip_loop l' in
        (rest,
         ((if Nat.eqb (List.length (test_names e.2)) 0
           then [EvSkipSuite e.1] else []) ++ diag))
      else (l, [])
  end.

(** [get_test_names()]: the vector returned, the registry after the call
    and the diagnostics logged. *)
Definition get_test_names (m : KernelTestMgr)
  : stringvec * KernelTestMgr * list event :=
  let c := match cur m with
           | Some c => c
           | None => {| it := map_begin (sets m); ni_setname := "" |}
           end in
  let '(rest, diag) := skip_loop (nodes_from (it c) (sets m)) in
  match rest with
  | [] => ([], set_cur m None, diag)
  | e :: rest' =>
      (test_names e.2,
       set_cur m (Some {| it := fst <$> head rest'; ni_setname := e.1 |}),
       diag)
  end.

(** [get_current_setname()]; dereferences [cur], [None] stands for the
    null dereference. *)
Definition get_current_setname (m : KernelTestMgr) : option string :=
  ni_setname <$> cur m.

(** [n] successive calls of [get_test_names]: the vectors returned with
    the set name current after each call, the final registry, and all
    diagnostics. *)
Fixpoint enumerate (n : nat) (m : KernelTestMgr)
  : list (option string * stringvec) * KernelTestMgr * list event :=
  match n with
  | O => ([], m, [])
  | S n' =>
      let '(v, m1, d1) := get_test_names m in
      let '(vs, m2, d2) := enumerate n' m1 in
      ((get_current_setname m1, v) :: vs, m2, (d1 ++ d2))
  end.

End Enumeration.

(** ** Netlink attributes *)

(** A netlink attribute: its type tag and its payload.  The getters of
    libnl read the payload as the kind the caller expects; on a payload of
    another kind the getters of the model give zero, the empty string or the
    empty list. *)
#[warnings="-register-all"]
Inductive nlattr : Type :=
| nla_u32 (ty : ktf_attr) (v : Z)
| nla_u64 (ty : ktf_attr) (v : Z)
| nla_str (ty : ktf_attr) (s : string)
| nla_nest (ty : ktf_attr) (l : list nlattr).

Definition nla_type (nla : nlattr) : ktf_attr :=
  match nla with
  | nla_u32 ty _ | nla_u64 ty _ | nla_str ty _ | nla_nest ty _ => ty
  end.

Definition nla_get_u32 (nla : nlattr) : Z :=
  match nla with nla_u32 _ v => to_u32 v | _ => 0 end.

Definition nla_get_u64 (nla : nlattr) : Z :=
  match nla with nla_u64 _ v => to_u64 v | _ => 0 end.

(** [nla_get_string] returns the address of the payload, a [char*] that is
    never [NULL]. *)
Definition nla_get_string (nla : nlattr) : option string :=
  match nla with nla_str _ s => Some s | _ => Some "" end.

(** The attributes [nla_for_each_nested] runs over. *)
Definition nla_nested (nla : nlattr) : list nlattr :=
  match nla with nla_nest _ l => l | _ => [] end.

(** Construction of a [std::string] from a [char*]. *)
Definition string_of (p : option string) : string := default "" p.

(** The array [attrs] filled by [genlmsg_parse]: one slot per tag. *)
Definition nlattrs : Type := ktf_attr -> option nlattr.

(** [enum nl_cb_action] of libnl. *)
Definition NL_OK : Z := 0.
Definition NL_SKIP : Z := 1.

(** ** Protocol version *)

Inductive vfield : Type := MAJOR | MINOR | MICRO | BUILD.

(** Modelled from the spec: the macros [KTF_VERSION] and [KTF_VERSION_SET]
    are defined in [kernel/ktf_unlproto.h], which is not among the sources.
    The spec has four fields (major, minor, micro, build) packed into one
    64-bit integer with fixed widths; they are taken as 16 bits each, major
    first. *)
Definition vshift (f : vfield) : Z :=
  match f with MAJOR => 48 | MINOR => 32 | MICRO => 16 | BUILD => 0 end.

Definition KTF_VERSION (f : vfield) (v : Z) : Z :=
  Z.shiftr (Z.land v (Z.shiftl 65535 (vshift f))) (vshift f).

Definition KTF_VERSION_SET (f : vfield) (v : Z) : Z :=
  to_u64 (Z.shiftl (Z.land v 65535) (vshift f)).

Definition version_fields (v : Z) : Z * Z * Z * Z :=
  (KTF_VERSION MAJOR v, KTF_VERSION MINOR v, KTF_VERSION MICRO v, KTF_VERSION BUILD v).

(** A version given by its four fields. *)
Definition mk_version (major minor micro build : Z) : Z :=
  Z.lor (Z.lor (KTF_VERSION_SET MAJOR major) (KTF_VERSION_SET MINOR minor))
        (Z.lor (KTF_VERSION_SET MICRO micro) (KTF_VERSION_SET BUILD build)).

(** ** parse_one_set *)

(** The loop of [parse_one_set(setname, testname, attr)] over the nested
    attributes [l], with the local [handle_id]. *)
Fixpoint parse_one_set_loop (setname : string) (l : list nlattr) (handle_id : Z)
    (m : KernelTestMgr) : Z * KernelTestMgr * list event :=
  match l with
  | [] => (NL_OK, m, [])
  | nla :: l' =>
      match nla_type nla with
      | KTF_A_HID => parse_one_set_loop setname l' (nla_get_u32 nla) m
      | KTF_A_STR =>
          let msg := string_of (nla_get_string nla) in
          parse_one_set_loop setname l' 0 (add_test m setname msg handle_id)
      | ty => (NL_SKIP, m, [EvUnexpectedAttr "parse_result" ty])
      end
  end.

Definition parse_one_set (setname : string) (attr : nlattr) (m : KernelTestMgr)
  : Z * KernelTestMgr * list event :=
  parse_one_set_loop setname (nla_nested attr) 0 m.

(** ** parse_query *)

(** The inner loop of the handle list: the contexts of one handle.  It has
    no [default] case. *)
Fixpoint parse_ctx_list (l : list nlattr) (handle_id : Z) (ctx : string)
    (contexts : stringvec) (type_id : Z) (m : KernelTestMgr)
  : string * stringvec * Z * KernelTestMgr :=
  match l with
  | [] => (ctx, contexts, type_id, m)
  | nla2 :: l' =>
      match nla_type nla2 with
      | KTF_A_STR =>
          let ctx1 := string_of (nla_get_string nla2) in
          parse_ctx_list l' handle_id ctx1 (contexts ++ [ctx1]) type_id m
      | KTF_A_NUM =>
          parse_ctx_list l' handle_id ctx contexts (nla_get_u32 nla2) m
      | KTF_A_STAT =>
          let cfg_stat_ := to_int (nla_get_u32 nla2) in
          parse_ctx_list l' handle_id ctx contexts type_id
            (add_configurable_context m ctx type_id handle_id cfg_stat_)
      | _ => parse_ctx_list l' handle_id ctx contexts type_id m
      end
  end.

(** The loop over [attrs[KTF_A_HLIST]]. *)
Fixpoint parse_hlist (l : list nlattr) (handle_id type_id : Z) (ctx : string)
    (contexts : stringvec) (m : KernelTestMgr) : Z * KernelTestMgr * list event :=
  match l with
  | [] => (NL_OK, m, [])
  | nla :: l' =>
      match nla_type nla with
      | KTF_A_HID => parse_hlist l' (nla_get_u32 nla) type_id ctx contexts m
      | KTF_A_LIST =>
          let '(ctx1, contexts1, type_id1, m1) :=
            parse_ctx_list (nla_nested nla) handle_id ctx contexts type_id m in
          (* Add this set of contexts for the handle_id *)
          parse_hlist l' 0 type_id1 ctx1 [] (add_cset m1 handle_id contexts1)
      | ty => (NL_SKIP, m, [EvUnexpectedAttr "parse_query" ty])
      end
  end.

(** The loop over [attrs[KTF_A_LIST]], with the local [setname]. *)
Fixpoint parse_set_list (l : list nlattr) (setname : string) (m : KernelTestMgr)
  : Z * KernelTestMgr * list event :=
  match l with
  | [] => (NL_OK, m, [])
  | nla :: l' =>
      match nla_type nla with
      | KTF_A_STR =>
          let setname1 := string_of (nla_get_string nla) in
          (* Just to make sure empty sets are also added *)
          parse_set_list l' setname1 (find_add_set m setname1)
      | KTF_A_TEST =>
          let '(stat, m1, ev1) := parse_one_set setname nla m in
          if negb (stat =? NL_OK) then (stat, m1, ev1)
          else
            let '(r, m2, ev2) := parse_set_list l' setname (find_add_set m1 setname) in
            (r, m2, (ev1 ++ ev2))
      | ty => (NL_SKIP, m, [EvUnexpectedAttr "parse_result" ty])
      end
  end.

(** [parse_query] after the version check: the inventory. *)
Definition parse_inventory (attrs : nlattrs) (m : KernelTestMgr)
  : Z * KernelTestMgr * list event :=
  let '(stat, m1, ev1) :=
    match attrs KTF_A_HLIST with
    | Some a => parse_hlist (nla_nested a) 0 0 "" [] m
    | None => (NL_OK, m, [])
    end in
  if negb (stat =? NL_OK) then (stat, m1, ev1)
  else
    match attrs KTF_A_NUM with
    | None => (-1, m1, (ev1 ++ [EvNoSetCount]))
    | Some _ =>
        match attrs KTF_A_LIST with
        | Some a =>
            let '(r, m2, ev2) := parse_set_list (nla_nested a) "" m1 in
            (r, m2, (ev1 ++ ev2))
        | None => (NL_OK, m1, ev1)
        end
    end.

Section Query.

(** The protocol version of the user library, a constant of
    [kernel/ktf_unlproto.h]. *)
Variable KTF_VERSION_LATEST : Z.

(** Version 0.1.0.0 did not report version back from the kernel. *)
Definition legacy_version : Z :=
  Z.lor (KTF_VERSION_SET MAJOR 0) (KTF_VERSION_SET MINOR 1).

(** [parse_query(msg, attrs)]: the value returned, the registry and what
    was written to [stderr]. *)
Definition parse_query (attrs : nlattrs) (m : KernelTestMgr)
  : Z * KernelTestMgr * list event :=
  let kernel_version :=
    match attrs KTF_A_VERSION with
    | Some a => nla_get_u64 a
    | None => legacy_version
    end in
  if negb (kernel_version =? KTF_VERSION_LATEST) then
    let is_compatible :=
      (KTF_VERSION MAJOR KTF_VERSION_LATEST =? KTF_VERSION MAJOR kernel_version)
      && (KTF_VERSION MINOR KTF_VERSION_LATEST =? KTF_VERSION MINOR kernel_version) in
    let note := if negb is_compatible then "Error" else "Note" in
    let ev := EvVersionDiff note (version_fields KTF_VERSION_LATEST)
                            (version_fields kernel_version) in
    if negb is_compatible then (NL_SKIP, m, [ev])
    else
      let '(r, m1, evs) := parse_inventory attrs m in
      (r, m1, ev :: evs)
  else parse_inventory attrs m.

End Query.

(** ** parse_result *)

(** A call of the installed handler [handle_test(result, file, line, report)]. *)
Definition handler_call : Type := Z * string * Z * string.

(** The locals of [parse_result]. *)
Record result_locals : Type := mkResultLocals {
  assert_cnt : Z;
  fail_cnt : Z;
  result : Z;
  file : string;
  line : Z;
  report : string
}.

Definition result_locals_init : result_locals :=
  {| assert_cnt := 0; fail_cnt := 0; result := -1; file := "no_file";
     line := 0; report := "no_report" |}.

(** The case [KTF_A_STAT] after the flush: [result = nla_get_u32(nla)] and
    the counting. *)
Definition count_status (st : result_locals) (v : Z) : result_locals :=
  let result1 := to_int v in
  if negb (result1 =? 0) then
    {| assert_cnt := int_add (assert_cnt st) result1; fail_cnt := fail_cnt st;
       result := result1; file := file st; line := line st; report := report st |}
  else
    {| assert_cnt := int_add (assert_cnt st) 1; fail_cnt := int_add (fail_cnt st) 1;
       result := result1; file := file st; line := line st; report := report st |}.

(** The loop over [attrs[KTF_A_LIST]]: whether it ran to the end ([false]
    for the early [return NL_SKIP]), the locals, the handler calls made and
    what was written to [stderr]. *)
Fixpoint parse_result_loop (l : list nlattr) (st : result_locals)
  : bool * result_locals * list handler_call * list event :=
  match l with
  | [] => (true, st, [], [])
  | nla :: l' =>
      match nla_type nla with
      | KTF_A_STAT =>
          (* Flush previous test, if any *)
          let call := (result st, file st, line st, report st) in
          let '(fin, st1, calls, ev) :=
            parse_result_loop l' (count_status st (nla_get_u32 nla)) in
          (fin, st1, call :: calls, ev)
      | KTF_A_FILE =>
          let file1 := match nla_get_string nla with
                       | Some f => f
                       | None => "no_file"
                       end in
          parse_result_loop l'
            {| assert_cnt := assert_cnt st; fail_cnt := fail_cnt st; result := result st;
               file := file1; line := line st; report := report st |}
      | KTF_A_NUM =>
          parse_result_loop l'
            {| assert_cnt := assert_cnt st; fail_cnt := fail_cnt st; result := result st;
               file := file st; line := to_int (nla_get_u32 nla); report := report st |}
      | KTF_A_STR =>
          let report1 := match nla_get_string nla with
                         | Some r => r
                         | None => "no_report"
                         end in
          parse_result_loop l'
            {| assert_cnt := assert_cnt st; fail_cnt := fail_cnt st; result := result st;
               file := file st; line := line st; report := report1 |}
      | ty => (false, st, [], [EvUnexpectedAttr "parse_result" ty])
      end
  end.

(** [parse_result(msg, attrs)]: the value returned, the locals at the
    return, the calls of [handle_test] and what was written to [stderr]. *)
Definition parse_result (attrs : nlattrs)
  : Z * result_locals * list handler_call * list event :=
  let ev0 :=
    match attrs KTF_A_STAT with
    | Some a =>
        let stat := to_int (nla_get_u32 a) in
        if negb (stat =? 0) then [EvExecFailed stat] else []
    | None => []
    end in
  match attrs KTF_A_LIST with
  | Some a =>
      let '(fin, st, calls, ev) := parse_result_loop (nla_nested a) result_locals_init in
      if fin then
        (* Handle last test *)
        (NL_OK, st, (calls ++ [(result st, file st, line st, report st)]),
         (ev0 ++ ev))
      else (NL_SKIP, st, calls, (ev0 ++ ev))
  | None => (NL_OK, result_locals_init, [], ev0)
  end.

(** ** Vocabulary of the statements *)

(** A node of [sets] whose wrapper map is not empty. *)
Definition wrapped (e : string * testset) : bool :=
  negb (Nat.eqb (size (wrapper e.2)) 0).

(** The diagnostic of the skip loop for one node. *)
Definition skip_diag (e : string * testset) : list event :=
  if wrapped e && Nat.eqb (List.length (test_names e.2)) 0
  then [EvSkipSuite e.1] else [].

(** The nodes [get_test_names] returns: those with an empty wrapper map,
    in key order. *)
Definition returned_sets (m : KernelTestMgr) : list (string * testset) :=
  filter (fun e => wrapped e = false) (map_in_order (sets m)).

(** The nodes [nodes_from] the cursor of the next [get_test_names] call. *)
Definition cursor_nodes (m : KernelTestMgr) : list (string * testset) :=
  match cur m with
  | Some c => nodes_from (it c) (sets m)
  | None => nodes_from (map_begin (sets m)) (sets m)
  end.

(** The ordinal a set name holds, if the set exists. *)
Definition ordinal_of (m : KernelTestMgr) (setname : string) : option Z :=
  setnum <$> sets m !! setname.

(** The operations of the registry. *)
Inductive registry_op : Type :=
| OpFindAddSet (setname : string)
| OpFindAddTest (setname testname : string)
| OpAddTest (setname tname : string) (handle_id : Z)
| OpAddWrapper (setname testname : string) (tcb : option test_cb)
| OpFindTest (fuel : nat) (setname testname pctx : string)
| OpAddCset (hid : Z) (ctxs : stringvec)
| OpAddConfigurableContext (ctx : string) (type_id hid cfg_stat_ : Z)
| OpGetTestNames (end_wrapper_size : nat).

(** The registry after an operation; [None] when [find_test] does not
    return. *)
Definition apply_op (op : registry_op) (m : KernelTestMgr) : option KernelTestMgr :=
  match op with
  | OpFindAddSet s => Some (find_add_set m s)
  | OpFindAddTest s t => Some (find_add_test m s t)
  | OpAddTest s t hid => Some (add_test m s t hid)
  | OpAddWrapper s t tcb => Some (add_wrapper m s t tcb)
  | OpFindTest fuel s t pctx =>
      match find_test fuel m s t pctx with
      | Returns (m1, _, _) => Some m1
      | _ => None
      end
  | OpAddCset hid ctxs => Some (add_cset m hid ctxs)
  | OpAddConfigurableContext ctx type_id hid st =>
      Some (add_configurable_context m ctx type_id hid st)
  | OpGetTestNames ews => Some (get_test_names ews m).1.2
  end.

Fixpoint apply_ops (ops : list registry_op) (m : KernelTestMgr) : option KernelTestMgr :=
  match ops with
  | [] => Some m
  | op :: ops' =>
      match apply_op op m with
      | Some m1 => apply_ops ops' m1
      | None => None
      end
  end.

(** The invariant on ordinals: the sets that went through [find_add_set]
    (their names are in [kernelsets]) hold pairwise different ordinals below
    [next_set]; a set that only [operator[]] created holds the [0] of
    [testset()]. *)
Record ordinals_ok (m : KernelTestMgr) : Prop := mkOrdinalsOk {
  ok_next : 0 <= next_set m <= INT_MAX;
  ok_assigned : forall s, s ∈ kernelsets m ->
    exists n, ordinal_of m s = Some n /\ 0 <= n < next_set m;
  ok_distinct : forall s1 s2 n, s1 ∈ kernelsets m -> s2 ∈ kernelsets m ->
    ordinal_of m s1 = Some n -> ordinal_of m s2 = Some n -> s1 = s2;
  ok_default : forall s n, s ∉ kernelsets m -> ordinal_of m s = Some n -> n = 0
}.

(** The tags the loop of [parse_result] has a case for. *)
Definition check_tag (nla : nlattr) : bool :=
  match nla_type nla with
  | KTF_A_STAT | KTF_A_FILE | KTF_A_NUM | KTF_A_STR => true
  | _ => false
  end.

Definition is_stat (nla : nlattr) : bool :=
  match nla_type nla with KTF_A_STAT => true | _ => false end.

(** The status codes the loop of [parse_result] reads, as [int]s, up to the
    first attribute it has no case for. *)
Fixpoint statuses (l : list nlattr) : list Z :=
  match l with
  | [] => []
  | nla :: l' =>
      if check_tag nla then
        (if is_stat nla then [to_int (nla_get_u32 nla)] else []) ++ statuses l'
      else []
  end.

(** What one status code adds to [assert_cnt]. *)
Definition assert_share (r : Z) : Z := if r =? 0 then 1 else r.

Definition sumZ (l : list Z) : Z := fold_right Z.add 0 l.

Definition is_zero (r : Z) : bool := r =? 0.

(** The result code a handler call delivers. *)
Definition call_result (c : handler_call) : Z := c.1.1.1.

(** The array [attrs] of a message with the given top-level attributes;
    of two attributes with one tag the later one wins. *)
Fixpoint attrs_of (l : list nlattr) : nlattrs :=
  match l with
  | [] => fun _ => None
  | a :: l' => fun t =>
      match attrs_of l' t with
      | Some b => Some b
      | None => if bool_decide (nla_type a = t) then Some a else None
      end
  end.

(** The array [attrs] with the version slot set to the version [v]. *)
Definition with_version (attrs : nlattrs) (v : Z) : nlattrs :=
  fun t =>
    match t with
    | KTF_A_VERSION => Some (nla_u64 KTF_A_VERSION v)
    | _ => attrs t
    end.

(** * The rest of the registry *)

(** ** find_contexts, get_set_names *)

(** [find_contexts(ctx)]: the contexts registered under the name [ctx], the
    empty vector when there are none.  It uses [find], so it inserts
    nothing. *)
Definition find_contexts (m : KernelTestMgr) (ctx : string) : list ConfigurableContext :=
  match cfg_contexts m !! ctx with
  | None => []
  | Some v => v
  end.

(** [get_set_names()] and [get_testsets()]. *)
Definition get_set_names (m : KernelTestMgr) : stringvec := set_names m.

(** [ConfigurableContext::Type()]: the [int] member as an [unsigned int]. *)
Definition cc_Type (c : ConfigurableContext) : Z := to_u32 (cc_type_id c).

(** ** KernelTest::get_priv *)

Definition set_user_priv (kt : KernelTest) (p : option (list Z)) (sz : Z) : KernelTest :=
  {| kt_setname := kt_setname kt; kt_testname := kt_testname kt;
     kt_setnum := kt_setnum kt; kt_testnum := kt_testnum kt;
     user_priv := p; user_priv_sz := sz;
     user_test := user_test kt; kt_file := kt_file kt; kt_line := kt_line kt;
     kt_name := kt_name kt |}.

(** [get_priv(p_sz)].  [malloc_result] is what [malloc(p_sz)] gives if it is
    called: [None] for [NULL], else the block. *)
Definition get_priv (kt : KernelTest) (p_sz : Z) (malloc_result : option (list Z))
  : KernelTest * option (list Z) :=
  match user_priv kt with
  | Some p => (kt, Some p)
  | None =>
      match malloc_result with
      | Some p => (set_user_priv kt (Some p) p_sz, Some p)
      | None => (kt, None)
      end
  end.

(** [get_priv_sz(kt)]. *)
Definition get_priv_sz (kt : KernelTest) : Z := user_priv_sz kt.

(** ** Vocabulary *)

(** The pointer a direct lookup of [(s, t)] reads. *)
Definition test_at (m : KernelTestMgr) (s t : string) : option KernelTest :=
  tests_at (sets_at m s) t.

(** The registry operation creates or rebinds the test [(s, t)]. *)
Definition op_targets (op : registry_op) (s t : string) : Prop :=
  match op with
  | OpAddTest s' t' _ => s' = s /\ t' = t
  | OpAddWrapper s' t' _ => s' = s /\ t' = t
  | _ => False
  end.

(** The invariant that ties [set_names], [kernelsets], [next_set] and the
    ordinals: [set_names] lists the names of [kernelsets] once each, and the
    ordinal of a set is its index in [set_names]. *)
Record names_ok (m : KernelTestMgr) : Prop := mkNamesOk {
  nk_nodup : NoDup (set_names m);
  nk_members : forall s, s ∈ set_names m <-> s ∈ kernelsets m;
  nk_next : next_set m = Z.of_nat (length (set_names m));
  nk_index : forall (i : nat) s,
    set_names m !! i = Some s -> ordinal_of m s = Some (Z.of_nat i)
}.

(** The part of the registry that holds sets and tests (all but the context
    tables). *)
Definition registry_core (m : KernelTestMgr)
  : gmap string testset * stringvec * stringvec * gset string * Z * option name_iter :=
  (sets m, mgr_test_names m, set_names m, kernelsets m, next_set m, cur m).

(** The number of attributes in a nested list and, one level down, in its
    members. *)
Definition nested_size (l : list nlattr) : nat :=
  fold_right (fun nla n => (S (length (nla_nested nla)) + n)%nat) O l.

(** The number of attributes in the two tables of a query response. *)
Definition query_size (attrs : nlattrs) : nat :=
  (match attrs KTF_A_HLIST with Some a => nested_size (nla_nested a) | None => O end
   + match attrs KTF_A_LIST with Some a => nested_size (nla_nested a) | None => O end)%nat.

(** * Requests and responses over the netlink channel *)

(** Request type tags.
    Modelled from the spec: [enum ktf_cmd_type] is declared in
    [kernel/ktf_unlproto.h], which is not among the sources; these are the
    tags [ktf_int.cpp] names. *)
Inductive ktf_cmd_type : Type :=
| KTF_CT_QUERY | KTF_CT_RUN | KTF_CT_COV_ENABLE | KTF_CT_COV_DISABLE | KTF_CT_CTX_CFG.

(** An attribute put into a request.  All requests are built by
    [genlmsg_put(msg, NL_AUTO_PID, NL_AUTO_SEQ, family, 0, NLM_F_REQUEST,
    KTF_C_REQ, 1)] followed by [nla_put] calls; a request is the list of
    its attributes in the order they are put. *)
Inductive put_attr : Type :=
| put_type (ct : ktf_cmd_type)                     (* nla_put_u32(msg, KTF_A_TYPE, ct) *)
| put_u32 (ty : ktf_attr) (v : Z)                  (* nla_put_u32 *)
| put_u64 (ty : ktf_attr) (v : Z)                  (* nla_put_u64 *)
| put_string (ty : ktf_attr) (s : string)          (* nla_put_string *)
| put_data (ty : ktf_attr) (sz : Z) (data : option (list Z)).  (* nla_put *)

Definition request : Type := list put_attr.

(** What happens on the socket. *)
Inductive io : Type :=
| IoSend (msg : request)      (* nl_send_auto_complete(sock, msg) *)
| IoWaitAck                   (* nl_wait_for_ack(sock) *)
| IoRecv.                     (* nl_recvmsgs_default(sock) *)

(** A message libnl hands to a callback: its [nlmsg_type], what
    [genlmsg_parse] returns for it and the attribute array it fills. *)
Record nl_msg : Type := mkNlMsg {
  nlmsg_type : Z;
  genlmsg_parse_ret : Z;
  msg_attrs : nlattrs
}.

(** [nl_connect] installs [parse_cb] for valid and [error_cb] for invalid
    messages; one receive hands one message to one of them. *)
Inductive delivery : Type :=
| DeliverValid (msg : nl_msg)
| DeliverInvalid (msg : nl_msg).

(** What the callbacks write to [stderr]. *)
Inductive cb_event : Type :=
| CbStderr (e : event)
| CbNoType                 (* "Received kernel response without a type" *)
| CbDump (ty : Z)          (* "[Received netlink message of type %d]" and the dump *)
| CbInvalid (ty : Z).      (* "Received invalid netlink message - type %d" *)

(** The state the functions of the file share: the registry [kmgr()],
    [errno], and the traces of the socket, of the installed handler
    [handle_test] and of [stderr]. *)
Record world : Type := mkWorld {
  w_mgr : KernelTestMgr;
  w_errno : Z;
  w_io : list io;
  w_calls : list handler_call;
  w_log : list cb_event
}.

Definition w_do (w : world) (l : list io) : world :=
  {| w_mgr := w_mgr w; w_errno := w_errno w; w_io := w_io w ++ l;
     w_calls := w_calls w; w_log := w_log w |}.

Definition w_set_errno (w : world) (e : Z) : world :=
  {| w_mgr := w_mgr w; w_errno := e; w_io := w_io w;
     w_calls := w_calls w; w_log := w_log w |}.

Definition w_parsed (w : world) (m : KernelTestMgr) (calls : list handler_call)
    (log : list cb_event) : world :=
  {| w_mgr := m; w_errno := w_errno w; w_io := w_io w;
     w_calls := w_calls w ++ calls; w_log := w_log w ++ log |}.

(** A gtest [ASSERT_*] that fails records the failure and returns from the
    function. *)
Inductive configure_failure : Type :=
| NoContextFound          (* ASSERT_GE(ct.size(), 1UL) *)
| MoreThanOneContext      (* ASSERT_EQ(ct.size(), 1UL) *)
| TypeMismatch            (* ASSERT_EQ(type_id, ct[0]->Type()) *)
| ConfigureFailed (err : Z).  (* ASSERT_EQ(ct[0]->Configure(data, data_sz), 0) *)

(** What [run_test] did. *)
Inductive run_test_result : Type :=
| RanUserTest (cb : test_cb) (kt : KernelTest)   (* kt->user_test->fun(kt) *)
| RanKernelTest (w : world).                     (* run(kt, ctx) *)

Section Transport.

(** The protocol version of the user library. *)
Variable KTF_VERSION_LATEST : Z.

(** The request type a [u32] stands for: the cast
    [(ktf_cmd_type)nla_get_u32(...)] followed by the [switch]. *)
Variable ct_of_u32 : Z -> option ktf_cmd_type.

(** [debug_cb] and [error_cb]. *)
Definition debug_cb (msg : nl_msg) (w : world) : Z * world :=
  (NL_OK, w_parsed w (w_mgr w) [] [CbDump (nlmsg_type msg)]).

Definition error_cb (msg : nl_msg) (w : world) : Z * world :=
  (NL_OK, w_parsed w (w_mgr w) [] [CbInvalid (nlmsg_type msg)]).

(** [parse_cb(msg, arg)]. *)
Definition parse_cb (msg : nl_msg) (w : world) : Z * world :=
  (* Validate message and parse attributes *)
  let err := genlmsg_parse_ret msg in
  if err <? 0 then (err, w)
  else
    match msg_attrs msg KTF_A_TYPE with
    | None => (NL_SKIP, w_parsed w (w_mgr w) [] [CbNoType])
    | Some a =>
        match ct_of_u32 (nla_get_u32 a) with
        | Some KTF_CT_QUERY =>
            let '(r, m1, ev) := parse_query KTF_VERSION_LATEST (msg_attrs msg) (w_mgr w) in
            (r, w_parsed w m1 [] (List.map CbStderr ev))
        | Some KTF_CT_RUN =>
            let '(r, _, calls, ev) := parse_result (msg_attrs msg) in
            (r, w_parsed w (w_mgr w) calls (List.map CbStderr ev))
        | _ =>
            (NL_SKIP, (debug_cb msg w).2)
        end
    end.

(** [nl_recvmsgs_default(sock)] with the message [d] arriving. *)
Definition nl_recvmsgs_default (d : delivery) (w : world) : world :=
  let w1 := w_do w [IoRecv] in
  match d with
  | DeliverValid msg => (parse_cb msg w1).2
  | DeliverInvalid msg => (error_cb msg w1).2
  end.

(** The request of [query_testsets]. *)
Definition query_request : request :=
  [put_type KTF_CT_QUERY; put_u64 KTF_A_VERSION KTF_VERSION_LATEST].

(** [query_testsets()]: [ack] is what [nl_wait_for_ack] returns, [d] the
    message that arrives if the function receives.  The vector returned is
    [kmgr().get_set_names()]. *)
Definition query_testsets (ack : Z) (d : delivery) (w : world) : stringvec * world :=
  let w1 := w_do w [IoSend query_request; IoWaitAck] in
  if ack <? 0 then
    let w2 := w_set_errno w1 (to_int (- ack)) in
    (get_set_names (w_mgr w2), w2)
  else
    let w2 := nl_recvmsgs_default d w1 in
    (get_set_names (w_mgr w2), w2).

(** The request of [run(kt, context)]. *)
Definition run_request (kt : KernelTest) (context : string) : request :=
  [put_type KTF_CT_RUN; put_u64 KTF_A_VERSION KTF_VERSION_LATEST;
   put_string KTF_A_SNAM (kt_setname kt); put_string KTF_A_TNAM (kt_testname kt)]
  ++ (if bool_decide (context = "") then [] else [put_string KTF_A_STR context])
  (* Send any test specific out-of-band data *)
  ++ (match user_priv kt with
      | Some p => [put_data KTF_A_DATA (user_priv_sz kt) (Some p)]
      | None => []
      end).

(** [run(kt, context)]. *)
Definition run (kt : KernelTest) (context : string) (ack : Z) (d : delivery)
    (w : world) : world :=
  let w1 := w_do w [IoSend (run_request kt context); IoWaitAck] in
  if ack <? 0 then w_set_errno w1 (to_int (- ack))
  else nl_recvmsgs_default d w1.

(** [run_test(kt, ctx)]. *)
Definition run_test (kt : KernelTest) (ctx : string) (ack : Z) (d : delivery)
    (w : world) : run_test_result :=
  match user_test kt with
  | Some cb => RanUserTest cb kt
  | None => RanKernelTest (run kt ctx ack d w)
  end.

(** The request of [set_coverage(module, opts, enabled)]. *)
Definition coverage_request (module : string) (opts : Z) (enabled : bool) : request :=
  [put_type (if enabled then KTF_CT_COV_ENABLE else KTF_CT_COV_DISABLE);
   put_u32 KTF_A_COVOPT opts; put_u64 KTF_A_VERSION KTF_VERSION_LATEST;
   put_string KTF_A_MOD module].

(** [set_coverage(module, opts, enabled)]. *)
Definition set_coverage (module : string) (opts : Z) (enabled : bool) (ack : Z)
    (d : delivery) (w : world) : Z * world :=
  let w1 := w_do w [IoSend (coverage_request module opts enabled); IoWaitAck] in
  if ack =? 0 then (ack, nl_recvmsgs_default d w1) else (ack, w1).

(** The request of [ConfigurableContext::Configure(data, data_sz)]. *)
Definition configure_request (c : ConfigurableContext) (data : option (list Z))
    (data_sz : Z) : request :=
  [put_type KTF_CT_CTX_CFG; put_u64 KTF_A_VERSION KTF_VERSION_LATEST;
   put_string KTF_A_STR (cc_name c); put_u32 KTF_A_HID (to_u32 (cc_handle_id c));
   put_data KTF_A_DATA data_sz data].

(** [ConfigurableContext::Configure(data, data_sz)]: this message receives
    no response beyond the error code. *)
Definition Configure (c : ConfigurableContext) (data : option (list Z)) (data_sz : Z)
    (ack : Z) (w : world) : Z * world :=
  (ack, w_do w [IoSend (configure_request c data data_sz); IoWaitAck]).

(** [configure_context(context, type_id, data, data_sz)]: [None] when all
    assertions hold. *)
Definition configure_context (context : string) (type_id : Z)
    (data : option (list Z)) (data_sz : Z) (ack : Z) (w : world)
  : option configure_failure * world :=
  let ct := find_contexts (w_mgr w) context in
  if negb (1 <=? Z.of_nat (length ct)) then (Some NoContextFound, w)
  else if negb (Z.of_nat (length ct) =? 1) then (Some MoreThanOneContext, w)
  else
    match ct with
    | c0 :: _ =>
        if negb (type_id =? cc_Type c0) then (Some TypeMismatch, w)
        else
          let '(err, w1) := Configure c0 data data_sz ack w in
          if negb (err =? 0) then (Some (ConfigureFailed err), w1)
          else (None, w1)
    | [] => (Some NoContextFound, w)
    end.

End Transport.

(** The request type of a message as [parse_cb] sees it: none when
    [genlmsg_parse] fails or the type attribute is missing. *)
Definition msg_cmd (ct_of_u32 : Z -> option ktf_cmd_type) (msg : nl_msg)
  : option ktf_cmd_type :=
  if genlmsg_parse_ret msg <? 0 then None
  else match msg_attrs msg KTF_A_TYPE with
       | None => None
       | Some a => ct_of_u32 (nla_get_u32 a)
       end.

(** * Properties *)

(** ** The order of std::string *)

Lemma ltb_lt (a b : string) : String.ltb a b = true <-> String_as_OT.lt a b.
Proof.
  unfold String.ltb. rewrite <- String_as_OT.cmp_lt. unfold String_as_OT.cmp.
  destruct (String.compare a b); intuition congruence.
Qed.

Lemma ltb_irrefl (a : string) : String.ltb a a = false.
Proof.
  unfold String.ltb.
  pose proof (proj2 (String_as_OT.cmp_eq a a) eq_refl) as H. unfold String_as_OT.cmp in H.
  rewrite H. reflexivity.
Qed.

Lemma ltb_trans (a b c : string) :
  String.ltb a b = true -> String.ltb b c = true -> String.ltb a c = true.
Proof. rewrite !ltb_lt. apply String_as_OT.lt_trans. Qed.

Lemma leb_ltb_or_eq (a b : string) :
  String.leb a b = true <-> String.ltb a b = true \/ a = b.
Proof.
  unfold String.leb, String.ltb.
  destruct (String.compare a b) eqn:E.
  - apply String.compare_eq_iff in E. intuition.
  - intuition.
  - split; [discriminate|]. intros [H| ->]; [discriminate|].
    pose proof (proj2 (String_as_OT.cmp_eq b b) eq_refl) as H. unfold String_as_OT.cmp in H.
    congruence.
Qed.

Lemma leb_trans (a b c : string) :
  String.leb a b = true -> String.leb b c = true -> String.leb a c = true.
Proof.
  rewrite !leb_ltb_or_eq. intros [H1| ->] [H2| ->]; eauto using ltb_trans.
Qed.

(** ** Key-order traversal *)

Definition key_lt {V : Type} : relation (string * V) :=
  fun a b => Is_true (String.ltb a.1 b.1).

#[global] Instance key_le_total {V : Type} : Total (@key_le V).
Proof.
  intros a b. unfold key_le. rewrite !Is_true_true. apply String.leb_total.
Qed.

#[global] Instance key_le_trans {V : Type} : Transitive (@key_le V).
Proof.
  intros a b c. unfold key_le. rewrite !Is_true_true. apply leb_trans.
Qed.

Section Traversal.
Context {V : Type}.
Implicit Types (m : gmap string V) (l pre rest : list (string * V)) (e : string * V).

Lemma map_in_order_perm m : map_in_order m ≡ₚ map_to_list m.
Proof. apply merge_sort_Permutation. Qed.

Lemma elem_of_map_in_order m k v : (k, v) ∈ map_in_order m <-> m !! k = Some v.
Proof. rewrite map_in_order_perm. apply elem_of_map_to_list. Qed.

Lemma NoDup_map_in_order m : NoDup (map_in_order m).*1.
Proof. rewrite map_in_order_perm. apply NoDup_fst_map_to_list. Qed.

Lemma sorted_le_NoDup_lt l :
  StronglySorted key_le l -> NoDup l.*1 -> StronglySorted key_lt l.
Proof.
  induction 1 as [|x l Hl IH Hx]; simpl; intros Hnd; [constructor|].
  apply NoDup_cons in Hnd as [Hnotin Hnd].
  constructor; [auto|].
  rewrite Forall_forall in Hx |- *. intros y Hy.
  specialize (Hx y Hy). unfold key_le, key_lt in *.
  rewrite Is_true_true in Hx |- *.
  apply leb_ltb_or_eq in Hx as [Hx|Hx]; [done|].
  exfalso. apply Hnotin. rewrite Hx. apply list_elem_of_fmap. eauto.
Qed.

Lemma map_in_order_sorted m : StronglySorted key_lt (map_in_order m).
Proof.
  apply sorted_le_NoDup_lt; [|apply NoDup_map_in_order].
  apply (StronglySorted_merge_sort key_le).
Qed.

Lemma drop_below_suffix pre e rest :
  StronglySorted key_lt (pre ++ e :: rest) ->
  drop_below e.1 (pre ++ e :: rest) = e :: rest.
Proof.
  induction pre as [|p pre IH]; simpl; intros Hs.
  - by rewrite ltb_irrefl.
  - apply StronglySorted_cons in Hs as [Hp Hs].
    rewrite Forall_forall in Hp.
    assert (Hlt : key_lt p e) by (apply Hp; set_solver).
    unfold key_lt in Hlt. apply Is_true_true in Hlt. rewrite Hlt. auto.
Qed.

(** The iterator that points to the first node of a suffix of the
    traversal denotes that suffix. *)
Lemma nodes_from_suffix m pre rest :
  map_in_order m = pre ++ rest -> nodes_from (fst <$> head rest) m = rest.
Proof.
  intros E. destruct rest as [|e rest]; [done|]. simpl.
  rewrite E. apply drop_below_suffix. rewrite <- E. apply map_in_order_sorted.
Qed.

Lemma nodes_from_begin m : nodes_from (map_begin m) m = map_in_order m.
Proof. apply (nodes_from_suffix m []). done. Qed.

End Traversal.

(** ** Enumeration *)

Lemma set_cur_None_id (m : KernelTestMgr) : cur m = None -> set_cur m None = m.
Proof. destruct m; simpl; intros ->; reflexivity. Qed.

Section EnumerationFacts.
Variable ews : nat.
Implicit Types (l sk rest : list (string * testset)) (e : string * testset).

(** At [sets.end()] the loop test is false whatever the first operand
    read. *)
Lemma skip_cond_end : skip_cond ews [] = false.
Proof. unfold skip_cond. apply andb_false_r. Qed.

Lemma skip_loop_cons e l :
  skip_loop ews (e :: l) =
    if wrapped e then
      ((skip_loop ews l).1,
       (if Nat.eqb (List.length (test_names e.2)) 0 then [EvSkipSuite e.1] else [])
         ++ (skip_loop ews l).2)
    else (e :: l, []).
Proof.
  simpl. unfold skip_cond, wrapped. rewrite andb_true_r.
  destruct (negb _); [|done]. by destruct (skip_loop ews l).
Qed.

Lemma skip_loop_wrapped_app sk l :
  Forall (fun e => wrapped e = true) sk ->
  skip_loop ews (sk ++ l) =
    ((skip_loop ews l).1, flat_map skip_diag sk ++ (skip_loop ews l).2).
Proof.
  induction 1 as [|e sk He _ IH].
  - simpl. by destruct (skip_loop ews l).
  - cbn [app flat_map]. rewrite skip_loop_cons, He, IH. simpl.
    rewrite <- app_assoc. do 2 f_equal. unfold skip_diag. by rewrite He.
Qed.

Lemma skip_loop_visible e l :
  wrapped e = false -> skip_loop ews (e :: l) = (e :: l, []).
Proof.
  intros He. by rewrite skip_loop_cons, He.
Qed.

(** Every list of nodes is a run of wrapped nodes followed by nothing or
    by a node that is returned. *)
Lemma wrapped_prefix l :
  exists sk rest, l = sk ++ rest /\ Forall (fun e => wrapped e = true) sk /\
    match rest with [] => True | e :: _ => wrapped e = false end.
Proof.
  induction l as [|e l (sk & rest & -> & Hsk & Hrest)].
  - exists [], []. by repeat split.
  - destruct (wrapped e) eqn:He.
    + exists (e :: sk), rest. repeat split; [by constructor|done].
    + exists [], (e :: sk ++ rest). by repeat split.
Qed.

Lemma filter_wrapped_prefix sk rest :
  Forall (fun e => wrapped e = true) sk ->
  filter (fun e => wrapped e = false) (sk ++ rest) =
  filter (fun e => wrapped e = false) rest.
Proof.
  induction 1 as [|e sk He _ IH]; simpl; [done|].
  rewrite filter_cons_False; [done|congruence].
Qed.

Lemma skip_diag_visible e : wrapped e = false -> skip_diag e = [].
Proof. unfold skip_diag. by intros ->. Qed.

(** One call with the cursor in front of wrapped nodes and a returned
    one. *)
Lemma get_test_names_next m sk e rest :
  cursor_nodes m = sk ++ e :: rest ->
  Forall (fun e => wrapped e = true) sk -> wrapped e = false ->
  get_test_names ews m =
    (test_names e.2,
     set_cur m (Some {| it := fst <$> head rest; ni_setname := e.1 |}),
     flat_map skip_diag sk).
Proof.
  intros Hc Hsk He. unfold get_test_names.
  assert (nodes_from
            (it match cur m with
                | Some c => c
                | None => {| it := map_begin (sets m); ni_setname := "" |}
                end) (sets m) = sk ++ e :: rest) as ->.
  { rewrite <- Hc. unfold cursor_nodes. by destruct (cur m). }
  rewrite skip_loop_wrapped_app, skip_loop_visible by done.
  simpl. by rewrite app_nil_r.
Qed.

(** One call with only wrapped nodes left. *)
Lemma get_test_names_end m sk :
  cursor_nodes m = sk -> Forall (fun e => wrapped e = true) sk ->
  get_test_names ews m = ([], set_cur m None, flat_map skip_diag sk).
Proof.
  intros Hc Hsk. unfold get_test_names.
  assert (nodes_from
            (it match cur m with
                | Some c => c
                | None => {| it := map_begin (sets m); ni_setname := "" |}
                end) (sets m) = sk ++ []) as ->.
  { rewrite app_nil_r, <- Hc. unfold cursor_nodes. by destruct (cur m). }
  rewrite skip_loop_wrapped_app by done. simpl. by rewrite app_nil_r.
Qed.

(** The calls from a cursor that stands at a suffix of the traversal. *)
Lemma enumerate_from n : forall m pre rest,
  map_in_order (sets m) = pre ++ rest ->
  cursor_nodes m = rest ->
  length (filter (fun e => wrapped e = false) rest) = n ->
  enumerate ews (S n) m =
    (map (fun e => (Some e.1, test_names e.2))
         (filter (fun e => wrapped e = false) rest) ++ [(None, [])],
     set_cur m None,
     flat_map skip_diag rest).
Proof.
  induction n as [|n IH]; intros m pre rest Hall Hc Hn;
    destruct (wrapped_prefix rest) as (sk & rest1 & -> & Hsk & Hrest1);
    rewrite filter_wrapped_prefix in Hn |- * by done.
  - destruct rest1 as [|e rest1].
    2:{ rewrite filter_cons_True in Hn by done. done. }
    rewrite app_nil_r in *. simpl.
    rewrite (get_test_names_end m sk) by done. simpl.
    by rewrite app_nil_r.
  - destruct rest1 as [|e rest1]; [done|].
    rewrite filter_cons_True in Hn |- * by done. simpl in Hn.
    change (enumerate ews (S (S n)) m) with
      (let '(v, m1, d1) := get_test_names ews m in
       let '(vs, m2, d2) := enumerate ews (S n) m1 in
       ((get_current_setname m1, v) :: vs, m2, d1 ++ d2)).
    rewrite (get_test_names_next m sk e rest1) by done.
    set (m1 := set_cur m (Some {| it := fst <$> head rest1; ni_setname := e.1 |})).
    rewrite (IH m1 (pre ++ sk ++ [e]) rest1).
    + simpl. rewrite flat_map_app. simpl.
      rewrite skip_diag_visible by done. by destruct m.
    + simpl. rewrite Hall. by rewrite <- !app_assoc.
    + unfold cursor_nodes, m1. simpl.
      apply (nodes_from_suffix (sets m) (pre ++ sk ++ [e])).
      rewrite Hall. by rewrite <- !app_assoc.
    + lia.
Qed.

End EnumerationFacts.

Lemma sorted_filter_keys {V : Type} (P : string * V -> Prop)
    `{forall e, Decision (P e)} (l : list (string * V)) :
  StronglySorted key_lt l ->
  StronglySorted (fun a b : string => Is_true (String.ltb a b)) (filter P l).*1.
Proof.
  induction 1 as [|x l Hl IH Hx]; [constructor|].
  assert (Forall (fun a : string => Is_true (String.ltb x.1 a)) (filter P l).*1) as Hall.
  { apply Forall_forall. intros a Ha.
    apply list_elem_of_fmap in Ha as (y & -> & Hy).
    apply list_elem_of_filter in Hy as [_ Hy].
    by apply (proj1 (Forall_forall _ _) Hx). }
  destruct (decide (P x)).
  - rewrite filter_cons_True by done. simpl. by constructor.
  - by rewrite filter_cons_False.
Qed.

Lemma omap_current_names (l : list (string * testset)) :
  omap fst (map (fun e => (Some e.1, test_names e.2)) l
              ++ [(None, @nil string)]) = l.*1.
Proof. induction l as [|e l IH]; [done|]. cbn. by f_equal. Qed.

(** ** parse_result *)

Lemma to_int_add_l (a b : Z) : to_int (to_int a + b) = to_int (a + b).
Proof.
  unfold to_int. f_equal.
  replace ((a + 2 ^ 31) mod 2 ^ 32 - 2 ^ 31 + b + 2 ^ 31)
    with ((a + 2 ^ 31) mod 2 ^ 32 + b) by lia.
  rewrite Zplus_mod_idemp_l. f_equal. lia.
Qed.

Lemma to_int_idem (a : Z) : to_int (to_int a) = to_int a.
Proof.
  transitivity (to_int (to_int a + 0)); [f_equal; lia|].
  rewrite to_int_add_l. f_equal. lia.
Qed.

Lemma to_int_small (a : Z) : - 2 ^ 31 <= a < 2 ^ 31 -> to_int a = a.
Proof. intros H. unfold to_int. rewrite Z.mod_small; lia. Qed.

(** The counters after the loop, from any locals: each status adds its
    share, each zero status counts as a failure. *)
Lemma parse_result_loop_counts (l : list nlattr) : forall st,
  let st1 := (parse_result_loop l st).1.1.2 in
  to_int (assert_cnt st1) = to_int (assert_cnt st + sumZ (map assert_share (statuses l)))
  /\ to_int (fail_cnt st1) =
       to_int (fail_cnt st + Z.of_nat (length (filter (fun r => is_zero r = true) (statuses l))))
  /\ (to_int (assert_cnt st) = assert_cnt st -> to_int (assert_cnt st1) = assert_cnt st1)
  /\ (to_int (fail_cnt st) = fail_cnt st -> to_int (fail_cnt st1) = fail_cnt st1).
Proof.
  induction l as [|nla l IH]; intros st.
  - simpl. rewrite !Z.add_0_r. auto.
  - cbn [parse_result_loop statuses]. unfold check_tag, is_stat.
    destruct (nla_type nla) eqn:Ety; simpl;
      try (rewrite !Z.add_0_r; tauto);
      try (specialize (IH (mkResultLocals (assert_cnt st) (fail_cnt st) (result st)
                             (match nla_get_string nla with Some f => f | None => "no_file" end)
                             (line st) (report st))); exact IH);
      try (specialize (IH (mkResultLocals (assert_cnt st) (fail_cnt st) (result st)
                             (file st) (to_int (nla_get_u32 nla)) (report st))); exact IH);
      try (specialize (IH (mkResultLocals (assert_cnt st) (fail_cnt st) (result st)
                             (file st) (line st)
                             (match nla_get_string nla with Some r => r | None => "no_report" end)));
           exact IH).
    specialize (IH (count_status st (nla_get_u32 nla))).
    destruct (parse_result_loop l (count_status st (nla_get_u32 nla)))
      as [[[fin st1] calls] ev]. simpl in *.
    destruct IH as (IH1 & IH2 & IH3 & IH4).
    unfold count_status, assert_share, is_zero in *.
    set (r := to_int (nla_get_u32 nla)) in *.
    destruct (r =? 0) eqn:Er; simpl in *.
    + rewrite filter_cons_True by done. simpl length.
      unfold int_add in *. rewrite to_int_add_l in IH1, IH2.
      repeat split.
      * rewrite IH1. f_equal. lia.
      * rewrite IH2. f_equal. lia.
      * intros _. apply IH3, to_int_idem.
      * intros _. apply IH4, to_int_idem.
    + rewrite filter_cons_False by (rewrite Er; done).
      unfold int_add in *. rewrite to_int_add_l in IH1.
      repeat split.
      * rewrite IH1. f_equal. lia.
      * exact IH2.
      * intros _. apply IH3, to_int_idem.
      * exact IH4.
Qed.

(** The handler calls of the loop over a list of known tags: one per status
    entry, each delivering the locals accumulated before that entry. *)
Lemma parse_result_loop_calls (l : list nlattr) : forall st,
  forallb check_tag l = true ->
  (parse_result_loop l st).1.1.1 = true
  /\ (parse_result_loop l st).2 = []
  /\ length (parse_result_loop l st).1.2 = length (filter (fun a => is_stat a = true) l)
  /\ map call_result (parse_result_loop l st).1.2 ++ [result (parse_result_loop l st).1.1.2]
     = result st :: statuses l.
Proof.
  induction l as [|nla l IH]; intros st Hl.
  - simpl. auto.
  - cbn [forallb] in Hl. apply andb_true_iff in Hl as [Hnla Hl].
    cbn [parse_result_loop statuses]. rewrite Hnla.
    unfold check_tag in Hnla. unfold is_stat at 1 3.
    destruct (nla_type nla) eqn:Ety; try discriminate.
    + rewrite filter_cons_False by (unfold is_stat; rewrite Ety; done).
      match goal with |- context [parse_result_loop l ?s] => exact (IH s Hl) end.
    + rewrite filter_cons_False by (unfold is_stat; rewrite Ety; done).
      match goal with |- context [parse_result_loop l ?s] => exact (IH s Hl) end.
    + rewrite filter_cons_False by (unfold is_stat; rewrite Ety; done).
      match goal with |- context [parse_result_loop l ?s] => exact (IH s Hl) end.
    + rewrite filter_cons_True by (unfold is_stat; rewrite Ety; done).
      specialize (IH (count_status st (nla_get_u32 nla)) Hl).
      destruct (parse_result_loop l (count_status st (nla_get_u32 nla)))
        as [[[fin st1] calls] ev]. simpl in *.
      destruct IH as (IH1 & IH2 & IH3 & IH4).
      repeat split; [done|done|by rewrite IH3|].
      unfold call_result at 1. simpl. f_equal. rewrite IH4.
      unfold count_status. by destruct (negb _).
Qed.

(** ** The registry: operator[] *)

Lemma sets_at_touch (m : KernelTestMgr) (s s' : string) :
  sets_at (sets_touch m s) s' = sets_at m s'.
Proof.
  unfold sets_at, sets_touch. destruct (sets m !! s) eqn:E; [done|]. simpl.
  destruct (decide (s = s')) as [->|Hne].
  - by rewrite lookup_insert_eq, E.
  - by rewrite lookup_insert_ne.
Qed.

Lemma next_set_touch (m : KernelTestMgr) (s : string) :
  next_set (sets_touch m s) = next_set m.
Proof. unfold sets_touch. by destruct (sets m !! s). Qed.

Lemma kernelsets_touch (m : KernelTestMgr) (s : string) :
  kernelsets (sets_touch m s) = kernelsets m.
Proof. unfold sets_touch. by destruct (sets m !! s). Qed.

Lemma sets_store_touch (m : KernelTestMgr) (s : string) (ts : testset) :
  sets_store (sets_touch m s) s ts = sets_store m s ts.
Proof.
  unfold sets_store, sets_touch. destruct (sets m !! s); [done|].
  unfold set_sets. simpl. by rewrite insert_insert_eq.
Qed.

Lemma sets_at_store (m : KernelTestMgr) (s : string) (ts : testset) :
  sets_at (sets_store m s ts) s = ts.
Proof. unfold sets_at, sets_store. simpl. by rewrite lookup_insert_eq. Qed.

Lemma tests_at_touch (ts : testset) (t t' : string) :
  tests_at (tests_touch ts t) t' = tests_at ts t'.
Proof.
  unfold tests_at, tests_touch. destruct (tests ts !! t) eqn:E; [done|]. simpl.
  destruct (decide (t = t')) as [->|Hne].
  - by rewrite lookup_insert_eq, E.
  - by rewrite lookup_insert_ne.
Qed.

Lemma setnum_tests_touch (ts : testset) (t : string) :
  setnum (tests_touch ts t) = setnum ts.
Proof. unfold tests_touch. by destruct (tests ts !! t). Qed.

Lemma lookup_test_eq (m : KernelTestMgr) (s t : string) :
  lookup_test m s t
  = (sets_store m s (tests_touch (sets_at m s) t), tests_at (sets_at m s) t).
Proof. unfold lookup_test. by rewrite sets_store_touch, sets_at_touch. Qed.

(** ** Ordinals *)

(** [m'] holds the ordinals of [m], and possibly sets [operator[]] created
    with the ordinal [0] of [testset()]. *)
Definition ord_ext (m m' : KernelTestMgr) : Prop :=
  kernelsets m' = kernelsets m /\ next_set m' = next_set m /\
  forall s, ordinal_of m' s = ordinal_of m s \/
            (ordinal_of m s = None /\ ordinal_of m' s = Some 0).

(** [m'] is [m] after the set [s0] got the next ordinal. *)
Definition ord_new (s0 : string) (m m' : KernelTestMgr) : Prop :=
  (s0 ∉ kernelsets m) /\ kernelsets m' = {[s0]} ∪ kernelsets m /\
  next_set m' = int_add (next_set m) 1 /\
  ordinal_of m' s0 = Some (next_set m) /\
  forall s, s <> s0 ->
            ordinal_of m' s = ordinal_of m s \/
            (ordinal_of m s = None /\ ordinal_of m' s = Some 0).

Lemma ord_ext_refl (m : KernelTestMgr) : ord_ext m m.
Proof. repeat split. auto. Qed.

Lemma ord_ext_trans (m1 m2 m3 : KernelTestMgr) :
  ord_ext m1 m2 -> ord_ext m2 m3 -> ord_ext m1 m3.
Proof.
  intros (Hk1 & Hn1 & Ho1) (Hk2 & Hn2 & Ho2).
  repeat split; [congruence|congruence|].
  intros s. destruct (Ho1 s) as [E1|[E1 E1']], (Ho2 s) as [E2|[E2 E2']];
    [left; congruence|right; split; congruence|right; split; congruence|congruence].
Qed.

Lemma ord_new_ext (s0 : string) (m1 m2 m3 : KernelTestMgr) :
  ord_new s0 m1 m2 -> ord_ext m2 m3 -> ord_new s0 m1 m3.
Proof.
  intros (Hnot & Hk1 & Hn1 & Hs0 & Ho1) (Hk2 & Hn2 & Ho2).
  repeat split; [done|congruence|congruence| |].
  - destruct (Ho2 s0) as [E|[E _]]; congruence.
  - intros s Hs. destruct (Ho1 s Hs) as [E1|[E1 E1']], (Ho2 s) as [E2|[E2 E2']];
      [left; congruence|right; split; congruence|right; split; congruence|congruence].
Qed.

Lemma ord_ext_sets_unchanged (m m' : KernelTestMgr) :
  sets m' = sets m -> kernelsets m' = kernelsets m -> next_set m' = next_set m ->
  ord_ext m m'.
Proof. intros Hs Hk Hn. repeat split; [done..|]. intros s. left. unfold ordinal_of. by rewrite Hs. Qed.

Lemma ord_ext_store (m : KernelTestMgr) (s : string) (ts : testset) :
  setnum ts = setnum (sets_at m s) -> ord_ext m (sets_store m s ts).
Proof.
  intros Hnum. repeat split. intros s'. unfold ordinal_of, sets_store. simpl.
  destruct (decide (s = s')) as [<-|Hne].
  - rewrite lookup_insert_eq. simpl. rewrite Hnum. unfold sets_at.
    destruct (sets m !! s); simpl; auto.
  - rewrite lookup_insert_ne by done. auto.
Qed.

Lemma ord_ext_touch (m : KernelTestMgr) (s : string) : ord_ext m (sets_touch m s).
Proof.
  unfold sets_touch. destruct (sets m !! s) eqn:E; [apply ord_ext_refl|].
  change (set_sets m (<[s:=new_testset]> (sets m))) with (sets_store m s new_testset).
  apply ord_ext_store. unfold sets_at. by rewrite E.
Qed.

Lemma ord_ext_lookup_test (m : KernelTestMgr) (s t : string) :
  ord_ext m (lookup_test m s t).1.
Proof.
  rewrite lookup_test_eq. simpl. apply ord_ext_store, setnum_tests_touch.
Qed.

Lemma ord_ext_add_wrapper (m : KernelTestMgr) (s t : string) (tcb : option test_cb) :
  ord_ext m (add_wrapper m s t tcb).
Proof.
  unfold add_wrapper. rewrite sets_at_touch.
  destruct (tests_at _ t); rewrite sets_store_touch;
    apply ord_ext_store; simpl; apply setnum_tests_touch.
Qed.

Lemma ord_ext_find_test_loop (fuel : nat) : forall m s t pctx pos m' ctx kt,
  find_test_loop fuel m s t pctx pos = Returns (m', ctx, kt) -> ord_ext m m'.
Proof.
  induction fuel as [|fuel IH]; intros m s t pctx pos m' ctx kt;
    cbn [find_test_loop]; [done|].
  destruct (0 <=? pos); [|intros H; simplify_eq; apply ord_ext_refl].
  destruct (substr t 0 pos) as [tname|]; [|done].
  destruct (substr t (size_wrap (pos + 1)) npos) as [c|]; [|done].
  pose proof (ord_ext_lookup_test m s tname) as Hl.
  destruct (lookup_test m s tname) as [m1 [k|]]; simpl in Hl.
  - intros H. by simplify_eq.
  - intros H. eapply ord_ext_trans; [exact Hl|]. eapply IH, H.
Qed.

Lemma ord_ext_find_test (fuel : nat) (m : KernelTestMgr) (s t pctx : string) m' ctx kt :
  find_test fuel m s t pctx = Returns (m', ctx, kt) -> ord_ext m m'.
Proof.
  unfold find_test.
  pose proof (ord_ext_lookup_test m s t) as Hl.
  destruct (lookup_test m s t) as [m1 [k|]]; simpl in Hl.
  - intros Hret. by simplify_eq.
  - case_bool_decide.
    + intros Hret. by simplify_eq.
    + intros Hret. eapply ord_ext_trans; [exact Hl|].
      eapply ord_ext_find_test_loop, Hret.
Qed.

Lemma ord_ext_get_contexts (m : KernelTestMgr) (id : Z) :
  ord_ext m (get_contexts m id).1.
Proof.
  unfold get_contexts. destruct (handle_to_ctxvec m !! id); simpl;
    [apply ord_ext_refl|by apply ord_ext_sets_unchanged].
Qed.

Lemma sets_get_contexts (m : KernelTestMgr) (id : Z) :
  sets (get_contexts m id).1 = sets m.
Proof. unfold get_contexts. by destruct (handle_to_ctxvec m !! id). Qed.

(** [find_add_set] on a name it has seen changes no ordinal; on a new name
    it assigns the next one. *)
Lemma find_add_set_ord (m : KernelTestMgr) (s : string) :
  (s ∈ kernelsets m /\ ord_ext m (find_add_set m s)) \/
  ord_new s m (find_add_set m s).
Proof.
  unfold find_add_set. destruct (decide (s ∈ kernelsets m)) as [Hin|Hnot].
  - left. split; [done|]. rewrite bool_decide_eq_false_2 by auto.
    apply ord_ext_touch.
  - right. rewrite bool_decide_eq_true_2 by done.
    rewrite sets_store_touch, sets_at_touch, next_set_touch.
    split; [done|]. split; [reflexivity|]. split; [reflexivity|]. split.
    + unfold ordinal_of. simpl. by rewrite lookup_insert_eq.
    + intros s' Hne. left. unfold ordinal_of. simpl. by rewrite lookup_insert_ne.
Qed.

Lemma find_add_test_ord (m : KernelTestMgr) (s t : string) :
  (s ∈ kernelsets m /\ ord_ext m (find_add_test m s t)) \/
  ord_new s m (find_add_test m s t).
Proof.
  unfold find_add_test.
  assert (ord_ext (find_add_set m s)
            (set_mgr_test_names (find_add_set m s)
               (mgr_test_names (find_add_set m s) ++ [t]))) as Hext
    by (by apply ord_ext_sets_unchanged).
  destruct (find_add_set_ord m s) as [[Hin H]|H].
  - left. split; [done|]. eapply ord_ext_trans; eauto.
  - right. eapply ord_new_ext; eauto.
Qed.

Lemma add_test_ord (m : KernelTestMgr) (s t : string) (hid : Z) :
  (s ∈ kernelsets m /\ ord_ext m (add_test m s t hid)) \/
  ord_new s m (add_test m s t hid).
Proof.
  unfold add_test, KernelTest_ctor.
  set (m1 := find_add_test m s t).
  assert (exists m2 names, ord_ext m1 m2 /\ sets m2 = sets m1 /\
            (if hid =? 0 then (m1, [t])
             else let '(m', ctxv) := get_contexts m1 hid in
                  (m', List.map (fun c => t +:+ "_" +:+ c) ctxv)) = (m2, names))
    as (m2 & names & Hext & Hsets & ->).
  { destruct (hid =? 0).
    - exists m1, [t]. split; [apply ord_ext_refl|done].
    - pose proof (ord_ext_get_contexts m1 hid) as H.
      pose proof (sets_get_contexts m1 hid) as H'.
      destruct (get_contexts m1 hid) as [m' ctxv]. simpl in *. eauto. }
  assert (forall ts, setnum ts = setnum (sets_at m1 s) -> ord_ext m1 (sets_store m2 s ts))
    as Hstore.
  { intros ts Hts. eapply ord_ext_trans; [exact Hext|].
    apply ord_ext_store. rewrite Hts. unfold sets_at. by rewrite Hsets. }
  assert (ord_ext m1
    (let '(this1, wrapper1) :=
       match wrapper (sets_at m1 s) !! t with
       | Some hit =>
           (set_user_test
              {| kt_setname := s; kt_testname := t; kt_setnum := setnum (sets_at m1 s);
                 kt_testnum := Z.of_nat (size (<[t:=None]> (tests (sets_at m1 s))));
                 user_priv := None; user_priv_sz := 0; user_test := None;
                 kt_file := None; kt_line := -1; kt_name := s +:+ "." +:+ t |} hit,
            delete t (wrapper (sets_at m1 s)))
       | None =>
           ({| kt_setname := s; kt_testname := t; kt_setnum := setnum (sets_at m1 s);
               kt_testnum := Z.of_nat (size (<[t:=None]> (tests (sets_at m1 s))));
               user_priv := None; user_priv_sz := 0; user_test := None;
               kt_file := None; kt_line := -1; kt_name := s +:+ "." +:+ t |},
            wrapper (sets_at m1 s))
       end in
     sets_store m2 s
       {| tests := <[t:=Some this1]> (<[t:=None]> (tests (sets_at m1 s)));
          test_names := test_names (sets_at m1 s) ++ names;
          wrapper := wrapper1; setnum := setnum (sets_at m1 s) |})) as Hfin.
  { destruct (wrapper (sets_at m1 s) !! t); by apply Hstore. }
  destruct (find_add_test_ord m s t) as [[Hin H]|H].
  - left. split; [done|]. eapply ord_ext_trans; [exact H|exact Hfin].
  - right. eapply ord_new_ext; [exact H|exact Hfin].
Qed.

(** ** The invariant on ordinals *)

Definition ordinals_kept (m m' : KernelTestMgr) : Prop :=
  forall s, s ∈ kernelsets m ->
    s ∈ kernelsets m' /\ ordinal_of m' s = ordinal_of m s.

Definition ordinals_fresh (m m' : KernelTestMgr) : Prop :=
  forall s, s ∈ kernelsets m' -> s ∉ kernelsets m ->
    ordinal_of m' s = Some (next_set m) /\ next_set m' = next_set m + 1.

Lemma ordinals_ok_new_mgr : ordinals_ok new_mgr.
Proof.
  split.
  - simpl. unfold INT_MAX. lia.
  - intros s Hs. simpl in Hs. by apply not_elem_of_empty in Hs.
  - intros s1 s2 n Hs. simpl in Hs. by apply not_elem_of_empty in Hs.
  - intros s n _. unfold ordinal_of. simpl. by rewrite lookup_empty.
Qed.

Lemma ordinals_ok_ext (m m' : KernelTestMgr) :
  ordinals_ok m -> ord_ext m m' ->
  ordinals_ok m' /\ ordinals_kept m m' /\ ordinals_fresh m m'.
Proof.
  intros [Hn Ha Hd H0] (Hk & Hnext & Ho).
  assert (Hsame : forall s, s ∈ kernelsets m -> ordinal_of m' s = ordinal_of m s).
  { intros s Hs. destruct (Ho s) as [E|[E _]]; [done|].
    destruct (Ha s Hs) as (n & En & _). congruence. }
  split; [split|split].
  - by rewrite Hnext.
  - intros s Hs. rewrite Hk in Hs. rewrite Hnext, (Hsame s Hs). by apply Ha.
  - intros s1 s2 n H1 H2. rewrite Hk in H1, H2.
    rewrite (Hsame s1 H1), (Hsame s2 H2). by apply Hd.
  - intros s n Hs Hn'. rewrite Hk in Hs.
    destruct (Ho s) as [E|[_ E]]; [|congruence].
    rewrite E in Hn'. by apply (H0 s).
  - intros s Hs. rewrite Hk. auto.
  - intros s Hs Hnot. by rewrite Hk in Hs.
Qed.

Lemma int_add_1 (n : Z) : 0 <= n < INT_MAX -> int_add n 1 = n + 1.
Proof. unfold INT_MAX. intros H. apply to_int_small. lia. Qed.

Lemma ordinals_ok_new (s0 : string) (m m' : KernelTestMgr) :
  ordinals_ok m -> next_set m < INT_MAX -> ord_new s0 m m' ->
  ordinals_ok m' /\ ordinals_kept m m' /\ ordinals_fresh m m'.
Proof.
  intros [Hn Ha Hd H0] Hlt (Hnot & Hk & Hnext & Hs0 & Ho).
  rewrite int_add_1 in Hnext by lia.
  assert (Hsame : forall s, s ∈ kernelsets m -> ordinal_of m' s = ordinal_of m s).
  { intros s Hs. assert (s <> s0) as Hne by (intros ->; done).
    destruct (Ho s Hne) as [E|[E _]]; [done|].
    destruct (Ha s Hs) as (n & En & _). congruence. }
  assert (Hcases : forall s, s ∈ kernelsets m' -> s = s0 \/ s ∈ kernelsets m).
  { intros s. rewrite Hk, elem_of_union, elem_of_singleton. tauto. }
  split; [split|split].
  - lia.
  - intros s Hs. destruct (Hcases s Hs) as [->|Hin].
    + exists (next_set m). split; [done|lia].
    + destruct (Ha s Hin) as (n & En & Hb). exists n.
      rewrite (Hsame s Hin). split; [done|lia].
  - intros s1 s2 n H1 H2 E1 E2.
    destruct (Hcases s1 H1) as [->|Hin1], (Hcases s2 H2) as [->|Hin2]; [done| | |].
    + rewrite (Hsame s2 Hin2) in E2. destruct (Ha s2 Hin2) as (n2 & En2 & Hb).
      assert (n = next_set m) by congruence. assert (n = n2) by congruence. lia.
    + rewrite (Hsame s1 Hin1) in E1. destruct (Ha s1 Hin1) as (n1 & En1 & Hb).
      assert (n = next_set m) by congruence. assert (n = n1) by congruence. lia.
    + rewrite (Hsame s1 Hin1) in E1. rewrite (Hsame s2 Hin2) in E2. eapply Hd; eauto.
  - intros s n Hs Hn'.
    rewrite Hk, elem_of_union, elem_of_singleton in Hs.
    assert (s <> s0) as Hne by tauto.
    assert (s ∉ kernelsets m) as Hs' by tauto.
    destruct (Ho s Hne) as [E|[_ E]]; [|congruence].
    rewrite E in Hn'. by apply (H0 s).
  - intros s Hs. split; [|by apply Hsame].
    rewrite Hk, elem_of_union. tauto.
  - intros s Hs Hnot'. destruct (Hcases s Hs) as [->|Hin]; [done|]. done.
Qed.

Lemma ordinals_ok_step (s0 : string) (m m' : KernelTestMgr) :
  ordinals_ok m -> next_set m < INT_MAX ->
  (s0 ∈ kernelsets m /\ ord_ext m m') \/ ord_new s0 m m' ->
  ordinals_ok m' /\ ordinals_kept m m' /\ ordinals_fresh m m'.
Proof.
  intros Hok Hlt [[_ H]|H]; eauto using ordinals_ok_ext, ordinals_ok_new.
Qed.

(** A second [find_add_set] of a name returns the set with the ordinal the
    first one left. *)
Lemma find_add_set_twice (m : KernelTestMgr) (s : string) :
  setnum (sets_at (find_add_set (find_add_set m s) s) s)
  = setnum (sets_at (find_add_set m s) s).
Proof.
  assert (s ∈ kernelsets (find_add_set m s)) as Hin.
  { unfold find_add_set. case_bool_decide as Hn; simpl.
    - rewrite kernelsets_touch. simpl.
      rewrite elem_of_union, elem_of_singleton. tauto.
    - by rewrite kernelsets_touch. }
  unfold find_add_set at 1. rewrite bool_decide_eq_false_2 by auto.
  by rewrite sets_at_touch.
Qed.

(** What an operation does to the ordinals. *)
Lemma apply_op_ord (op : registry_op) (m m' : KernelTestMgr) :
  apply_op op m = Some m' -> ord_ext m m' \/ exists s, ord_new s m m'.
Proof.
  intros Hop.
  assert (forall s, (s ∈ kernelsets m /\ ord_ext m m') \/ ord_new s m m' ->
                    ord_ext m m' \/ exists s, ord_new s m m') as Hstep
    by (intros s [[_ ?]|?]; eauto).
  destruct op as [s|s t|s t hid|s t tcb|fuel s t pctx|hid ctxs|ctx ty hid st|ews];
    simpl in Hop.
  - injection Hop as <-. apply (Hstep s), find_add_set_ord.
  - injection Hop as <-. apply (Hstep s), find_add_test_ord.
  - injection Hop as <-. apply (Hstep s), add_test_ord.
  - injection Hop as <-. left. apply ord_ext_add_wrapper.
  - destruct (find_test fuel m s t pctx) as [[[m1 ctx] kt]| |] eqn:E; try done.
    injection Hop as <-. left. eapply ord_ext_find_test; eauto.
  - injection Hop as <-. left. by apply ord_ext_sets_unchanged.
  - injection Hop as <-. left. by apply ord_ext_sets_unchanged.
  - injection Hop as <-. left.
    unfold get_test_names. destruct (skip_loop _ _) as [[|e rest] diag];
      by apply ord_ext_sets_unchanged.
Qed.

(** The invariant holds in every registry reached from the empty one, as
    long as the [int] counter [next_set] cannot have overflowed. *)
Lemma apply_ops_ordinals_ok (ops : list registry_op) : forall m m',
  ordinals_ok m -> next_set m + Z.of_nat (length ops) <= INT_MAX ->
  apply_ops ops m = Some m' ->
  ordinals_ok m' /\ next_set m' <= next_set m + Z.of_nat (length ops).
Proof.
  induction ops as [|op ops IH]; intros m m' Hok Hlen; simpl.
  - intros [= <-]. split; [done|lia].
  - destruct (apply_op op m) as [m1|] eqn:Hop; [|done]. intros Hrun.
    simpl length in Hlen.
    assert (ordinals_ok m1 /\ next_set m1 <= next_set m + 1) as [Hok1 Hn1].
    { destruct (apply_op_ord op m m1 Hop) as [Hext|[s Hnew]].
      - split; [by eapply ordinals_ok_ext|]. destruct Hext as (_ & -> & _). lia.
      - split; [eapply ordinals_ok_new; eauto; lia|].
        destruct Hnew as (_ & _ & -> & _).
        rewrite int_add_1; [lia|]. destruct Hok. lia. }
    destruct (IH m1 m' Hok1) as [Hok' Hn']; [lia|done|].
    split; [done|]. simpl length. lia.
Qed.

(** ** add_wrapper and the constructor in closed form *)

Lemma tests_touch_None (ts : testset) (t : string) :
  tests_at ts t = None ->
  tests (tests_touch ts t) = <[t := None]> (tests ts).
Proof.
  unfold tests_at, tests_touch. destruct (tests ts !! t) as [[kt|]|] eqn:E; simpl;
    [done| |done].
  intros _. by rewrite insert_id.
Qed.

Lemma tests_touch_Some (ts : testset) (t : string) (kt : KernelTest) :
  tests_at ts t = Some kt -> tests_touch ts t = ts.
Proof.
  unfold tests_at, tests_touch. by destruct (tests ts !! t) as [[?|]|].
Qed.

Lemma tests_touch_fields (ts : testset) (t : string) :
  test_names (tests_touch ts t) = test_names ts /\
  wrapper (tests_touch ts t) = wrapper ts /\
  setnum (tests_touch ts t) = setnum ts.
Proof. unfold tests_touch. by destruct (tests ts !! t). Qed.

Lemma sets_touch_eq (m : KernelTestMgr) (s : string) :
  sets_touch m s = set_sets m (<[s := sets_at m s]> (sets m)).
Proof.
  unfold sets_touch, sets_at. destruct (sets m !! s) eqn:E; simpl; [|done].
  rewrite insert_id by done. by destruct m.
Qed.

(** The set [add_wrapper] leaves under [setname]. *)
Definition add_wrapper_set (ts : testset) (testname : string) (tcb : option test_cb)
  : testset :=
  match tests_at ts testname with
  | Some kt =>
      set_tests ts (<[testname := Some (set_user_test kt tcb)]> (tests ts))
  | None =>
      {| tests := <[testname := None]> (tests ts); test_names := test_names ts;
         wrapper := <[testname := tcb]> (wrapper ts); setnum := setnum ts |}
  end.

Lemma add_wrapper_eq (m : KernelTestMgr) (s t : string) (tcb : option test_cb) :
  add_wrapper m s t tcb = sets_store m s (add_wrapper_set (sets_at m s) t tcb).
Proof.
  unfold add_wrapper, add_wrapper_set.
  rewrite sets_at_touch, tests_at_touch.
  destruct (tests_at (sets_at m s) t) as [kt|] eqn:E; rewrite sets_store_touch.
  - by rewrite (tests_touch_Some _ _ _ E).
  - f_equal. unfold set_wrapper.
    destruct (tests_touch_fields (sets_at m s) t) as (-> & -> & ->).
    by rewrite tests_touch_None.
Qed.

(** The names a test contributes to the list of its set. *)
Definition expanded_names (m : KernelTestMgr) (tn : string) (handle_id : Z) : stringvec :=
  if handle_id =? 0 then [tn]
  else List.map (fun c => tn +:+ "_" +:+ c) (default [] (handle_to_ctxvec m !! handle_id)).

(** The object the constructor builds. *)
Definition built_test (m : KernelTestMgr) (sn tn : string) : KernelTest :=
  let ts := sets_at m sn in
  {| kt_setname := sn; kt_testname := tn;
     kt_setnum := if bool_decide (sn ∉ kernelsets m) then next_set m else setnum ts;
     kt_testnum := Z.of_nat (size (<[tn := None]> (tests ts)));
     user_priv := None; user_priv_sz := 0;
     user_test := default None (wrapper ts !! tn);
     kt_file := None; kt_line := -1; kt_name := sn +:+ "." +:+ tn |}.

(** The set the constructor leaves under [sn]. *)
Definition built_set (m : KernelTestMgr) (sn tn : string) (handle_id : Z) : testset :=
  let ts := sets_at m sn in
  {| tests := <[tn := Some (built_test m sn tn)]> (tests ts);
     test_names := test_names ts ++ expanded_names m tn handle_id;
     wrapper := delete tn (wrapper ts);
     setnum := if bool_decide (sn ∉ kernelsets m) then next_set m else setnum ts |}.

Lemma add_test_eq (m : KernelTestMgr) (s t : string) (hid : Z) :
  add_test m s t hid =
  let new_set := bool_decide (s ∉ kernelsets m) in
  {| sets := <[s := built_set m s t hid]> (sets m);
     mgr_test_names := mgr_test_names m ++ [t];
     set_names := if new_set then set_names m ++ [s] else set_names m;
     kernelsets := if new_set then {[s]} ∪ kernelsets m else kernelsets m;
     handle_to_ctxvec :=
       if hid =? 0 then handle_to_ctxvec m
       else match handle_to_ctxvec m !! hid with
            | Some _ => handle_to_ctxvec m
            | None => <[hid := []]> (handle_to_ctxvec m)
            end;
     cfg_contexts := cfg_contexts m;
     next_set := if new_set then int_add (next_set m) 1 else next_set m;
     cur := cur m |}.
Proof.
  unfold add_test, KernelTest_ctor, find_add_test, find_add_set, built_set,
    built_test, expanded_names, get_contexts.
  destruct (bool_decide (s ∉ kernelsets m)) eqn:Enew.
  - rewrite sets_store_touch, sets_at_touch, next_set_touch.
    unfold sets_store, sets_at. simpl. rewrite !lookup_insert_eq. simpl.
    change (default new_testset (sets m !! s)) with (sets_at m s).
    destruct (hid =? 0); [|destruct (handle_to_ctxvec m !! hid)];
      destruct (wrapper (sets_at m s) !! t) eqn:Ew; simpl;
      unfold set_sets; simpl; rewrite ?insert_insert_eq, ?(delete_id _ _ Ew); reflexivity.
  - rewrite (sets_touch_eq m s).
    unfold sets_store, sets_at. simpl. rewrite !lookup_insert_eq. simpl.
    change (default new_testset (sets m !! s)) with (sets_at m s).
    destruct (hid =? 0); [|destruct (handle_to_ctxvec m !! hid)];
      destruct (wrapper (sets_at m s) !! t) eqn:Ew; simpl;
      unfold set_sets; simpl; rewrite ?insert_insert_eq, ?(delete_id _ _ Ew); reflexivity.
Qed.

Lemma sets_at_add_test (m : KernelTestMgr) (s t : string) (hid : Z) :
  sets_at (add_test m s t hid) s = built_set m s t hid.
Proof.
  rewrite add_test_eq. cbv zeta. unfold sets_at at 1. cbn [sets].
  by rewrite lookup_insert_eq.
Qed.

Lemma add_wrapper_set_new (ts : testset) (t : string) (tcb : option test_cb) :
  tests_at ts t = None ->
  add_wrapper_set ts t tcb
  = {| tests := <[t := None]> (tests ts); test_names := test_names ts;
       wrapper := <[t := tcb]> (wrapper ts); setnum := setnum ts |}.
Proof. unfold add_wrapper_set. by intros ->. Qed.

Lemma tests_at_built_set (m : KernelTestMgr) (s t : string) (hid : Z) :
  tests_at (built_set m s t hid) t = Some (built_test m s t).
Proof. unfold tests_at, built_set. cbn [tests]. by rewrite lookup_insert_eq. Qed.

(** ** find_test *)

Lemma substring_full (s : string) : substring 0 (String.length s) s = s.
Proof. induction s as [|a s IH]; simpl; [done|]. by rewrite IH. Qed.

(** [substr(0, npos)] is the whole string. *)
Lemma substr_whole (s : string) :
  Z.of_nat (String.length s) <= SIZE_MAX -> substr s 0 npos = Some s.
Proof.
  intros Hlen. unfold substr.
  destruct (Z.ltb_spec (Z.of_nat (String.length s)) 0) as [H|_]; [lia|].
  unfold npos. rewrite Z.min_r by lia.
  rewrite Z.sub_0_r, Nat2Z.id. simpl. by rewrite substring_full.
Qed.

Lemma size_wrap_npos_succ : size_wrap (npos + 1) = 0.
Proof. reflexivity. Qed.

Lemma tests_touch_idem (ts : testset) (t : string) :
  tests_touch (tests_touch ts t) t = tests_touch ts t.
Proof.
  unfold tests_touch at 1. destruct (tests (tests_touch ts t) !! t) eqn:E; [done|].
  exfalso. unfold tests_touch in E. destruct (tests ts !! t) eqn:E'; simpl in E.
  - congruence.
  - by rewrite lookup_insert_eq in E.
Qed.

(** A second lookup of a name changes nothing. *)
Lemma lookup_test_again (m : KernelTestMgr) (s t : string) :
  lookup_test (lookup_test m s t).1 s t = lookup_test m s t.
Proof.
  rewrite !lookup_test_eq. simpl. rewrite sets_at_store, tests_touch_idem, tests_at_touch.
  f_equal. unfold sets_store, set_sets. simpl. by rewrite insert_insert_eq.
Qed.

(** Once [pos] is [npos] the loop asks for the whole name again, fails, and
    gets [npos] again: it never leaves. *)
Lemma find_test_loop_npos (m : KernelTestMgr) (s t : string) :
  tests_at (sets_at m s) t = None ->
  rfind_char "_" t = None ->
  Z.of_nat (String.length t) <= SIZE_MAX ->
  forall (fuel : nat) (pctx : string),
    find_test_loop fuel (lookup_test m s t).1 s t pctx npos = OutOfFuel.
Proof.
  intros Hnone Hus Hlen fuel. induction fuel as [|fuel IH]; intros pctx; [done|].
  cbn [find_test_loop].
  change (0 <=? npos) with true. cbn iota.
  rewrite size_wrap_npos_succ, substr_whole by done.
  rewrite lookup_test_again.
  rewrite (lookup_test_eq m s t) at 1. rewrite Hnone.
  unfold find_last_of. rewrite Hus.
  rewrite lookup_test_eq in IH. apply IH.
Qed.

(** ** What a direct lookup reads *)

Lemma set_sets_id (m : KernelTestMgr) : set_sets m (sets m) = m.
Proof. by destruct m. Qed.

Lemma set_tests_id (ts : testset) : set_tests ts (tests ts) = ts.
Proof. by destruct ts. Qed.

Lemma test_at_store (m : KernelTestMgr) (s s' t' : string) (ts : testset) :
  test_at (sets_store m s ts) s' t'
  = if decide (s = s') then tests_at ts t' else test_at m s' t'.
Proof.
  unfold test_at, sets_at, sets_store. cbn [sets set_sets].
  destruct (decide (s = s')) as [->|Hne].
  - by rewrite lookup_insert_eq.
  - by rewrite lookup_insert_ne.
Qed.

Lemma test_at_lookup_test (m : KernelTestMgr) (s t s' t' : string) :
  test_at (lookup_test m s t).1 s' t' = test_at m s' t'.
Proof.
  rewrite lookup_test_eq. cbn [fst]. rewrite test_at_store.
  destruct (decide (s = s')) as [->|Hne]; [|done].
  by rewrite tests_at_touch.
Qed.

Lemma lookup_test_snd (m : KernelTestMgr) (s t : string) :
  (lookup_test m s t).2 = test_at m s t.
Proof. by rewrite lookup_test_eq. Qed.

Lemma handle_to_ctxvec_lookup_test (m : KernelTestMgr) (s t : string) :
  handle_to_ctxvec (lookup_test m s t).1 = handle_to_ctxvec m.
Proof. by rewrite lookup_test_eq. Qed.

(** A lookup that finds the test leaves the registry as it is. *)
Lemma lookup_test_found (m : KernelTestMgr) (s t : string) (kt : KernelTest) :
  test_at m s t = Some kt -> lookup_test m s t = (m, Some kt).
Proof.
  intros Hkt. rewrite lookup_test_eq. unfold test_at in Hkt. rewrite Hkt. f_equal.
  rewrite (tests_touch_Some _ _ _ Hkt).
  unfold sets_store, sets_at in *.
  destruct (sets m !! s) as [ts|] eqn:E.
  - cbn [default from_option id]. rewrite insert_id by done. apply set_sets_id.
  - cbn [default from_option id] in Hkt. unfold tests_at in Hkt. simpl in Hkt.
    by rewrite lookup_empty in Hkt.
Qed.

Lemma test_at_find_test_loop (fuel : nat) : forall m s t pctx pos m' ctx kt,
  find_test_loop fuel m s t pctx pos = Returns (m', ctx, kt) ->
  forall s' t', test_at m' s' t' = test_at m s' t'.
Proof.
  induction fuel as [|fuel IH]; intros m s t pctx pos m' ctx kt;
    cbn [find_test_loop]; [done|].
  destruct (0 <=? pos); [|intros Hr; by simplify_eq].
  destruct (substr t 0 pos) as [tname|]; [|done].
  destruct (substr t (size_wrap (pos + 1)) npos) as [c|]; [|done].
  pose proof (test_at_lookup_test m s tname) as Hl.
  destruct (lookup_test m s tname) as [m1 [k|]]; cbn [fst] in Hl.
  - intros Hr. by simplify_eq.
  - intros Hr s' t'. rewrite <- Hl. eapply IH, Hr.
Qed.

Lemma test_at_find_test (fuel : nat) (m : KernelTestMgr) (s t pctx : string)
    (m' : KernelTestMgr) (ctx : string) (kt : option KernelTest) :
  find_test fuel m s t pctx = Returns (m', ctx, kt) ->
  forall s' t', test_at m' s' t' = test_at m s' t'.
Proof.
  unfold find_test.
  pose proof (test_at_lookup_test m s t) as Hl.
  destruct (lookup_test m s t) as [m1 [k|]]; cbn [fst] in Hl.
  - intros Hr. by simplify_eq.
  - case_bool_decide.
    + intros Hr. by simplify_eq.
    + intros Hr s' t'. rewrite <- Hl. eapply test_at_find_test_loop, Hr.
Qed.

Lemma test_at_find_add_set (m : KernelTestMgr) (s s' t' : string) :
  test_at (find_add_set m s) s' t' = test_at m s' t'.
Proof.
  unfold find_add_set. destruct (bool_decide (s ∉ kernelsets m)).
  - rewrite sets_store_touch, sets_at_touch.
    unfold test_at, sets_at, sets_store. cbn [sets set_sets set_next_set
      set_set_names set_kernelsets].
    destruct (decide (s = s')) as [->|Hne].
    + by rewrite lookup_insert_eq.
    + by rewrite lookup_insert_ne.
  - unfold test_at. by rewrite sets_at_touch.
Qed.

Lemma test_at_find_add_test (m : KernelTestMgr) (s t s' t' : string) :
  test_at (find_add_test m s t) s' t' = test_at m s' t'.
Proof. unfold find_add_test. apply test_at_find_add_set. Qed.

Lemma test_at_add_test (m : KernelTestMgr) (s t s' t' : string) (hid : Z) :
  test_at (add_test m s t hid) s' t'
  = if decide (s = s' /\ t = t') then Some (built_test m s t) else test_at m s' t'.
Proof.
  rewrite add_test_eq. cbv zeta. unfold test_at at 1, sets_at at 1. cbn [sets].
  destruct (decide (s = s')) as [->|Hne].
  - rewrite lookup_insert_eq. cbn [default from_option id].
    unfold tests_at, built_set. cbn [tests].
    destruct (decide (t = t')) as [->|Hne'].
    + rewrite lookup_insert_eq. by rewrite decide_True.
    + rewrite lookup_insert_ne by done. rewrite decide_False by tauto. done.
  - rewrite lookup_insert_ne by done. rewrite decide_False by tauto. done.
Qed.

Lemma test_at_add_wrapper (m : KernelTestMgr) (s t s' t' : string) (tcb : option test_cb) :
  test_at (add_wrapper m s t tcb) s' t'
  = if decide (s = s' /\ t = t')
    then (fun kt => set_user_test kt tcb) <$> test_at m s t
    else test_at m s' t'.
Proof.
  rewrite add_wrapper_eq, test_at_store.
  destruct (decide (s = s')) as [->|Hne]; [|by rewrite decide_False by tauto].
  unfold add_wrapper_set, test_at.
  destruct (tests_at (sets_at m s') t) as [kt|] eqn:E.
  - unfold tests_at. cbn [tests set_tests].
    destruct (decide (t = t')) as [->|Hne'].
    + rewrite lookup_insert_eq, decide_True by done. done.
    + rewrite lookup_insert_ne by done. by rewrite decide_False by tauto.
  - unfold tests_at in *. cbn [tests].
    destruct (decide (t = t')) as [->|Hne'].
    + rewrite lookup_insert_eq, decide_True by done. done.
    + rewrite lookup_insert_ne by done. by rewrite decide_False by tauto.
Qed.

Lemma test_at_sets_eq (m m' : KernelTestMgr) (s t : string) :
  sets m' = sets m -> test_at m' s t = test_at m s t.
Proof. unfold test_at, sets_at. by intros ->. Qed.

Lemma sets_get_test_names (ews : nat) (m : KernelTestMgr) :
  sets (get_test_names ews m).1.2 = sets m.
Proof.
  unfold get_test_names. by destruct (skip_loop _ _) as [[|e rest] diag].
Qed.

(** What an operation does to the pointer a direct lookup reads. *)
Lemma test_at_apply_op (op : registry_op) (m m' : KernelTestMgr) (s t : string) :
  apply_op op m = Some m' ->
  test_at m' s t =
    match op with
    | OpAddTest s0 t0 _ =>
        if decide (s0 = s /\ t0 = t) then Some (built_test m s0 t0) else test_at m s t
    | OpAddWrapper s0 t0 tcb =>
        if decide (s0 = s /\ t0 = t)
        then (fun kt => set_user_test kt tcb) <$> test_at m s0 t0
        else test_at m s t
    | _ => test_at m s t
    end.
Proof.
  destruct op as [s0|s0 t0|s0 t0 hid|s0 t0 tcb|fuel s0 t0 pctx|hid ctxs|ctx ty hid st|ews];
    cbn [apply_op]; intros Hop.
  - injection Hop as <-. apply test_at_find_add_set.
  - injection Hop as <-. apply test_at_find_add_test.
  - injection Hop as <-. apply test_at_add_test.
  - injection Hop as <-. apply test_at_add_wrapper.
  - destruct (find_test fuel m s0 t0 pctx) as [[[m1 ctx] kt]| |] eqn:E; try done.
    injection Hop as <-. eapply test_at_find_test, E.
  - injection Hop as <-. by apply test_at_sets_eq.
  - injection Hop as <-. by apply test_at_sets_eq.
  - injection Hop as <-. apply test_at_sets_eq, sets_get_test_names.
Qed.

(** ** set_names, kernelsets and next_set *)

Lemma sets_touch_present (m : KernelTestMgr) (s : string) :
  is_Some (sets m !! s) -> sets_touch m s = m.
Proof. unfold sets_touch. by intros [ts ->]. Qed.

Lemma find_add_set_present (m : KernelTestMgr) (s : string) :
  is_Some (sets (find_add_set m s) !! s).
Proof.
  unfold find_add_set. destruct (bool_decide (s ∉ kernelsets m)).
  - cbn [sets set_next_set sets_store set_sets]. by rewrite lookup_insert_eq.
  - unfold sets_touch. destruct (sets m !! s) eqn:E; [by rewrite E|].
    cbn [sets set_sets]. by rewrite lookup_insert_eq.
Qed.

Lemma find_add_set_member (m : KernelTestMgr) (s : string) :
  s ∈ kernelsets (find_add_set m s).
Proof.
  unfold find_add_set. case_bool_decide as Hn.
  - cbn [kernelsets set_next_set sets_store set_sets]. rewrite kernelsets_touch.
    cbn [kernelsets set_set_names set_kernelsets].
    rewrite elem_of_union, elem_of_singleton. tauto.
  - by rewrite kernelsets_touch.
Qed.

Lemma set_names_touch (m : KernelTestMgr) (s : string) :
  set_names (sets_touch m s) = set_names m.
Proof. unfold sets_touch. by destruct (sets m !! s). Qed.

Lemma set_names_lookup_test (m : KernelTestMgr) (s t : string) :
  set_names (lookup_test m s t).1 = set_names m.
Proof. by rewrite lookup_test_eq. Qed.

Lemma set_names_find_test_loop (fuel : nat) : forall m s t pctx pos m' ctx kt,
  find_test_loop fuel m s t pctx pos = Returns (m', ctx, kt) ->
  set_names m' = set_names m.
Proof.
  induction fuel as [|fuel IH]; intros m s t pctx pos m' ctx kt;
    cbn [find_test_loop]; [done|].
  destruct (0 <=? pos); [|intros Hr; by simplify_eq].
  destruct (substr t 0 pos) as [tname|]; [|done].
  destruct (substr t (size_wrap (pos + 1)) npos) as [c|]; [|done].
  pose proof (set_names_lookup_test m s tname) as Hl.
  destruct (lookup_test m s tname) as [m1 [k|]]; cbn [fst] in Hl.
  - intros Hr. by simplify_eq.
  - intros Hr. rewrite <- Hl. eapply IH, Hr.
Qed.

Lemma set_names_find_test (fuel : nat) (m : KernelTestMgr) (s t pctx : string)
    (m' : KernelTestMgr) (ctx : string) (kt : option KernelTest) :
  find_test fuel m s t pctx = Returns (m', ctx, kt) -> set_names m' = set_names m.
Proof.
  unfold find_test.
  pose proof (set_names_lookup_test m s t) as Hl.
  destruct (lookup_test m s t) as [m1 [k|]]; cbn [fst] in Hl.
  - intros Hr. by simplify_eq.
  - case_bool_decide.
    + intros Hr. by simplify_eq.
    + intros Hr. rewrite <- Hl. eapply set_names_find_test_loop, Hr.
Qed.

Lemma set_names_find_add_set (m : KernelTestMgr) (s : string) :
  set_names (find_add_set m s)
  = if bool_decide (s ∉ kernelsets m) then set_names m ++ [s] else set_names m.
Proof.
  unfold find_add_set. destruct (bool_decide (s ∉ kernelsets m)).
  - cbn [set_names set_next_set sets_store set_sets]. by rewrite set_names_touch.
  - apply set_names_touch.
Qed.

(** What an operation does to [set_names]. *)
Lemma set_names_apply_op (op : registry_op) (m m' : KernelTestMgr) :
  apply_op op m = Some m' ->
  (ord_ext m m' /\ set_names m' = set_names m) \/
  (exists s, ord_new s m m' /\ set_names m' = set_names m ++ [s]).
Proof.
  intros Hop.
  assert (forall s,
            set_names m' = (if bool_decide (s ∉ kernelsets m)
                            then set_names m ++ [s] else set_names m) ->
            (s ∈ kernelsets m /\ ord_ext m m') \/ ord_new s m m' ->
            (ord_ext m m' /\ set_names m' = set_names m) \/
            (exists s, ord_new s m m' /\ set_names m' = set_names m ++ [s])) as Hstep.
  { intros s Hn [[Hin Hext]|Hnew].
    - left. split; [done|]. by rewrite bool_decide_eq_false_2 in Hn by auto.
    - right. exists s. split; [done|]. destruct Hnew as [Hnot _].
      by rewrite bool_decide_eq_true_2 in Hn. }
  destruct op as [s|s t|s t hid|s t tcb|fuel s t pctx|hid ctxs|ctx ty hid st|ews];
    cbn [apply_op] in Hop.
  - injection Hop as <-. apply (Hstep s); [apply set_names_find_add_set|apply find_add_set_ord].
  - injection Hop as <-. apply (Hstep s); [|apply find_add_test_ord].
    unfold find_add_test. cbn [set_names set_mgr_test_names]. apply set_names_find_add_set.
  - injection Hop as <-. apply (Hstep s); [|apply add_test_ord].
    rewrite add_test_eq. reflexivity.
  - injection Hop as <-. left. split; [apply ord_ext_add_wrapper|].
    by rewrite add_wrapper_eq.
  - destruct (find_test fuel m s t pctx) as [[[m1 ctx] kt]| |] eqn:E; try done.
    injection Hop as <-. left. split; [eapply ord_ext_find_test, E|].
    eapply set_names_find_test, E.
  - injection Hop as <-. left. split; [by apply ord_ext_sets_unchanged|done].
  - injection Hop as <-. left. split; [by apply ord_ext_sets_unchanged|done].
  - injection Hop as <-. left.
    unfold get_test_names. destruct (skip_loop _ _) as [[|e rest] diag];
      (split; [by apply ord_ext_sets_unchanged|done]).
Qed.

Lemma names_ok_new_mgr : names_ok new_mgr.
Proof.
  split; unfold new_mgr; cbn [set_names kernelsets next_set length].
  - constructor.
  - intros s. split; intros H; [by apply elem_of_nil in H|by apply not_elem_of_empty in H].
  - done.
  - intros i s H. rewrite ?lookup_nil in H. done.
Qed.

Lemma names_ok_ext (m m' : KernelTestMgr) :
  names_ok m -> ord_ext m m' -> set_names m' = set_names m -> names_ok m'.
Proof.
  intros [Hnd Hmem Hnext Hidx] (Hk & Hn & Ho) Hnames.
  split; rewrite ?Hnames, ?Hk, ?Hn; [done..|].
  intros i s Hi. specialize (Hidx i s Hi).
  destruct (Ho s) as [E|[E _]]; congruence.
Qed.

Lemma names_ok_new (s0 : string) (m m' : KernelTestMgr) :
  names_ok m -> next_set m < INT_MAX -> ord_new s0 m m' ->
  set_names m' = set_names m ++ [s0] -> names_ok m'.
Proof.
  intros [Hnd Hmem Hnext Hidx] Hlt (Hnot & Hk & Hn & Hs0 & Ho) Hnames.
  assert (Hnotin : s0 ∉ set_names m) by (by rewrite Hmem).
  split; rewrite ?Hnames, ?Hk.
  - apply NoDup_app. split; [done|]. split; [|apply NoDup_singleton].
    intros x Hx Hx'. apply list_elem_of_singleton in Hx' as ->. done.
  - intros s. rewrite elem_of_app, list_elem_of_singleton, elem_of_union,
      elem_of_singleton, Hmem. tauto.
  - rewrite Hn, length_app. cbn [length]. rewrite int_add_1; [lia|].
    rewrite Hnext in Hlt |- *. lia.
  - intros i s Hi. apply lookup_app_Some in Hi as [Hi|[Hge Hi]].
    + assert (s <> s0) as Hne.
      { intros ->. apply Hnotin. eapply list_elem_of_lookup_2, Hi. }
      specialize (Hidx i s Hi).
      destruct (Ho s Hne) as [E|[E _]]; congruence.
    + apply list_lookup_singleton_Some in Hi as [Hi ->].
      rewrite Hs0, Hnext. do 2 f_equal. lia.
Qed.

Lemma names_ok_apply_op (op : registry_op) (m m' : KernelTestMgr) :
  names_ok m -> next_set m < INT_MAX -> apply_op op m = Some m' ->
  names_ok m' /\ next_set m' <= next_set m + 1.
Proof.
  intros Hok Hlt Hop.
  destruct (set_names_apply_op op m m' Hop) as [[Hext Hn]|(s & Hnew & Hn)].
  - split; [by eapply names_ok_ext|]. destruct Hext as (_ & -> & _). lia.
  - split; [by eapply names_ok_new|].
    destruct Hnew as (_ & _ & -> & _). rewrite int_add_1; [lia|].
    destruct Hok as [_ _ Hnext _]. lia.
Qed.

Lemma names_ok_apply_ops (ops : list registry_op) : forall m m',
  names_ok m -> next_set m + Z.of_nat (length ops) <= INT_MAX ->
  apply_ops ops m = Some m' ->
  names_ok m' /\ next_set m' <= next_set m + Z.of_nat (length ops).
Proof.
  induction ops as [|op ops IH]; intros m m' Hok Hlen; cbn [apply_ops].
  - intros [= <-]. split; [done|lia].
  - destruct (apply_op op m) as [m1|] eqn:Hop; [|done]. intros Hrun.
    cbn [length] in Hlen |- *.
    destruct (names_ok_apply_op op m m1 Hok) as [Hok1 Hn1]; [lia|done|].
    destruct (IH m1 m' Hok1) as [Hok' Hn']; [lia|done|].
    split; [done|lia].
Qed.

(** ** Strings *)

Lemma get_Some_lt (s : string) : forall (i : nat) (c : ascii),
  String.get i s = Some c -> (i < String.length s)%nat.
Proof.
  induction s as [|a s IH]; intros i c; [by destruct i|].
  destruct i as [|i]; cbn [String.get String.length]; [lia|].
  intros H. apply IH in H. lia.
Qed.

Lemma rfind_char_Some (c : ascii) (s : string) : forall i : nat,
  rfind_char c s = Some i ->
  String.get i s = Some c /\ forall j : nat, (i < j)%nat -> String.get j s <> Some c.
Proof.
  induction s as [|a s IH]; intros i; cbn [rfind_char]; [done|].
  destruct (rfind_char c s) as [k|] eqn:E.
  - intros [= <-]. destruct (IH k eq_refl) as [Hk Hmax]. split; [done|].
    intros [|j] Hj; [lia|]. cbn [String.get]. apply Hmax. lia.
  - destruct (Ascii.eqb_spec a c) as [->|Hne]; [|done].
    intros [= <-]. split; [done|].
    intros [|j] Hj; [lia|]. cbn [String.get]. clear -E.
    revert j. induction s as [|b s IHs]; intros j; [by destruct j|].
    cbn [rfind_char] in E. destruct (rfind_char c s) eqn:E'; [done|].
    destruct (Ascii.eqb_spec b c) as [->|Hb]; [done|].
    destruct j as [|j]; cbn [String.get]; [congruence|]. by apply IHs.
Qed.

Lemma rfind_char_None (c : ascii) (s : string) :
  rfind_char c s = None -> forall j : nat, String.get j s <> Some c.
Proof.
  induction s as [|a s IH]; cbn [rfind_char]; intros H j; [by destruct j|].
  destruct (rfind_char c s) eqn:E; [done|].
  destruct (Ascii.eqb_spec a c) as [->|Hne]; [done|].
  destruct j as [|j]; cbn [String.get]; [congruence|]. by apply IH.
Qed.

(** When the character occurs, [rfind_char] finds its last occurrence. *)
Lemma rfind_char_occurs (c : ascii) (s : string) (j : nat) :
  String.get j s = Some c ->
  exists i : nat, rfind_char c s = Some i /\ (j <= i)%nat /\ String.get i s = Some c.
Proof.
  intros Hj. destruct (rfind_char c s) as [i|] eqn:E.
  - destruct (rfind_char_Some c s i E) as [Hi Hmax]. exists i. split; [done|].
    split; [|done]. destruct (le_lt_dec j i) as [|Hlt]; [done|].
    by destruct (Hmax j Hlt).
  - by destruct (rfind_char_None c s E j).
Qed.

Lemma rfind_char_lt (c : ascii) (s : string) (i : nat) :
  rfind_char c s = Some i -> (i < String.length s)%nat.
Proof. intros H. apply rfind_char_Some in H as [H _]. eapply get_Some_lt, H. Qed.

Lemma length_substring_0 (s : string) : forall n : nat,
  String.length (substring 0 n s) = Nat.min n (String.length s).
Proof.
  induction s as [|a s IH]; intros [|n]; cbn [substring String.length]; try done.
  by rewrite IH.
Qed.

Lemma get_append_l (s1 s2 : string) : forall i : nat,
  (i < String.length s1)%nat -> String.get i (s1 +:+ s2) = String.get i s1.
Proof.
  induction s1 as [|a s1 IH]; intros i; cbn [String.length]; [lia|].
  destruct i as [|i]; cbn [String.append String.get]; [done|].
  intros H. apply IH. lia.
Qed.

Lemma get_append_at (s1 s2 : string) :
  String.get (String.length s1) (s1 +:+ s2) = String.get 0 s2.
Proof. induction s1 as [|a s1 IH]; [done|]. apply IH. Qed.

Lemma length_append (s1 s2 : string) :
  String.length (s1 +:+ s2) = (String.length s1 + String.length s2)%nat.
Proof. induction s1 as [|a s1 IH]; simpl; [done|]. by rewrite IH. Qed.

Lemma substring_append_l (s1 s2 : string) :
  substring 0 (String.length s1) (s1 +:+ s2) = s1.
Proof. induction s1 as [|a s1 IH]; simpl; [by destruct s2|]. by rewrite IH. Qed.

Lemma substring_append_r (s1 s2 : string) :
  substring (String.length s1) (String.length s2) (s1 +:+ s2) = s2.
Proof. induction s1 as [|a s1 IH]; simpl; [apply substring_full|]. apply IH. Qed.

(** [substr] from the start never throws. *)
Lemma substr_prefix (s : string) (pos : Z) :
  0 <= pos ->
  substr s 0 pos = Some (substring 0 (Z.to_nat pos) s).
Proof.
  intros Hpos. unfold substr.
  destruct (Z.ltb_spec (Z.of_nat (String.length s)) 0) as [H|_]; [lia|].
  f_equal. rewrite Z.sub_0_r. cbn [Z.to_nat].
  destruct (Z.le_ge_cases pos (Z.of_nat (String.length s))) as [Hle|Hge].
  - by rewrite Z.min_l.
  - rewrite Z.min_r, Nat2Z.id by done.
    assert (String.length s <= Z.to_nat pos)%nat as Hn by lia.
    clear -Hn. revert Hn. generalize (Z.to_nat pos). clear pos.
    induction s as [|a s IH]; intros [|n] Hn; cbn in *; try done; try lia.
    + f_equal. rewrite <- (IH n) by lia. done.
Qed.

(** [substr(pos + 1, npos)] behind an index of the string never throws. *)
Lemma substr_suffix (s : string) (pos : nat) :
  (pos < String.length s)%nat -> Z.of_nat (String.length s) <= SIZE_MAX ->
  substr s (size_wrap (Z.of_nat pos + 1)) npos
  = Some (substring (S pos) (String.length s - S pos) s).
Proof.
  intros Hpos Hlen. unfold substr, size_wrap, npos, SIZE_MAX in *.
  rewrite Z.mod_small by lia.
  destruct (Z.ltb_spec (Z.of_nat (String.length s)) (Z.of_nat pos + 1)) as [H|_]; [lia|].
  f_equal. rewrite Z.min_r by lia. f_equal; lia.
Qed.

(** ** find_test: the outcomes of the loop *)

Lemma find_last_of_range (s : string) (c : ascii) :
  find_last_of s c = npos \/
  exists i : nat, find_last_of s c = Z.of_nat i /\ (i < String.length s)%nat.
Proof.
  unfold find_last_of. destruct (rfind_char c s) as [i|] eqn:E; [right|by left].
  exists i. split; [done|]. by eapply rfind_char_lt.
Qed.

(** The loop returns only with a test found: its condition never fails and
    [substr] never throws. *)
Lemma find_test_loop_outcomes (fuel : nat) : forall m s t pctx pos,
  Z.of_nat (String.length t) <= SIZE_MAX ->
  (pos = npos \/ exists i : nat, pos = Z.of_nat i /\ (i < String.length t)%nat) ->
  find_test_loop fuel m s t pctx pos = OutOfFuel \/
  exists m' ctx kt, find_test_loop fuel m s t pctx pos = Returns (m', ctx, Some kt).
Proof.
  induction fuel as [|fuel IH]; intros m s t pctx pos Hlen Hpos; [by left|].
  cbn [find_test_loop].
  assert (0 <= pos) as Hge.
  { destruct Hpos as [->|(i & -> & _)]; [done|lia]. }
  destruct (Z.leb_spec 0 pos) as [_|]; [|lia].
  rewrite (substr_prefix t pos Hge).
  assert (exists c, substr t (size_wrap (pos + 1)) npos = Some c) as [c ->].
  { destruct Hpos as [->|(i & -> & Hi)].
    - rewrite size_wrap_npos_succ. rewrite substr_prefix by done. eauto.
    - rewrite substr_suffix by done. eauto. }
  destruct (lookup_test m s (substring 0 (Z.to_nat pos) t)) as [m1 [k|]].
  - right. eauto.
  - apply IH; [done|].
    destruct (find_last_of_range (substring 0 (Z.to_nat pos) t) "_") as [->|(i & -> & Hi)];
      [by left|right].
    exists i. split; [done|]. rewrite length_substring_0 in Hi. lia.
Qed.

(** ** find_test: names with a context suffix *)

Section Resolution.
Variables (s base ctx : string) (kt : KernelTest).

Let name : string := base +:+ "_" +:+ ctx.
Let L : nat := String.length base.

Lemma name_length : String.length name = (L + S (String.length ctx))%nat.
Proof. unfold name, L. by rewrite length_append. Qed.

Lemma name_get_L : String.get L name = Some "_"%char.
Proof. unfold name, L. by rewrite get_append_at. Qed.

Lemma name_prefix_L : substring 0 L name = base.
Proof. apply substring_append_l. Qed.

Lemma name_suffix_L : substring (S L) (String.length name - S L) name = ctx.
Proof.
  rewrite name_length. replace (L + S (String.length ctx) - S L)%nat
    with (String.length ctx) by lia.
  unfold name, L. clear. induction base as [|a b IH]; simpl; [apply substring_full|].
  apply IH.
Qed.

(** The loop, entered at an underscore at or behind the one that follows
    [base], walks back to that one and returns [base]'s record. *)
Lemma find_test_loop_resolves (fuel : nat) : forall (m : KernelTestMgr) (pctx : string)
    (pos : nat),
  Z.of_nat (String.length name) <= SIZE_MAX ->
  (L <= pos)%nat -> String.get pos name = Some "_"%char ->
  (pos - L < fuel)%nat ->
  test_at m s base = Some kt ->
  (forall u : nat, (L < u)%nat -> String.get u name = Some "_"%char ->
                   test_at m s (substring 0 u name) = None) ->
  exists m', find_test_loop fuel m s name pctx (Z.of_nat pos) = Returns (m', ctx, Some kt)
             /\ forall s' t', test_at m' s' t' = test_at m s' t'.
Proof.
  induction fuel as [|fuel IH]; intros m pctx pos Hlen HL Hget Hfuel Hbase Hnone; [lia|].
  cbn [find_test_loop].
  destruct (Z.leb_spec 0 (Z.of_nat pos)) as [_|]; [|lia].
  pose proof (get_Some_lt _ _ _ Hget) as Hlt.
  rewrite substr_prefix, substr_suffix, Nat2Z.id by (done || lia).
  destruct (decide (pos = L)) as [->|Hne].
  - rewrite name_prefix_L, name_suffix_L.
    rewrite (lookup_test_found m s base kt Hbase). eauto.
  - assert (L < pos)%nat as HltL by lia.
    pose proof (Hnone pos HltL Hget) as Hn.
    pose proof (test_at_lookup_test m s (substring 0 pos name)) as Hframe.
    pose proof (lookup_test_snd m s (substring 0 pos name)) as Hsnd.
    destruct (lookup_test m s (substring 0 pos name)) as [m1 k].
    cbn [fst snd] in Hframe, Hsnd. rewrite Hsnd, Hn.
    assert (String.get L (substring 0 pos name) = Some "_"%char) as HgetL.
    { rewrite substring_correct1 by done. rewrite Nat.add_0_r. apply name_get_L. }
    destruct (rfind_char_occurs _ _ _ HgetL) as (i & Hi & HLi & Hgi).
    unfold find_last_of. rewrite Hi.
    pose proof (rfind_char_lt _ _ _ Hi) as Hilt. rewrite length_substring_0 in Hilt.
    assert (i < pos)%nat as Hip by lia.
    rewrite substring_correct1, Nat.add_0_r in Hgi by done.
    destruct (IH m1 (substring (S pos) (String.length name - S pos) name) i)
      as (m' & Hm' & Hfr); try done; try lia.
    + by rewrite Hframe.
    + intros u Hu Hgu. rewrite Hframe. by apply Hnone.
    + exists m'. split; [done|]. intros s' t'. by rewrite Hfr, Hframe.
Qed.

End Resolution.

(** ** Fields an operation leaves alone *)

(** Whatever a lookup leaves unchanged, [find_test] leaves unchanged. *)
Lemma find_test_loop_preserves {A : Type} (f : KernelTestMgr -> A) :
  (forall m s t, f (lookup_test m s t).1 = f m) ->
  forall fuel m s t pctx pos m' ctx kt,
    find_test_loop fuel m s t pctx pos = Returns (m', ctx, kt) -> f m' = f m.
Proof.
  intros Hf fuel. induction fuel as [|fuel IH]; intros m s t pctx pos m' ctx kt;
    cbn [find_test_loop]; [done|].
  destruct (0 <=? pos); [|intros Hr; by simplify_eq].
  destruct (substr t 0 pos) as [tname|]; [|done].
  destruct (substr t (size_wrap (pos + 1)) npos) as [c|]; [|done].
  pose proof (Hf m s tname) as Hl.
  destruct (lookup_test m s tname) as [m1 [k|]]; cbn [fst] in Hl.
  - intros Hr. by simplify_eq.
  - intros Hr. rewrite <- Hl. eapply IH, Hr.
Qed.

Lemma find_test_preserves {A : Type} (f : KernelTestMgr -> A) :
  (forall m s t, f (lookup_test m s t).1 = f m) ->
  forall fuel m s t pctx m' ctx kt,
    find_test fuel m s t pctx = Returns (m', ctx, kt) -> f m' = f m.
Proof.
  intros Hf fuel m s t pctx m' ctx kt. unfold find_test.
  pose proof (Hf m s t) as Hl.
  destruct (lookup_test m s t) as [m1 [k|]]; cbn [fst] in Hl.
  - intros Hr. by simplify_eq.
  - case_bool_decide.
    + intros Hr. by simplify_eq.
    + intros Hr. rewrite <- Hl. eapply find_test_loop_preserves, Hr. done.
Qed.

Lemma cfg_contexts_find_add_set (m : KernelTestMgr) (s : string) :
  cfg_contexts (find_add_set m s) = cfg_contexts m.
Proof.
  unfold find_add_set, sets_touch.
  destruct (bool_decide (s ∉ kernelsets m)); cbn [sets set_set_names set_kernelsets];
    by destruct (sets m !! s).
Qed.

Lemma handle_to_ctxvec_find_add_set (m : KernelTestMgr) (s : string) :
  handle_to_ctxvec (find_add_set m s) = handle_to_ctxvec m.
Proof.
  unfold find_add_set, sets_touch.
  destruct (bool_decide (s ∉ kernelsets m)); cbn [sets set_set_names set_kernelsets];
    by destruct (sets m !! s).
Qed.

(** Only [add_configurable_context] changes the configurable contexts. *)
Lemma cfg_contexts_apply_op (op : registry_op) (m m' : KernelTestMgr) :
  apply_op op m = Some m' ->
  cfg_contexts m' =
    match op with
    | OpAddConfigurableContext ctx ty hid st =>
        <[ctx := find_contexts m ctx ++ [ConfigurableContext_ctor ctx ty hid st]]>
          (cfg_contexts m)
    | _ => cfg_contexts m
    end.
Proof.
  destruct op as [s0|s0 t0|s0 t0 hid|s0 t0 tcb|fuel s0 t0 pctx|hid ctxs|ctx ty hid st|ews];
    cbn [apply_op]; intros Hop.
  - injection Hop as <-. apply cfg_contexts_find_add_set.
  - injection Hop as <-. apply cfg_contexts_find_add_set.
  - injection Hop as <-. by rewrite add_test_eq.
  - injection Hop as <-. by rewrite add_wrapper_eq.
  - destruct (find_test fuel m s0 t0 pctx) as [[[m1 ctx] kt]| |] eqn:E; try done.
    injection Hop as <-.
    eapply (find_test_preserves cfg_contexts), E.
    intros m0 s t. by rewrite lookup_test_eq.
  - by injection Hop as <-.
  - injection Hop as <-. unfold add_configurable_context, find_contexts.
    cbn [cfg_contexts set_cfg_contexts]. by destruct (cfg_contexts m !! ctx).
  - injection Hop as <-. unfold get_test_names.
    by destruct (skip_loop _ _) as [[|e rest] diag].
Qed.

(** Only [add_cset] and the constructor of a test with a handle change the
    context lists. *)
Lemma handle_to_ctxvec_apply_op (op : registry_op) (m m' : KernelTestMgr) :
  apply_op op m = Some m' ->
  handle_to_ctxvec m' =
    match op with
    | OpAddCset hid ctxs => <[hid := ctxs]> (handle_to_ctxvec m)
    | OpAddTest _ _ hid =>
        if hid =? 0 then handle_to_ctxvec m
        else match handle_to_ctxvec m !! hid with
             | Some _ => handle_to_ctxvec m
             | None => <[hid := []]> (handle_to_ctxvec m)
             end
    | _ => handle_to_ctxvec m
    end.
Proof.
  destruct op as [s0|s0 t0|s0 t0 hid|s0 t0 tcb|fuel s0 t0 pctx|hid ctxs|ctx ty hid st|ews];
    cbn [apply_op]; intros Hop.
  - injection Hop as <-. apply handle_to_ctxvec_find_add_set.
  - injection Hop as <-. apply handle_to_ctxvec_find_add_set.
  - injection Hop as <-. by rewrite add_test_eq.
  - injection Hop as <-. by rewrite add_wrapper_eq.
  - destruct (find_test fuel m s0 t0 pctx) as [[[m1 ctx] kt]| |] eqn:E; try done.
    injection Hop as <-.
    eapply (find_test_preserves handle_to_ctxvec), E.
    intros m0 s t. by rewrite lookup_test_eq.
  - by injection Hop as <-.
  - by injection Hop as <-.
  - injection Hop as <-. unfold get_test_names.
    by destruct (skip_loop _ _) as [[|e rest] diag].
Qed.

(** ** The parsers as sequences of registry operations *)

Lemma apply_ops_app (o1 o2 : list registry_op) (m : KernelTestMgr) :
  apply_ops (o1 ++ o2) m = apply_ops o1 m ≫= apply_ops o2.
Proof.
  revert m. induction o1 as [|op o1 IH]; intros m; cbn [apply_ops app]; [done|].
  destruct (apply_op op m); [apply IH|done].
Qed.

Lemma parse_one_set_loop_ops (setname : string) (l : list nlattr) :
  forall (hid : Z) (m : KernelTestMgr),
  exists ops, (length ops <= length l)%nat
    /\ apply_ops ops m = Some (parse_one_set_loop setname l hid m).1.2.
Proof.
  induction l as [|nla l IH]; intros hid m; cbn [parse_one_set_loop].
  - exists []. by split.
  - destruct (nla_type nla);
      try (exists []; split; [cbn; lia|done]).
    + destruct (IH 0 (add_test m setname (string_of (nla_get_string nla)) hid))
        as (ops & Hlen & Hops).
      exists (OpAddTest setname (string_of (nla_get_string nla)) hid :: ops).
      split; [cbn; lia|]. by cbn [apply_ops apply_op].
    + destruct (IH (nla_get_u32 nla) m) as (ops & Hlen & Hops).
      exists ops. split; [cbn; lia|done].
Qed.

Lemma parse_ctx_list_ops (l : list nlattr) :
  forall (hid : Z) (ctx : string) (contexts : stringvec) (ty : Z) (m : KernelTestMgr),
  exists ops, (length ops <= length l)%nat
    /\ apply_ops ops m = Some (parse_ctx_list l hid ctx contexts ty m).2
    /\ registry_core (parse_ctx_list l hid ctx contexts ty m).2 = registry_core m.
Proof.
  induction l as [|nla l IH]; intros hid ctx contexts ty m; cbn [parse_ctx_list].
  - exists []. by repeat split.
  - destruct (nla_type nla);
      try (destruct (IH hid ctx contexts ty m) as (ops & Hlen & Hops & Hcore);
           exists ops; split; [cbn; lia|done]).
    + destruct (IH hid ctx contexts (nla_get_u32 nla) m) as (ops & Hlen & Hops & Hcore).
      exists ops. split; [cbn; lia|done].
    + destruct (IH hid (string_of (nla_get_string nla))
                  (contexts ++ [string_of (nla_get_string nla)]) ty m)
        as (ops & Hlen & Hops & Hcore).
      exists ops. split; [cbn; lia|done].
    + destruct (IH hid ctx contexts ty
                  (add_configurable_context m ctx ty hid (to_int (nla_get_u32 nla))))
        as (ops & Hlen & Hops & Hcore).
      exists (OpAddConfigurableContext ctx ty hid (to_int (nla_get_u32 nla)) :: ops).
      split; [cbn; lia|]. split; [by cbn [apply_ops apply_op]|]. by rewrite Hcore.
Qed.

Lemma nested_size_cons (nla : nlattr) (l : list nlattr) :
  nested_size (nla :: l) = (S (length (nla_nested nla)) + nested_size l)%nat.
Proof. reflexivity. Qed.

Lemma parse_hlist_ops (l : list nlattr) :
  forall (hid ty : Z) (ctx : string) (contexts : stringvec) (m : KernelTestMgr),
  exists ops, (length ops <= nested_size l)%nat
    /\ apply_ops ops m = Some (parse_hlist l hid ty ctx contexts m).1.2
    /\ registry_core (parse_hlist l hid ty ctx contexts m).1.2 = registry_core m.
Proof.
  induction l as [|nla l IH]; intros hid ty ctx contexts m;
    rewrite ?nested_size_cons; cbn [parse_hlist].
  - exists []. by repeat split.
  - destruct (nla_type nla);
      try (exists []; split; [cbn; lia|done]).
    + destruct (parse_ctx_list_ops (nla_nested nla) hid ctx contexts ty m)
        as (ops1 & Hlen1 & Hops1 & Hcore1).
      destruct (parse_ctx_list (nla_nested nla) hid ctx contexts ty m)
        as [[[ctx1 contexts1] ty1] m1]. cbn [snd] in *.
      destruct (IH 0 ty1 ctx1 [] (add_cset m1 hid contexts1))
        as (ops2 & Hlen2 & Hops2 & Hcore2).
      exists (ops1 ++ OpAddCset hid contexts1 :: ops2).
      split; [rewrite length_app; cbn [length]; lia|]. split.
      * rewrite apply_ops_app, Hops1. by cbn [mbind option_bind apply_ops apply_op].
      * by rewrite Hcore2, <- Hcore1.
    + destruct (IH (nla_get_u32 nla) ty ctx contexts m) as (ops & Hlen & Hops & Hcore).
      exists ops. split; [lia|done].
Qed.

Lemma parse_set_list_ops (l : list nlattr) :
  forall (setname : string) (m : KernelTestMgr),
  exists ops, (length ops <= nested_size l)%nat
    /\ apply_ops ops m = Some (parse_set_list l setname m).1.2.
Proof.
  induction l as [|nla l IH]; intros setname m;
    rewrite ?nested_size_cons; cbn [parse_set_list].
  - exists []. by split.
  - destruct (nla_type nla);
      try (exists []; split; [cbn; lia|done]).
    + destruct (IH (string_of (nla_get_string nla))
                  (find_add_set m (string_of (nla_get_string nla))))
        as (ops & Hlen & Hops).
      exists (OpFindAddSet (string_of (nla_get_string nla)) :: ops).
      split; [cbn [length]; lia|]. by cbn [apply_ops apply_op].
    + unfold parse_one_set.
      destruct (parse_one_set_loop_ops setname (nla_nested nla) 0 m)
        as (ops1 & Hlen1 & Hops1).
      destruct (parse_one_set_loop setname (nla_nested nla) 0 m) as [[stat m1] ev1].
      cbn [fst snd] in *.
      destruct (negb (stat =? NL_OK)).
      * exists ops1. split; [lia|done].
      * destruct (IH setname (find_add_set m1 setname)) as (ops2 & Hlen2 & Hops2).
        destruct (parse_set_list l setname (find_add_set m1 setname)) as [[r m2] ev2].
        cbn [fst snd] in *.
        exists (ops1 ++ OpFindAddSet setname :: ops2).
        split; [rewrite length_app; cbn [length]; lia|].
        rewrite apply_ops_app, Hops1. by cbn [mbind option_bind apply_ops apply_op].
Qed.

(** What [parse_query] does to the registry, a sequence of registry
    operations does, one operation per attribute at most. *)
Lemma parse_inventory_ops (attrs : nlattrs) (m : KernelTestMgr) :
  exists ops, (length ops <= query_size attrs)%nat
    /\ apply_ops ops m = Some (parse_inventory attrs m).1.2.
Proof.
  unfold parse_inventory, query_size.
  assert (exists ops1,
    (length ops1 <= match attrs KTF_A_HLIST with
                    | Some a => nested_size (nla_nested a) | None => 0 end)%nat
    /\ apply_ops ops1 m
       = Some (match attrs KTF_A_HLIST with
               | Some a => parse_hlist (nla_nested a) 0 0 "" [] m
               | None => (NL_OK, m, [])
               end).1.2) as (ops1 & Hlen1 & Hops1).
  { destruct (attrs KTF_A_HLIST) as [a|].
    - destruct (parse_hlist_ops (nla_nested a) 0 0 "" [] m) as (ops & ? & ? & _). eauto.
    - exists []. by split. }
  destruct (match attrs KTF_A_HLIST with
            | Some a => parse_hlist (nla_nested a) 0 0 "" [] m
            | None => (NL_OK, m, [])
            end) as [[stat m1] ev1]. cbn [fst snd] in *.
  destruct (negb (stat =? NL_OK)); [exists ops1; split; [lia|done]|].
  destruct (attrs KTF_A_NUM); [|exists ops1; split; [lia|done]].
  destruct (attrs KTF_A_LIST) as [a|]; [|exists ops1; split; [lia|done]].
  destruct (parse_set_list_ops (nla_nested a) "" m1) as (ops2 & Hlen2 & Hops2).
  destruct (parse_set_list (nla_nested a) "" m1) as [[r m2] ev2]. cbn [fst snd] in *.
  exists (ops1 ++ ops2). split; [rewrite length_app; lia|].
  rewrite apply_ops_app, Hops1. done.
Qed.

Lemma parse_query_ops (latest : Z) (attrs : nlattrs) (m : KernelTestMgr) :
  exists ops, (length ops <= query_size attrs)%nat
    /\ apply_ops ops m = Some (parse_query latest attrs m).1.2.
Proof.
  unfold parse_query.
  destruct (parse_inventory_ops attrs m) as (ops & Hlen & Hops).
  destruct (negb _); [|eauto].
  destruct (negb _); [exists []; split; [cbn [length]; lia|done]|].
  destruct (parse_inventory attrs m) as [[r m1] evs]. eauto.
Qed.

(** ** Sequences of operations *)

Lemma apply_ops_tests_persist (ops : list registry_op) : forall m m' s t,
  apply_ops ops m = Some m' -> is_Some (test_at m s t) -> is_Some (test_at m' s t).
Proof.
  induction ops as [|op ops IH]; intros m m' s t; cbn [apply_ops].
  - by intros [= <-].
  - destruct (apply_op op m) as [m1|] eqn:Hop; [|done]. intros Hrun Hsome.
    eapply IH; [done|]. rewrite (test_at_apply_op op m m1 s t Hop).
    destruct op; try done.
    + case_decide; [eauto|done].
    + case_decide as Hd; [|done]. destruct Hd as [-> ->].
      destruct Hsome as [kt ->]. cbn. eauto.
Qed.

Lemma apply_op_kernelsets (op : registry_op) (m m' : KernelTestMgr) :
  apply_op op m = Some m' -> kernelsets m ⊆ kernelsets m'.
Proof.
  intros Hop. destruct (apply_op_ord op m m' Hop) as [(-> & _)|(s & _ & -> & _)].
  - done.
  - apply union_subseteq_r.
Qed.

Lemma apply_ops_kernelsets (ops : list registry_op) : forall m m',
  apply_ops ops m = Some m' -> kernelsets m ⊆ kernelsets m'.
Proof.
  induction ops as [|op ops IH]; intros m m'; cbn [apply_ops].
  - by intros [= <-].
  - destruct (apply_op op m) as [m1|] eqn:Hop; [|done]. intros Hrun.
    etrans; [eapply apply_op_kernelsets, Hop|eapply IH, Hrun].
Qed.

(** ** Status codes and handler calls of the parsers *)

Lemma parse_hlist_status (l : list nlattr) :
  forall (hid ty : Z) (ctx : string) (contexts : stringvec) (m : KernelTestMgr),
  (parse_hlist l hid ty ctx contexts m).1.1 = NL_OK \/
  (parse_hlist l hid ty ctx contexts m).1.1 = NL_SKIP.
Proof.
  induction l as [|nla l IH]; intros hid ty ctx contexts m; cbn [parse_hlist];
    [by left|].
  destruct (nla_type nla); try (by right).
  - destruct (parse_ctx_list _ _ _ _ _ _) as [[[ctx1 contexts1] ty1] m1]. apply IH.
  - apply IH.
Qed.

Lemma parse_set_list_kernelsets (l : list nlattr) (setname : string) (m : KernelTestMgr) :
  kernelsets m ⊆ kernelsets (parse_set_list l setname m).1.2.
Proof.
  destruct (parse_set_list_ops l setname m) as (ops & _ & Hops).
  eapply apply_ops_kernelsets, Hops.
Qed.

(** Every set name the list announces is registered when the list is
    parsed to its end. *)
Lemma parse_set_list_announced (l : list nlattr) : forall (setname : string)
    (m : KernelTestMgr),
  (parse_set_list l setname m).1.1 = NL_OK ->
  forall nla, nla ∈ l -> nla_type nla = KTF_A_STR ->
    string_of (nla_get_string nla) ∈ kernelsets (parse_set_list l setname m).1.2.
Proof.
  induction l as [|a l IH]; intros setname m Hok nla Hin Hty.
  { by apply elem_of_nil in Hin. }
  cbn [parse_set_list] in Hok |- *.
  destruct (nla_type a) eqn:Ea; try discriminate Hok.
  - apply elem_of_cons in Hin as [->|Hin].
    + eapply parse_set_list_kernelsets, find_add_set_member.
    + by apply IH.
  - unfold parse_one_set in *.
    destruct (parse_one_set_loop setname (nla_nested a) 0 m) as [[stat m1] ev1].
    destruct (Z.eqb_spec stat NL_OK) as [->|Hne]; cbn [negb] in *.
    + destruct (parse_set_list l setname (find_add_set m1 setname)) as [[r m2] ev2] eqn:E.
      cbn [fst snd] in *.
      apply elem_of_cons in Hin as [->|Hin]; [congruence|].
      specialize (IH setname (find_add_set m1 setname)). rewrite E in IH. by apply IH.
    + cbn [fst] in Hok. congruence.
Qed.

Lemma parse_result_loop_bound (l : list nlattr) : forall st,
  (length (parse_result_loop l st).1.2
   <= length (filter (fun a => is_stat a = true) l))%nat
  /\ (parse_result_loop l st).1.1.1 = forallb check_tag l.
Proof.
  induction l as [|nla l IH]; intros st; cbn [parse_result_loop forallb]; [done|].
  unfold check_tag at 1.
  destruct (nla_type nla) eqn:Ety;
    try (rewrite filter_cons_False by (unfold is_stat; by rewrite Ety);
         cbn [andb fst snd length]; first [split; [lia|done] | apply IH]).
  rewrite filter_cons_True by (unfold is_stat; by rewrite Ety).
  specialize (IH (count_status st (nla_get_u32 nla))).
  destruct (parse_result_loop l (count_status st (nla_get_u32 nla)))
    as [[[fin st1] calls] ev]. cbn [fst snd length andb] in *.
  split; [lia|tauto].
Qed.

(** ** The callbacks and the socket *)

Section TransportFacts.
Variable latest : Z.
Variable ct_of_u32 : Z -> option ktf_cmd_type.

Lemma parse_cb_io (msg : nl_msg) (w : world) :
  w_io (parse_cb latest ct_of_u32 msg w).2 = w_io w
  /\ w_errno (parse_cb latest ct_of_u32 msg w).2 = w_errno w.
Proof.
  unfold parse_cb. destruct (_ <? 0); [done|].
  destruct (msg_attrs msg KTF_A_TYPE) as [a|]; [|done].
  destruct (ct_of_u32 (nla_get_u32 a)) as [[]|]; try done.
  - by destruct (parse_query _ _ _) as [[r m1] ev].
  - by destruct (parse_result _) as [[[r st] calls] ev].
Qed.

Lemma parse_cb_mgr (msg : nl_msg) (w : world) :
  w_mgr (parse_cb latest ct_of_u32 msg w).2
  = match msg_cmd ct_of_u32 msg with
    | Some KTF_CT_QUERY => (parse_query latest (msg_attrs msg) (w_mgr w)).1.2
    | _ => w_mgr w
    end.
Proof.
  unfold parse_cb, msg_cmd. destruct (_ <? 0); [done|].
  destruct (msg_attrs msg KTF_A_TYPE) as [a|]; [|done].
  destruct (ct_of_u32 (nla_get_u32 a)) as [[]|]; try done.
  - by destruct (parse_query _ _ _) as [[r m1] ev].
  - by destruct (parse_result _) as [[[r st] calls] ev].
Qed.

Lemma parse_cb_calls (msg : nl_msg) (w : world) :
  w_calls (parse_cb latest ct_of_u32 msg w).2
  = w_calls w ++ match msg_cmd ct_of_u32 msg with
                 | Some KTF_CT_RUN => (parse_result (msg_attrs msg)).1.2
                 | _ => []
                 end.
Proof.
  unfold parse_cb, msg_cmd. destruct (_ <? 0); [by rewrite app_nil_r|].
  destruct (msg_attrs msg KTF_A_TYPE) as [a|]; [|by cbn; rewrite app_nil_r].
  destruct (ct_of_u32 (nla_get_u32 a)) as [[]|]; try (by cbn; rewrite app_nil_r).
  - destruct (parse_query _ _ _) as [[r m1] ev]. by cbn.
  - by destruct (parse_result _) as [[[r st] calls] ev].
Qed.

Lemma recv_io (d : delivery) (w : world) :
  w_io (nl_recvmsgs_default latest ct_of_u32 d w) = w_io w ++ [IoRecv]
  /\ w_errno (nl_recvmsgs_default latest ct_of_u32 d w) = w_errno w.
Proof.
  unfold nl_recvmsgs_default. destruct d as [msg|msg]; [|done].
  destruct (parse_cb_io msg (w_do w [IoRecv])) as [-> ->]. done.
Qed.

Lemma recv_mgr (d : delivery) (w : world) :
  w_mgr (nl_recvmsgs_default latest ct_of_u32 d w)
  = match d with
    | DeliverValid msg =>
        match msg_cmd ct_of_u32 msg with
        | Some KTF_CT_QUERY => (parse_query latest (msg_attrs msg) (w_mgr w)).1.2
        | _ => w_mgr w
        end
    | DeliverInvalid _ => w_mgr w
    end.
Proof.
  unfold nl_recvmsgs_default. destruct d as [msg|msg]; [|done].
  by rewrite parse_cb_mgr.
Qed.

Lemma recv_calls (d : delivery) (w : world) :
  w_calls (nl_recvmsgs_default latest ct_of_u32 d w)
  = w_calls w ++ match d with
                 | DeliverValid msg =>
                     match msg_cmd ct_of_u32 msg with
                     | Some KTF_CT_RUN => (parse_result (msg_attrs msg)).1.2
                     | _ => []
                     end
                 | DeliverInvalid _ => []
                 end.
Proof.
  unfold nl_recvmsgs_default. destruct d as [msg|msg]; [|by cbn; rewrite app_nil_r].
  by rewrite parse_cb_calls.
Qed.

End TransportFacts.

(** ** set_names only grows at its end *)

Lemma apply_ops_set_names_prefix (ops : list registry_op) : forall m m',
  apply_ops ops m = Some m' -> set_names m `prefix_of` set_names m'.
Proof.
  induction ops as [|op ops IH]; intros m m'; cbn [apply_ops].
  - by intros [= <-].
  - destruct (apply_op op m) as [m1|] eqn:Hop; [|done]. intros Hrun.
    etrans; [|eapply IH, Hrun].
    destruct (set_names_apply_op op m m1 Hop) as [[_ ->]|(s & _ & ->)];
      [done|by apply prefix_app_r].
Qed.

Lemma parse_result_calls_count (attrs : nlattrs) (a : nlattr) :
  attrs KTF_A_LIST = Some a -> forallb check_tag (nla_nested a) = true ->
  length (parse_result attrs).1.2
  = S (length (filter (fun a => is_stat a = true) (nla_nested a))).
Proof.
  intros Ha Htags. unfold parse_result. rewrite Ha.
  destruct (parse_result_loop_calls (nla_nested a) result_locals_init Htags)
    as (H1 & _ & H3 & _).
  destruct (parse_result_loop (nla_nested a) result_locals_init)
    as [[[fin st] calls] ev]. cbn [fst snd] in *. subst fin. cbn [fst snd].
  rewrite length_app. cbn [length]. lia.
Qed.

(** ** Claims on enumeration *)

(** A registry with an empty set ["a"], a set ["b"] that has a kernel test
    and a pending wrapper for another test, and a set ["c"]. *)
Definition mgr_mixed : KernelTestMgr :=
  add_test
    (add_wrapper (add_test (find_add_set new_mgr "a") "b" "t" 0) "b" "u" (Some 1%nat))
    "c" "t" 0.

(** C4, counterexample.  In [mgr_mixed] the set ["b"] has a pending wrapper
    and a non-empty name list, so it is not one of the sets the claim lets
    the enumeration skip; it is skipped all the same, and without a
    diagnostic.  The first call returns the empty list of set ["a"] although
    the enumeration is not exhausted: the cursor stays set and the next call
    returns the names of ["c"]. *)
Lemma get_test_names_skip_counterexample :
  wrapped ("b", sets_at mgr_mixed "b") = true /\
  test_names (sets_at mgr_mixed "b") = ["t"] /\
  (enumerate 0 3 mgr_mixed).1.1 =
    [(Some "a", []); (Some "c", ["t"]); (None, [])] /\
  (enumerate 0 3 mgr_mixed).2 = [] /\
  cur (get_test_names 0 mgr_mixed).1.2 <> None.
Proof. vm_compute. repeat split; discriminate. Qed.

(** C4, as amended.  From a fresh cursor the successive calls of
    [get_test_names] return, once each and in key order, the name lists of
    the sets whose wrapper map is empty (an empty list for a set without
    names); every set whose wrapper map is not empty is skipped, with a
    diagnostic if its name list is empty; the call after the last set
    returns an empty list and resets the cursor. *)
Theorem get_test_names_enumeration (ews : nat) (m : KernelTestMgr) :
  cur m = None ->
  enumerate ews (S (length (returned_sets m))) m =
    (map (fun e => (Some e.1, test_names e.2)) (returned_sets m) ++ [(None, [])],
     m,
     flat_map skip_diag (map_in_order (sets m)))
  /\ (forall k ts, (k, ts) ∈ map_in_order (sets m) <-> sets m !! k = Some ts)
  /\ NoDup (map_in_order (sets m)).*1.
Proof.
  intros Hcur. split; [|split].
  - rewrite (enumerate_from ews (length (returned_sets m)) m [] (map_in_order (sets m))).
    + by rewrite set_cur_None_id.
    + done.
    + unfold cursor_nodes. rewrite Hcur. apply nodes_from_begin.
    + done.
  - intros k ts. apply elem_of_map_in_order.
  - apply NoDup_map_in_order.
Qed.

Lemma get_test_names_enumeration_witness :
  cur mgr_mixed = None /\
  enumerate 7 (S (length (returned_sets mgr_mixed))) mgr_mixed =
    (map (fun e => (Some e.1, test_names e.2)) (returned_sets mgr_mixed)
       ++ [(None, [])],
     mgr_mixed,
     flat_map skip_diag (map_in_order (sets mgr_mixed))).
Proof.
  assert (Hcur : cur mgr_mixed = None) by (vm_compute; reflexivity).
  split; [exact Hcur|].
  exact (proj1 (get_test_names_enumeration 7 mgr_mixed Hcur)).
Defined.

(** Two sets registered in the order ["b"], ["a"]. *)
Definition mgr_b_then_a : KernelTestMgr :=
  add_test (add_test new_mgr "b" "t1" 0) "a" "t2" 0.

(** C5, counterexample.  Set ["b"] is registered first and holds ordinal 0,
    set ["a"] holds ordinal 1; the enumeration returns ["a"] before
    ["b"]. *)
Lemma get_test_names_order_counterexample :
  set_names mgr_b_then_a = ["b"; "a"] /\
  ordinal_of mgr_b_then_a "b" = Some 0 /\
  ordinal_of mgr_b_then_a "a" = Some 1 /\
  (enumerate 0 2 mgr_b_then_a).1.1 = [(Some "a", ["t2"]); (Some "b", ["t1"])].
Proof. vm_compute. repeat split. Qed.

(** C5, as amended.  From a fresh cursor the successive calls of
    [get_test_names] return the sets in ascending order of their names (the
    key order of the [std::map]), whatever the order of registration. *)
Theorem get_test_names_key_order (ews : nat) (m : KernelTestMgr) :
  cur m = None ->
  omap fst (enumerate ews (S (length (returned_sets m))) m).1.1
    = (returned_sets m).*1
  /\ StronglySorted (fun a b : string => Is_true (String.ltb a b))
       (returned_sets m).*1.
Proof.
  intros Hcur. split.
  - rewrite (enumerate_from ews (length (returned_sets m)) m [] (map_in_order (sets m)));
      [|done| |done].
    2:{ unfold cursor_nodes. rewrite Hcur. apply nodes_from_begin. }
    cbn [fst]. apply omap_current_names.
  - apply sorted_filter_keys, map_in_order_sorted.
Qed.

Lemma get_test_names_key_order_witness :
  cur mgr_b_then_a = None /\
  omap fst (enumerate 0 (S (length (returned_sets mgr_b_then_a))) mgr_b_then_a).1.1
    = (returned_sets mgr_b_then_a).*1.
Proof.
  assert (Hcur : cur mgr_b_then_a = None) by (vm_compute; reflexivity).
  split; [exact Hcur|].
  exact (proj1 (get_test_names_key_order 0 mgr_b_then_a Hcur)).
Defined.

(** ** Claims on parse_result *)

(** A run response with the given check list. *)
Definition run_response (checks : list nlattr) : nlattrs :=
  attrs_of [nla_nest KTF_A_LIST checks].

(** C3, counterexample.  The status [0xffffffff] is read into the [int]
    [result] as [-1]; the code adds it to the assertion counter, which
    becomes [-1], and leaves the failure counter at 0, where the claim has
    both counters incremented by one. *)
Lemma parse_result_negative_status_counterexample :
  statuses [nla_u32 KTF_A_STAT 4294967295] = [-1] /\
  assert_cnt (parse_result (run_response [nla_u32 KTF_A_STAT 4294967295])).1.1.2 = -1 /\
  fail_cnt (parse_result (run_response [nla_u32 KTF_A_STAT 4294967295])).1.1.2 = 0.
Proof. vm_compute. repeat split. Qed.

(** C3, as amended.  When [parse_result] interprets a check list, every
    status code that is not zero, positive or negative as an [int], adds
    its value to the assertion counter, and every zero status code
    increments the failure counter and the assertion counter by one
    ([int] arithmetic); the statuses [2, 0, 3] give an assertion count of 6
    and a failure count of 1. *)
Theorem parse_result_counting (attrs : nlattrs) (a : nlattr) :
  attrs KTF_A_LIST = Some a ->
  assert_cnt (parse_result attrs).1.1.2
    = to_int (sumZ (map assert_share (statuses (nla_nested a))))
  /\ fail_cnt (parse_result attrs).1.1.2
    = to_int (Z.of_nat (length (filter (fun r => is_zero r = true)
                                       (statuses (nla_nested a)))))
  /\ (forall r, assert_share r = if r =? 0 then 1 else r)
  /\ assert_cnt (parse_result (run_response
       [nla_u32 KTF_A_STAT 2; nla_u32 KTF_A_STAT 0; nla_u32 KTF_A_STAT 3])).1.1.2 = 6
  /\ fail_cnt (parse_result (run_response
       [nla_u32 KTF_A_STAT 2; nla_u32 KTF_A_STAT 0; nla_u32 KTF_A_STAT 3])).1.1.2 = 1.
Proof.
  intros Ha.
  assert (Hst : (parse_result attrs).1.1.2
                = (parse_result_loop (nla_nested a) result_locals_init).1.1.2).
  { unfold parse_result. rewrite Ha.
    destruct (parse_result_loop (nla_nested a) result_locals_init)
      as [[[fin st] calls] ev].
    by destruct fin. }
  rewrite Hst.
  destruct (parse_result_loop_counts (nla_nested a) result_locals_init)
    as (H1 & H2 & H3 & H4).
  simpl in H1, H2, H3, H4.
  repeat split.
  - rewrite <- H3 by done. exact H1.
  - rewrite <- H4 by done. exact H2.
Qed.

(** A check list with two status entries. *)
Definition checks_7_0 : nlattr :=
  nla_nest KTF_A_LIST
    [nla_u32 KTF_A_STAT 7; nla_str KTF_A_FILE "t.c"; nla_u32 KTF_A_STAT 0].

Lemma parse_result_counting_witness :
  assert_cnt (parse_result (attrs_of [checks_7_0])).1.1.2
  = to_int (sumZ (map assert_share (statuses (nla_nested checks_7_0)))).
Proof.
  refine (proj1 (parse_result_counting (attrs_of [checks_7_0]) checks_7_0 _)).
  vm_compute. reflexivity.
Defined.

(** C10, counterexample.  The check list begins with a status entry and
    holds two of them, but an attribute [parse_result] has no case for
    stands between them: the handler is called once, not three times, and
    [NL_SKIP] is returned without the trailing flush. *)
Lemma parse_result_unexpected_attr_counterexample :
  parse_result (run_response
    [nla_u32 KTF_A_STAT 1; nla_u32 KTF_A_DATA 0; nla_u32 KTF_A_STAT 2])
  = (NL_SKIP,
     {| assert_cnt := 1; fail_cnt := 0; result := 1; file := "no_file";
        line := 0; report := "no_report" |},
     [(-1, "no_file", 0, "no_report")],
     [EvUnexpectedAttr "parse_result" KTF_A_DATA]).
Proof. vm_compute. reflexivity. Qed.

(** C10, as amended.  For every run response whose check list is present,
    begins with a status entry and holds only status, file, line-number
    and report entries, the handler is invoked exactly (number of status
    entries + 1) times; the first call delivers the initial locals
    (result -1, file "no_file", line 0, report "no_report"), the following
    calls deliver the status codes in their order. *)
Theorem parse_result_handler_calls (attrs : nlattrs) (a nla : nlattr) (l : list nlattr) :
  attrs KTF_A_LIST = Some a ->
  nla_nested a = nla :: l ->
  is_stat nla = true ->
  forallb check_tag l = true ->
  (parse_result attrs).1.1.1 = NL_OK
  /\ length (parse_result attrs).1.2
     = S (length (filter (fun a => is_stat a = true) (nla :: l)))
  /\ head (parse_result attrs).1.2 = Some (-1, "no_file", 0, "no_report")
  /\ map call_result (parse_result attrs).1.2 = -1 :: statuses (nla :: l).
Proof.
  intros Ha Hnl Hstat Hl.
  assert (Htags : forallb check_tag (nla :: l) = true).
  { simpl. rewrite Hl, andb_true_r. unfold is_stat, check_tag in *.
    by destruct (nla_type nla). }
  destruct (parse_result_loop_calls (nla :: l) result_locals_init Htags)
    as (H1 & H2 & H3 & H4).
  assert (Hhd : head (parse_result_loop (nla :: l) result_locals_init).1.2
                = Some (-1, "no_file", 0, "no_report")).
  { cbn [parse_result_loop]. unfold is_stat in Hstat.
    destruct (nla_type nla); try discriminate.
    by destruct (parse_result_loop l _) as [[[? ?] ?] ?]. }
  unfold parse_result. rewrite Ha, Hnl.
  destruct (parse_result_loop (nla :: l) result_locals_init)
    as [[[fin st] calls] ev].
  simpl in H1, H2, H3, H4, Hhd. subst fin. simpl.
  repeat split.
  - rewrite length_app. simpl. rewrite H3. lia.
  - destruct calls; [discriminate|done].
  - rewrite map_app. simpl. exact H4.
Qed.

Definition checks_tail : list nlattr :=
  [nla_str KTF_A_FILE "t.c"; nla_u32 KTF_A_NUM 12; nla_u32 KTF_A_STAT 0].

Definition checks_2_0 : nlattr :=
  nla_nest KTF_A_LIST (nla_u32 KTF_A_STAT 2 :: checks_tail).

Lemma parse_result_handler_calls_witness :
  length (parse_result (attrs_of [checks_2_0])).1.2
  = S (length (filter (fun a => is_stat a = true)
                      (nla_u32 KTF_A_STAT 2 :: checks_tail))).
Proof.
  refine (proj1 (proj2 (parse_result_handler_calls (attrs_of [checks_2_0]) checks_2_0
                          (nla_u32 KTF_A_STAT 2) checks_tail _ _ _ _)));
    vm_compute; reflexivity.
Defined.

(** ** Claims on parse_query *)

Lemma parse_inventory_with_version (attrs : nlattrs) (v : Z) (m : KernelTestMgr) :
  parse_inventory (with_version attrs v) m = parse_inventory attrs m.
Proof. reflexivity. Qed.

(** The inventory of a query response: one set ["s"] with one test ["t"]. *)
Definition inventory_st : list nlattr :=
  [nla_u32 KTF_A_NUM 1;
   nla_nest KTF_A_LIST
     [nla_str KTF_A_STR "s"; nla_nest KTF_A_TEST [nla_str KTF_A_STR "t"]]].

(** C2.  A query response whose reported version differs from the local
    one in the major or the minor field is dropped: [parse_query] returns
    [NL_SKIP] after the error message and the registry is the one it was
    given.  A response whose version differs only in the micro or build
    field is parsed as one with the local version is, after a note has been
    written. *)
Theorem parse_query_version_check (latest : Z) (attrs : nlattrs) (a : nlattr)
    (m : KernelTestMgr) :
  attrs KTF_A_VERSION = Some a ->
  ((KTF_VERSION MAJOR (nla_get_u64 a) <> KTF_VERSION MAJOR latest \/
    KTF_VERSION MINOR (nla_get_u64 a) <> KTF_VERSION MINOR latest) ->
   parse_query latest attrs m =
     (NL_SKIP, m,
      [EvVersionDiff "Error" (version_fields latest) (version_fields (nla_get_u64 a))]))
  /\
  (KTF_VERSION MAJOR (nla_get_u64 a) = KTF_VERSION MAJOR latest ->
   KTF_VERSION MINOR (nla_get_u64 a) = KTF_VERSION MINOR latest ->
   (KTF_VERSION MICRO (nla_get_u64 a) <> KTF_VERSION MICRO latest \/
    KTF_VERSION BUILD (nla_get_u64 a) <> KTF_VERSION BUILD latest) ->
   parse_query latest attrs m =
     ((parse_inventory attrs m).1.1, (parse_inventory attrs m).1.2,
      EvVersionDiff "Note" (version_fields latest) (version_fields (nla_get_u64 a))
        :: (parse_inventory attrs m).2)).
Proof.
  intros Ha. unfold parse_query. rewrite Ha.
  set (kv := nla_get_u64 a). split.
  - intros Hdiff.
    destruct (kv =? latest) eqn:E.
    { apply Z.eqb_eq in E. rewrite E in Hdiff. by destruct Hdiff. }
    cbn [negb].
    assert ((KTF_VERSION MAJOR latest =? KTF_VERSION MAJOR kv)
            && (KTF_VERSION MINOR latest =? KTF_VERSION MINOR kv) = false) as ->.
    { apply andb_false_iff. destruct Hdiff as [H|H]; [left|right];
        apply Z.eqb_neq; congruence. }
    reflexivity.
  - intros Hmaj Hmin Hdiff.
    destruct (kv =? latest) eqn:E.
    { apply Z.eqb_eq in E. rewrite E in Hdiff. by destruct Hdiff. }
    cbn [negb]. rewrite Hmaj, Hmin, !Z.eqb_refl. cbn [andb negb].
    by destruct (parse_inventory attrs m) as [[r m1] evs].
Qed.

(** The versions of the spec's example: local (1,2,0,0), remote (1,3,0,0)
    and (1,2,7,3). *)
Definition query_v1300 : nlattrs :=
  attrs_of (nla_u64 KTF_A_VERSION (mk_version 1 3 0 0) :: inventory_st).

Definition query_v1273 : nlattrs :=
  attrs_of (nla_u64 KTF_A_VERSION (mk_version 1 2 7 3) :: inventory_st).

Lemma parse_query_version_check_witness :
  parse_query (mk_version 1 2 0 0) query_v1300 new_mgr
  = (NL_SKIP, new_mgr,
     [EvVersionDiff "Error" (version_fields (mk_version 1 2 0 0))
        (version_fields (nla_get_u64 (nla_u64 KTF_A_VERSION (mk_version 1 3 0 0))))])
  /\
  parse_query (mk_version 1 2 0 0) query_v1273 new_mgr
  = ((parse_inventory query_v1273 new_mgr).1.1,
     (parse_inventory query_v1273 new_mgr).1.2,
     EvVersionDiff "Note" (version_fields (mk_version 1 2 0 0))
       (version_fields (nla_get_u64 (nla_u64 KTF_A_VERSION (mk_version 1 2 7 3))))
       :: (parse_inventory query_v1273 new_mgr).2).
Proof.
  split.
  - refine (proj1 (parse_query_version_check (mk_version 1 2 0 0) query_v1300
                     (nla_u64 KTF_A_VERSION (mk_version 1 3 0 0)) new_mgr _) _).
    + vm_compute. reflexivity.
    + right. vm_compute. discriminate.
  - refine (proj2 (parse_query_version_check (mk_version 1 2 0 0) query_v1273
                     (nla_u64 KTF_A_VERSION (mk_version 1 2 7 3)) new_mgr _) _ _ _).
    + vm_compute. reflexivity.
    + vm_compute. reflexivity.
    + vm_compute. reflexivity.
    + left. vm_compute. discriminate.
Defined.

(** The two responses of the example, evaluated: the first adds no set,
    the second adds set ["s"] with test ["t"]. *)
Lemma parse_query_version_example :
  parse_query (mk_version 1 2 0 0) query_v1300 new_mgr
  = (NL_SKIP, new_mgr, [EvVersionDiff "Error" (1, 2, 0, 0) (1, 3, 0, 0)])
  /\
  parse_query (mk_version 1 2 0 0) query_v1273 new_mgr
  = (NL_OK, find_add_set (add_test (find_add_set new_mgr "s") "s" "t" 0) "s",
     [EvVersionDiff "Note" (1, 2, 0, 0) (1, 2, 7, 3)]).
Proof. split; vm_compute; reflexivity. Qed.

(** C9, counterexample.  With the local version (1,2,0,0) of the spec's
    example, a query response without a version attribute is taken as
    version 0.1.0.0, found incompatible and dropped: the inventory is not
    parsed. *)
Lemma parse_query_no_version_counterexample :
  attrs_of inventory_st KTF_A_VERSION = None /\
  parse_query (mk_version 1 2 0 0) (attrs_of inventory_st) new_mgr
  = (NL_SKIP, new_mgr, [EvVersionDiff "Error" (1, 2, 0, 0) (0, 1, 0, 0)]).
Proof. vm_compute. split; reflexivity. Qed.

(** C9, as amended.  A query response that omits the version attribute is
    treated as one that reports the legacy version 0.1.0.0 and goes through
    the same check: inventory parsing proceeds when the local version has
    major 0 and minor 1, and the response is dropped, with the registry
    left as it was, when it has not. *)
Theorem parse_query_version_omitted (latest : Z) (attrs : nlattrs) (m : KernelTestMgr) :
  attrs KTF_A_VERSION = None ->
  version_fields legacy_version = (0, 1, 0, 0)
  /\ parse_query latest attrs m = parse_query latest (with_version attrs legacy_version) m
  /\ (KTF_VERSION MAJOR latest = 0 -> KTF_VERSION MINOR latest = 1 ->
      (parse_query latest attrs m).1 = (parse_inventory attrs m).1)
  /\ (KTF_VERSION MAJOR latest <> 0 \/ KTF_VERSION MINOR latest <> 1 ->
      parse_query latest attrs m =
        (NL_SKIP, m,
         [EvVersionDiff "Error" (version_fields latest) (0, 1, 0, 0)])).
Proof.
  intros Ha. split; [reflexivity|]. split; [|split].
  - unfold parse_query. rewrite Ha. reflexivity.
  - intros Hmaj Hmin. unfold parse_query. rewrite Ha.
    destruct (legacy_version =? latest); cbn [negb]; [reflexivity|].
    rewrite Hmaj, Hmin.
    change (KTF_VERSION MAJOR legacy_version) with 0.
    change (KTF_VERSION MINOR legacy_version) with 1.
    change ((0 =? 0) && (1 =? 1)) with true. cbn [negb].
    by destruct (parse_inventory attrs m) as [[r m1] evs].
  - intros Hdiff. unfold parse_query. rewrite Ha.
    destruct (legacy_version =? latest) eqn:E.
    { apply Z.eqb_eq in E. subst latest. destruct Hdiff as [H|H]; by destruct H. }
    cbn [negb].
    change (KTF_VERSION MAJOR legacy_version) with 0.
    change (KTF_VERSION MINOR legacy_version) with 1.
    assert ((KTF_VERSION MAJOR latest =? 0) && (KTF_VERSION MINOR latest =? 1) = false) as ->.
    { apply andb_false_iff. destruct Hdiff as [H|H]; [left|right]; by apply Z.eqb_neq. }
    reflexivity.
Qed.

Lemma parse_query_version_omitted_witness :
  (parse_query (mk_version 0 1 4 0) (attrs_of inventory_st) new_mgr).1
  = (parse_inventory (attrs_of inventory_st) new_mgr).1
  /\ parse_query (mk_version 1 2 0 0) (attrs_of inventory_st) new_mgr
     = (NL_SKIP, new_mgr,
        [EvVersionDiff "Error" (version_fields (mk_version 1 2 0 0)) (0, 1, 0, 0)]).
Proof.
  split.
  - refine (proj1 (proj2 (proj2 (parse_query_version_omitted (mk_version 0 1 4 0)
              (attrs_of inventory_st) new_mgr _))) _ _);
      vm_compute; reflexivity.
  - refine (proj2 (proj2 (proj2 (parse_query_version_omitted (mk_version 1 2 0 0)
              (attrs_of inventory_st) new_mgr _))) _).
    + vm_compute. reflexivity.
    + left. vm_compute. discriminate.
Defined.

(** ** Claim on ordinals *)

(** A kernel set ["A"], then a wrapper registered for a set ["W"] the
    kernel has not reported. *)
Definition mgr_wrapper_only : KernelTestMgr :=
  add_wrapper (find_add_set new_mgr "A") "W" "t" (Some 1%nat).

(** C6, counterexample.  The set ["W"], created by [add_wrapper], holds the
    ordinal 0 that ["A"] was assigned: two sets with different names hold
    the same ordinal.  The ordinal of ["W"] is not assigned at its first
    reference either: a later [find_add_set] changes it to 1. *)
Lemma ordinal_shared_counterexample :
  ordinal_of mgr_wrapper_only "A" = Some 0 /\
  ordinal_of mgr_wrapper_only "W" = Some 0 /\
  "A" <> "W" /\
  ordinal_of (find_add_set mgr_wrapper_only "W") "W" = Some 1.
Proof. vm_compute. repeat split; discriminate. Qed.

(** C6, as amended.  Every registry operation (find-or-create of sets and
    tests, test creation, wrapper registration, test lookup, enumeration)
    preserves the invariant [ordinals_ok]: the sets that went through
    find-or-create hold pairwise different ordinals, and a set that only
    wrapper registration or lookup created holds the default 0.  An ordinal
    is assigned at the first find-or-create of the name, is the value of
    [next_set] at that moment, and no later operation changes it; a second
    find-or-create of a name returns the same ordinal. *)
Theorem registry_ops_preserve_ordinals (op : registry_op) (m m' : KernelTestMgr) :
  ordinals_ok m -> next_set m < INT_MAX -> apply_op op m = Some m' ->
  ordinals_ok m' /\ ordinals_kept m m' /\ ordinals_fresh m m' /\
  (forall s, setnum (sets_at (find_add_set (find_add_set m s) s) s)
             = setnum (sets_at (find_add_set m s) s)).
Proof.
  intros Hok Hlt Hop.
  cut (ordinals_ok m' /\ ordinals_kept m m' /\ ordinals_fresh m m').
  { intros (H1 & H2 & H3).
    split; [exact H1|]. split; [exact H2|]. split; [exact H3|].
    intros s. apply find_add_set_twice. }
  destruct (apply_op_ord op m m' Hop) as [Hext|[s Hnew]];
    eauto using ordinals_ok_ext, ordinals_ok_new.
Qed.

Lemma registry_ops_preserve_ordinals_witness :
  ordinals_ok (add_test new_mgr "B" "t" 0).
Proof.
  refine (proj1 (registry_ops_preserve_ordinals (OpAddTest "B" "t" 0) new_mgr
                   (add_test new_mgr "B" "t" 0) ordinals_ok_new_mgr _ _)).
  - vm_compute. reflexivity.
  - reflexivity.
Defined.

(** ** Claims on wrapper binding and expanded names *)

(** C7.  For a test [(s, t)] that does not exist yet, registering the
    wrapper [cb] before the kernel test is created and registering it after
    the creation give the same registry; in it the [KernelTest] of [(s, t)]
    has [cb] as its [user_test], and the set holds no pending wrapper for
    [t]. *)
Theorem wrapper_binding_order_independent (m : KernelTestMgr) (s t : string)
    (cb : option test_cb) (hid : Z) :
  tests_at (sets_at m s) t = None ->
  add_test (add_wrapper m s t cb) s t hid = add_wrapper (add_test m s t hid) s t cb
  /\ user_test <$> tests_at (sets_at (add_test (add_wrapper m s t cb) s t hid) s) t
     = Some cb
  /\ wrapper (sets_at (add_test (add_wrapper m s t cb) s t hid) s) !! t = None.
Proof.
  intros Hnew.
  split; [|split].
  - rewrite (add_wrapper_eq (add_test m s t hid)), sets_at_add_test.
    rewrite (add_wrapper_eq m), (add_wrapper_set_new _ _ _ Hnew).
    unfold add_wrapper_set. rewrite tests_at_built_set.
    rewrite !add_test_eq. cbv zeta.
    unfold sets_store, set_sets.
    cbn [sets mgr_test_names set_names kernelsets handle_to_ctxvec cfg_contexts
         next_set cur].
    rewrite !insert_insert_eq. f_equal. f_equal.
    unfold built_set, built_test, expanded_names, sets_at, set_tests, set_user_test.
    cbn [sets mgr_test_names set_names kernelsets handle_to_ctxvec cfg_contexts
         next_set cur].
    rewrite !lookup_insert_eq.
    cbn [default tests test_names wrapper setnum from_option id
         kt_setname kt_testname kt_setnum kt_testnum user_priv user_priv_sz
         user_test kt_file kt_line kt_name].
    rewrite !lookup_insert_eq, !insert_insert_eq, delete_insert_eq.
    cbn [default from_option id]. reflexivity.
  - rewrite sets_at_add_test, tests_at_built_set. cbn [fmap option_fmap option_map].
    unfold built_test. cbn [user_test].
    rewrite add_wrapper_eq, sets_at_store, (add_wrapper_set_new _ _ _ Hnew).
    cbn [wrapper]. by rewrite lookup_insert_eq.
  - rewrite sets_at_add_test. unfold built_set. cbn [wrapper].
    apply lookup_delete_eq.
Qed.


Lemma wrapper_binding_order_independent_witness :
  add_test (add_wrapper new_mgr "set" "ping" (Some 7%nat)) "set" "ping" 0
  = add_wrapper (add_test new_mgr "set" "ping" 0) "set" "ping" (Some 7%nat).
Proof.
  refine (proj1 (wrapper_binding_order_independent new_mgr "set" "ping"
                   (Some 7%nat) 0 _)).
  vm_compute. reflexivity.
Defined.

(** Handle 5 owns the contexts ["ctxA"] and ["ctxB"]; the test ["ping"] of
    set ["set"] is registered under handle 5. *)
Definition mgr_ping : KernelTestMgr :=
  add_test (add_cset new_mgr 5 ["ctxA"; "ctxB"]) "set" "ping" 5.

(** C8.  Creating a kernel test under a handle id that is not zero appends
    to the name list of its set one entry test_name + "_" + context_name
    for each context name of the handle, in the order of the context list;
    a test with handle id zero appends its bare name once.  With handle 5
    owning ["ctxA"; "ctxB"] and test "ping" under handle 5 the list is
    "ping_ctxA", "ping_ctxB", and [find_test] on "ping_ctxA" returns the
    "ping" record with the context "ctxA". *)
Theorem add_test_expanded_names (m : KernelTestMgr) (s t : string) (hid : Z) :
  test_names (sets_at (add_test m s t hid) s)
  = test_names (sets_at m s)
    ++ (if hid =? 0 then [t]
        else List.map (fun c => t +:+ "_" +:+ c)
                      (default [] (handle_to_ctxvec m !! hid)))
  /\ test_names (sets_at mgr_ping "set") = ["ping_ctxA"; "ping_ctxB"]
  /\ forall (fuel : nat) (pctx : string),
       match find_test (S fuel) mgr_ping "set" "ping_ctxA" pctx with
       | Returns (_, ctx, Some kt) =>
           ctx = "ctxA" /\ kt_testname kt = "ping" /\ kt_setname kt = "set" /\
           tests_at (sets_at mgr_ping "set") "ping" = Some kt
       | _ => False
       end.
Proof.
  split; [|split].
  - rewrite add_test_eq. unfold sets_at at 1. simpl. by rewrite lookup_insert_eq.
  - vm_compute. reflexivity.
  - intros fuel pctx. vm_compute. repeat split.
Qed.

(** ** Claim on find_test *)

(** C1, the defect.  When a context list has been registered and the name
    is neither a test of the set nor contains an underscore, [find_test]
    does not return: [find_last_of] gives [npos], the test [pos >= 0] of the
    [size_t] holds, [substr(0, npos)] is the whole name again, and the loop
    repeats in the same state whatever the number of iterations allowed. *)
Theorem find_test_no_underscore_loops (m : KernelTestMgr) (s t pctx : string) :
  tests_at (sets_at m s) t = None ->
  handle_to_ctxvec m <> ∅ ->
  rfind_char "_" t = None ->
  Z.of_nat (String.length t) <= SIZE_MAX ->
  forall fuel : nat, find_test fuel m s t pctx = OutOfFuel.
Proof.
  intros Hnone Hctx Hus Hlen fuel. unfold find_test.
  pose proof (find_test_loop_npos m s t Hnone Hus Hlen fuel pctx) as Hloop.
  rewrite lookup_test_eq in Hloop |- *. simpl in Hloop. rewrite Hnone.
  rewrite bool_decide_eq_false_2 by done.
  unfold find_last_of. by rewrite Hus.
Qed.

Lemma find_test_no_underscore_loops_witness :
  find_test 1000 (add_cset new_mgr 5 ["ctxA"]) "s" "foo" "" = OutOfFuel.
Proof.
  refine (find_test_no_underscore_loops (add_cset new_mgr 5 ["ctxA"]) "s" "foo" ""
            _ _ _ _ 1000%nat).
  - vm_compute. reflexivity.
  - vm_compute. discriminate.
  - vm_compute. reflexivity.
  - vm_compute. discriminate.
Defined.

(** * Further properties of the registry *)

(** X1.  [find_add_set] is idempotent: a second find-or-create of the same
    name leaves the whole registry as the first one left it. *)
Theorem find_add_set_idempotent (m : KernelTestMgr) (s : string) :
  find_add_set (find_add_set m s) s = find_add_set m s.
Proof.
  unfold find_add_set at 1.
  rewrite bool_decide_eq_false_2 by (intros H; apply H, find_add_set_member).
  apply sets_touch_present, find_add_set_present.
Qed.

(** X2.  [add_wrapper] is last-writer-wins: registering a second wrapper
    for the same test replaces the first, whether the kernel test exists
    (the bound callback is overwritten) or not (the pending entry is
    overwritten). *)
Theorem add_wrapper_last_wins (m : KernelTestMgr) (s t : string)
    (cb1 cb2 : option test_cb) :
  add_wrapper (add_wrapper m s t cb1) s t cb2 = add_wrapper m s t cb2.
Proof.
  rewrite (add_wrapper_eq (add_wrapper m s t cb1)), !(add_wrapper_eq m).
  rewrite sets_at_store. unfold sets_store, set_sets. cbn [sets mgr_test_names
    set_names kernelsets handle_to_ctxvec cfg_contexts next_set cur].
  rewrite insert_insert_eq. do 2 f_equal.
  unfold add_wrapper_set at 2 3.
  destruct (tests_at (sets_at m s) t) as [kt|] eqn:E.
  - unfold add_wrapper_set, tests_at, set_tests. cbn [tests test_names wrapper setnum].
    rewrite lookup_insert_eq. cbn [default from_option id].
    by rewrite insert_insert_eq.
  - unfold add_wrapper_set, tests_at. cbn [tests test_names wrapper setnum].
    rewrite lookup_insert_eq. cbn [default from_option id].
    by rewrite !insert_insert_eq.
Qed.

(** X3.  No registry operation removes a test, and the record a direct
    lookup of [(s, t)] reads changes only by [add_test] or [add_wrapper] of
    that very test; [find_test], [find_add_set], enumeration and the
    context operations never change what any lookup reads. *)
Theorem lookup_changes_only_when_targeted (op : registry_op) (m m' : KernelTestMgr)
    (s t : string) :
  apply_op op m = Some m' ->
  (~ op_targets op s t -> test_at m' s t = test_at m s t)
  /\ (is_Some (test_at m s t) -> is_Some (test_at m' s t)).
Proof.
  intros Hop. rewrite (test_at_apply_op op m m' s t Hop). split.
  - intros Hnot. destruct op; try done; cbn [op_targets] in Hnot;
      by rewrite decide_False.
  - intros Hsome. destruct op; try done.
    + case_decide; [eauto|done].
    + case_decide as Hd; [|done]. destruct Hd as [-> ->].
      destruct Hsome as [kt ->]. cbn. eauto.
Qed.

Lemma lookup_changes_only_when_targeted_witness :
  test_at (add_wrapper mgr_ping "set" "pong" (Some 3%nat)) "set" "ping"
  = test_at mgr_ping "set" "ping".
Proof.
  refine (proj1 (lookup_changes_only_when_targeted
                   (OpAddWrapper "set" "pong" (Some 3%nat)) mgr_ping
                   (add_wrapper mgr_ping "set" "pong" (Some 3%nat)) "set" "ping" _) _).
  - vm_compute. reflexivity.
  - cbn [op_targets]. intros [_ H]. discriminate H.
Defined.

(** X4.  In every registry reached from the empty one (without overflow of
    the [int] counter), [get_set_names] lists each set that went through
    find-or-create exactly once, in the order of first registration; the
    ordinal of a set is its index in that list, and [next_set] is the
    length of the list. *)
Theorem set_names_index_ordinals (ops : list registry_op) (m : KernelTestMgr) :
  Z.of_nat (length ops) <= INT_MAX ->
  apply_ops ops new_mgr = Some m ->
  NoDup (get_set_names m)
  /\ (forall s, s ∈ get_set_names m <-> s ∈ kernelsets m)
  /\ next_set m = Z.of_nat (length (get_set_names m))
  /\ (forall (i : nat) s, get_set_names m !! i = Some s ->
                          ordinal_of m s = Some (Z.of_nat i)).
Proof.
  intros Hlen Hrun.
  destruct (names_ok_apply_ops ops new_mgr m names_ok_new_mgr) as [[H1 H2 H3 H4] _];
    [unfold new_mgr; cbn [next_set]; lia|done|].
  unfold get_set_names. split; [exact H1|]. split; [exact H2|]. split; [exact H3|exact H4].
Qed.

Lemma set_names_index_ordinals_witness :
  NoDup (get_set_names mgr_mixed).
Proof.
  refine (proj1 (set_names_index_ordinals
                   [OpFindAddSet "a"; OpAddTest "b" "t" 0;
                    OpAddWrapper "b" "u" (Some 1%nat); OpAddTest "c" "t" 0]
                   mgr_mixed _ _)).
  - vm_compute. discriminate.
  - vm_compute. reflexivity.
Defined.

(** X5.  A direct hit: when [(s, t)] names an existing test, [find_test]
    returns its record with an empty context at once (no loop iteration is
    needed) and leaves the registry as it is. *)
Theorem find_test_direct_hit (fuel : nat) (m : KernelTestMgr) (s t pctx : string)
    (kt : KernelTest) :
  test_at m s t = Some kt ->
  find_test fuel m s t pctx = Returns (m, "", Some kt).
Proof.
  intros Hkt. unfold find_test. by rewrite (lookup_test_found m s t kt Hkt).
Qed.

Lemma find_test_direct_hit_witness :
  find_test 0 mgr_ping "set" "ping" "old"
  = Returns (mgr_ping, "", Some (built_test (add_cset new_mgr 5 ["ctxA"; "ctxB"]) "set" "ping")).
Proof.
  refine (find_test_direct_hit 0 mgr_ping "set" "ping" "old" _ _).
  vm_compute. reflexivity.
Defined.

(** X6.  Without any registered context list a failed lookup returns
    not-found at once and leaves [*pctx] alone.  It is not free of effects:
    [operator[]] has created the set and a [NULL] entry for the name, but
    what lookups read, the kernel sets and the set names are unchanged. *)
Theorem find_test_without_contexts (fuel : nat) (m : KernelTestMgr) (s t pctx : string) :
  handle_to_ctxvec m = ∅ -> test_at m s t = None ->
  exists m', find_test fuel m s t pctx = Returns (m', pctx, None)
    /\ is_Some (sets m' !! s)
    /\ tests (sets_at m' s) !! t = Some None
    /\ (forall s' t', test_at m' s' t' = test_at m s' t')
    /\ kernelsets m' = kernelsets m /\ set_names m' = set_names m.
Proof.
  intros Hctx Hnone. exists (lookup_test m s t).1.
  unfold find_test.
  pose proof (lookup_test_snd m s t) as Hsnd.
  pose proof (handle_to_ctxvec_lookup_test m s t) as Hh.
  pose proof (test_at_lookup_test m s t) as Hfr.
  pose proof (set_names_lookup_test m s t) as Hn.
  destruct (lookup_test m s t) as [m1 k] eqn:E. cbn [fst snd] in *.
  rewrite Hsnd, Hnone, Hh, Hctx. rewrite bool_decide_eq_true_2 by done.
  split; [done|]. rewrite lookup_test_eq in E. injection E as <- _.
  split; [|split; [|split; [done|split; [done|done]]]].
  - unfold sets_store. cbn [sets set_sets]. by rewrite lookup_insert_eq.
  - rewrite sets_at_store. unfold test_at in Hnone.
    rewrite (tests_touch_None _ _ Hnone). by rewrite lookup_insert_eq.
Qed.

Lemma find_test_without_contexts_witness :
  exists m', find_test 0 new_mgr "s" "foo" "old" = Returns (m', "old", None)
    /\ is_Some (sets m' !! "s")
    /\ tests (sets_at m' "s") !! "foo" = Some None
    /\ (forall s' t', test_at m' s' t' = test_at new_mgr s' t')
    /\ kernelsets m' = kernelsets new_mgr /\ set_names m' = set_names new_mgr.
Proof.
  refine (find_test_without_contexts 0 new_mgr "s" "foo" "old" _ _);
    vm_compute; reflexivity.
Defined.

(** X7.  [find_test] never throws, and it returns not-found only when no
    context list is registered: once [handle_to_ctxvec] is not empty, the
    [return NULL] behind the loop is unreachable, so a call either finds a
    test or does not return. *)
Theorem find_test_outcomes (fuel : nat) (m : KernelTestMgr) (s t pctx : string) :
  Z.of_nat (String.length t) <= SIZE_MAX ->
  match find_test fuel m s t pctx with
  | Returns (_, _, None) => handle_to_ctxvec m = ∅
  | Returns (_, _, Some _) => True
  | Throws => False
  | OutOfFuel => True
  end.
Proof.
  intros Hlen. unfold find_test.
  pose proof (handle_to_ctxvec_lookup_test m s t) as Hh.
  destruct (lookup_test m s t) as [m1 [k|]]; cbn [fst] in Hh; [done|].
  case_bool_decide as Hd; [congruence|].
  destruct (find_test_loop_outcomes fuel m1 s t pctx (find_last_of t "_") Hlen
              (find_last_of_range t "_")) as [->|(m' & ctx & kt & ->)]; done.
Qed.

Lemma find_test_outcomes_witness :
  match find_test 5 (add_cset new_mgr 5 ["ctxA"]) "s" "a_b" "" with
  | Returns (_, _, None) => handle_to_ctxvec (add_cset new_mgr 5 ["ctxA"]) = ∅
  | Returns (_, _, Some _) => True
  | Throws => False
  | OutOfFuel => True
  end.
Proof.
  refine (find_test_outcomes 5 (add_cset new_mgr 5 ["ctxA"]) "s" "a_b" "" _).
  vm_compute. discriminate.
Defined.

(** X8.  Resolution of a name with a context suffix.  Let [base] be a test
    of the set and let the name be [base + "_" + ctx]; if neither the name
    nor any prefix of it that ends before a later underscore is a test,
    [find_test] returns the record of [base] with the context [ctx], within
    one iteration per character of [ctx], and changes nothing a lookup
    reads.  The context may itself contain underscores. *)
Theorem find_test_resolves_context (m : KernelTestMgr) (s base ctx pctx : string)
    (kt : KernelTest) :
  test_at m s base = Some kt ->
  test_at m s (base +:+ "_" +:+ ctx) = None ->
  (forall u : nat, (String.length base < u)%nat ->
     String.get u (base +:+ "_" +:+ ctx) = Some "_"%char ->
     test_at m s (substring 0 u (base +:+ "_" +:+ ctx)) = None) ->
  handle_to_ctxvec m <> ∅ ->
  Z.of_nat (String.length (base +:+ "_" +:+ ctx)) <= SIZE_MAX ->
  exists m',
    find_test (S (String.length ctx)) m s (base +:+ "_" +:+ ctx) pctx
      = Returns (m', ctx, Some kt)
    /\ forall s' t', test_at m' s' t' = test_at m s' t'.
Proof.
  intros Hbase Hname Hnone Hctx Hlen. unfold find_test.
  pose proof (lookup_test_snd m s (base +:+ "_" +:+ ctx)) as Hsnd.
  pose proof (handle_to_ctxvec_lookup_test m s (base +:+ "_" +:+ ctx)) as Hh.
  pose proof (test_at_lookup_test m s (base +:+ "_" +:+ ctx)) as Hfr.
  destruct (lookup_test m s (base +:+ "_" +:+ ctx)) as [m1 k]. cbn [fst snd] in *.
  rewrite Hsnd, Hname, Hh. rewrite bool_decide_eq_false_2 by done.
  destruct (rfind_char_occurs _ _ _ (name_get_L base ctx)) as (i & Hi & HLi & Hgi).
  unfold find_last_of. rewrite Hi.
  pose proof (get_Some_lt _ _ _ Hgi) as Hilt. rewrite name_length in Hilt.
  destruct (find_test_loop_resolves s base ctx kt (S (String.length ctx)) m1 pctx i)
    as (m' & Hm' & Hfr'); try done; try lia.
  - by rewrite Hfr.
  - intros u Hu Hgu. rewrite Hfr. by apply Hnone.
  - exists m'. split; [done|]. intros s' t'. by rewrite Hfr', Hfr.
Qed.

(** A test ["ping"] under a handle whose context name holds an underscore. *)
Definition mgr_ping_ab : KernelTestMgr :=
  add_test (add_cset new_mgr 5 ["ctx_a"]) "set" "ping" 5.

Lemma find_test_resolves_context_witness :
  exists m',
    find_test (S (String.length "ctx_a")) mgr_ping_ab "set" ("ping" +:+ "_" +:+ "ctx_a") ""
      = Returns (m', "ctx_a", Some (built_test (add_cset new_mgr 5 ["ctx_a"]) "set" "ping"))
    /\ forall s' t', test_at m' s' t' = test_at mgr_ping_ab s' t'.
Proof.
  refine (find_test_resolves_context mgr_ping_ab "set" "ping" "ctx_a" ""
            (built_test (add_cset new_mgr 5 ["ctx_a"]) "set" "ping") _ _ _ _ _).
  - vm_compute. reflexivity.
  - vm_compute. reflexivity.
  - intros u Hu Hget.
    assert (u = 8%nat) as ->.
    { do 9 (destruct u as [|u]; [cbn in Hu, Hget; try lia; try discriminate; try reflexivity|]).
      do 2 (destruct u as [|u]; [discriminate Hget|]). discriminate Hget. }
    vm_compute. reflexivity.
  - vm_compute. discriminate.
  - vm_compute. discriminate.
Defined.

(** * Further properties: contexts, re-creation, private data *)

(** X9.  [find_contexts] reads back what [add_configurable_context] stored:
    the contexts of a name are kept in the order they were added, a name
    never added has none, and no other registry operation changes them. *)
Theorem find_contexts_after_op (op : registry_op) (m m' : KernelTestMgr) (name : string) :
  apply_op op m = Some m' ->
  find_contexts m' name =
    match op with
    | OpAddConfigurableContext ctx ty hid st =>
        if decide (ctx = name)
        then find_contexts m name ++ [ConfigurableContext_ctor ctx ty hid st]
        else find_contexts m name
    | _ => find_contexts m name
    end
  /\ find_contexts new_mgr name = [].
Proof.
  intros Hop. split; [|done].
  unfold find_contexts at 1. rewrite (cfg_contexts_apply_op op m m' Hop).
  destruct op; try done.
  case_decide as Hd.
  - subst. by rewrite lookup_insert_eq.
  - by rewrite lookup_insert_ne.
Qed.

Lemma find_contexts_after_op_witness :
  find_contexts (add_configurable_context new_mgr "ctxA" 7 5 2) "ctxA" =
    (if decide ("ctxA" = "ctxA")
     then find_contexts new_mgr "ctxA" ++ [ConfigurableContext_ctor "ctxA" 7 5 2]
     else find_contexts new_mgr "ctxA").
Proof.
  refine (proj1 (find_contexts_after_op (OpAddConfigurableContext "ctxA" 7 5 2) new_mgr
                   (add_configurable_context new_mgr "ctxA" 7 5 2) "ctxA" _)).
  reflexivity.
Defined.

(** X10.  [add_cset] replaces the context list of a handle wholesale and
    [get_contexts] reads it back without changing the registry; the lists
    of other handles are not touched. *)
Theorem add_cset_get_contexts (m : KernelTestMgr) (hid hid' : Z) (c1 c2 : stringvec) :
  get_contexts (add_cset m hid c2) hid = (add_cset m hid c2, c2)
  /\ add_cset (add_cset m hid c1) hid c2 = add_cset m hid c2
  /\ (hid <> hid' ->
      handle_to_ctxvec (add_cset m hid c2) !! hid' = handle_to_ctxvec m !! hid').
Proof.
  split; [|split].
  - unfold get_contexts, add_cset. cbn [handle_to_ctxvec set_handle_to_ctxvec].
    by rewrite lookup_insert_eq.
  - unfold add_cset, set_handle_to_ctxvec. cbn [handle_to_ctxvec sets mgr_test_names
      set_names kernelsets cfg_contexts next_set cur]. by rewrite insert_insert_eq.
  - intros Hne. unfold add_cset. cbn [handle_to_ctxvec set_handle_to_ctxvec].
    by rewrite lookup_insert_ne.
Qed.

Lemma add_cset_get_contexts_witness :
  handle_to_ctxvec (add_cset new_mgr 1 ["a"]) !! 2 = handle_to_ctxvec new_mgr !! 2.
Proof.
  refine (proj2 (proj2 (add_cset_get_contexts new_mgr 1 2 [] ["a"])) _).
  discriminate.
Defined.

(** X11.  A test created under a handle id that is not zero and has no
    context list gets a record that a direct lookup finds, but contributes
    no name at all to the enumerable list of its set; the constructor also
    registers an empty context list for the handle, so the registry no
    longer counts as free of contexts. *)
Theorem add_test_unknown_handle (m : KernelTestMgr) (s t : string) (hid : Z) :
  hid <> 0 -> handle_to_ctxvec m !! hid = None ->
  test_names (sets_at (add_test m s t hid) s) = test_names (sets_at m s)
  /\ is_Some (test_at (add_test m s t hid) s t)
  /\ handle_to_ctxvec (add_test m s t hid) !! hid = Some []
  /\ handle_to_ctxvec (add_test m s t hid) <> ∅.
Proof.
  intros Hhid Hnone.
  assert (Hh : handle_to_ctxvec (add_test m s t hid) = <[hid := []]> (handle_to_ctxvec m)).
  { rewrite add_test_eq. cbv zeta. cbn [handle_to_ctxvec].
    destruct (Z.eqb_spec hid 0); [done|]. by rewrite Hnone. }
  split; [|split; [|split]].
  - rewrite sets_at_add_test. unfold built_set. cbn [test_names].
    unfold expanded_names. unfold stringvec in *. rewrite Hnone.
    destruct (Z.eqb_spec hid 0); [done|]. cbn. apply app_nil_r.
  - rewrite test_at_add_test. rewrite decide_True by done. eauto.
  - rewrite Hh. apply lookup_insert_eq.
  - rewrite Hh. apply insert_non_empty.
Qed.

Lemma add_test_unknown_handle_witness :
  test_names (sets_at (add_test new_mgr "set" "ping" 5) "set")
  = test_names (sets_at new_mgr "set").
Proof.
  refine (proj1 (add_test_unknown_handle new_mgr "set" "ping" 5 _ _)).
  - discriminate.
  - vm_compute. reflexivity.
Defined.

(** X12.  Creating a test a second time (as a second query does) replaces
    its record by a fresh one: the wrapper that was bound to the first
    record is forgotten, whatever the handle ids, while the number of
    entries of the set and so the test's number stay the same. *)
Theorem add_test_again_forgets_wrapper (m : KernelTestMgr) (s t : string)
    (cb : option test_cb) (hid hid' : Z) :
  let m1 := add_wrapper (add_test m s t hid) s t cb in
  user_test <$> test_at m1 s t = Some cb
  /\ user_test <$> test_at (add_test m1 s t hid') s t = Some None
  /\ kt_testnum <$> test_at (add_test m1 s t hid') s t = kt_testnum <$> test_at m1 s t.
Proof.
  cbv zeta.
  assert (Hw : wrapper (sets_at (add_wrapper (add_test m s t hid) s t cb) s) !! t = None).
  { rewrite add_wrapper_eq, sets_at_store, sets_at_add_test.
    unfold add_wrapper_set. rewrite tests_at_built_set.
    unfold built_set, set_tests. cbn [wrapper]. apply lookup_delete_eq. }
  assert (Ht : tests (sets_at (add_wrapper (add_test m s t hid) s t cb) s)
               = <[t := Some (set_user_test (built_test m s t) cb)]>
                   (tests (sets_at m s))).
  { rewrite add_wrapper_eq, sets_at_store, sets_at_add_test.
    unfold add_wrapper_set. rewrite tests_at_built_set.
    unfold built_set, set_tests. cbn [tests]. by rewrite insert_insert_eq. }
  split; [|split].
  - rewrite test_at_add_wrapper, decide_True by done.
    rewrite test_at_add_test, decide_True by done. done.
  - rewrite test_at_add_test, decide_True by done.
    unfold built_test. cbn [fmap option_fmap option_map user_test]. by rewrite Hw.
  - rewrite test_at_add_test, decide_True by done.
    rewrite test_at_add_wrapper, decide_True by done.
    rewrite test_at_add_test, decide_True by done.
    unfold built_test. cbn [fmap option_fmap option_map kt_testnum set_user_test].
    rewrite Ht. by rewrite !insert_insert_eq.
Qed.

(** X13.  [get_priv] allocates once: after a call that got a block, every
    later call returns that same block and leaves the test as it is, so the
    size of the first request stays in [user_priv_sz] whatever size is
    asked for later; a call whose [malloc] fails changes nothing. *)
Theorem get_priv_allocates_once (kt : KernelTest) (sz1 sz2 : Z) (p : list Z)
    (r2 : option (list Z)) :
  user_priv kt = None ->
  let kt1 := (get_priv kt sz1 (Some p)).1 in
  (get_priv kt sz1 (Some p)).2 = Some p
  /\ get_priv_sz kt1 = sz1
  /\ get_priv kt1 sz2 r2 = (kt1, Some p)
  /\ get_priv kt sz1 None = (kt, None).
Proof.
  intros Hnone. cbv zeta. unfold get_priv. rewrite Hnone. cbn. done.
Qed.

Lemma get_priv_allocates_once_witness :
  get_priv (get_priv (built_test new_mgr "s" "t") 16 (Some [0; 0])).1 64 (Some [1])
  = ((get_priv (built_test new_mgr "s" "t") 16 (Some [0; 0])).1, Some [0; 0]).
Proof.
  refine (proj1 (proj2 (proj2 (get_priv_allocates_once (built_test new_mgr "s" "t")
                                 16 64 [0; 0] (Some [1]) _)))).
  reflexivity.
Defined.

(** * Further properties of the response interpreters *)

(** X14.  Whatever a query response holds, [parse_query] keeps the
    invariants of the registry: the ordinals stay pairwise different, the
    set names stay the list of the kernel sets indexed by ordinal, no kernel
    set is forgotten and no test is removed (as long as the [int] counter
    [next_set] has room for one set per attribute). *)
Theorem parse_query_keeps_invariants (latest : Z) (attrs : nlattrs) (m : KernelTestMgr) :
  ordinals_ok m -> names_ok m ->
  next_set m + Z.of_nat (query_size attrs) <= INT_MAX ->
  ordinals_ok (parse_query latest attrs m).1.2
  /\ names_ok (parse_query latest attrs m).1.2
  /\ kernelsets m ⊆ kernelsets (parse_query latest attrs m).1.2
  /\ forall s t, is_Some (test_at m s t) ->
                 is_Some (test_at (parse_query latest attrs m).1.2 s t).
Proof.
  intros Hord Hnames Hroom.
  destruct (parse_query_ops latest attrs m) as (ops & Hlen & Hops).
  split; [|split; [|split]].
  - eapply apply_ops_ordinals_ok; [exact Hord| |exact Hops]. lia.
  - eapply names_ok_apply_ops; [exact Hnames| |exact Hops]. lia.
  - eapply apply_ops_kernelsets, Hops.
  - intros s t. eapply apply_ops_tests_persist, Hops.
Qed.

Lemma parse_query_keeps_invariants_witness :
  ordinals_ok (parse_query (mk_version 1 2 0 0) query_v1273 new_mgr).1.2.
Proof.
  refine (proj1 (parse_query_keeps_invariants (mk_version 1 2 0 0) query_v1273 new_mgr
                   ordinals_ok_new_mgr names_ok_new_mgr _)).
  vm_compute. discriminate.
Defined.

(** X15.  A query response without a set count is refused: [parse_query]
    returns -1 (or [NL_SKIP], if the version or the handle table was refused
    before) and adds no set and no test, even when the response carries a
    set list; only the context tables may have been updated from the handle
    table. *)
Theorem parse_query_without_set_count (latest : Z) (attrs : nlattrs) (m : KernelTestMgr) :
  attrs KTF_A_NUM = None ->
  ((parse_query latest attrs m).1.1 = -1 \/ (parse_query latest attrs m).1.1 = NL_SKIP)
  /\ registry_core (parse_query latest attrs m).1.2 = registry_core m.
Proof.
  intros Hnum.
  assert (((parse_inventory attrs m).1.1 = -1 \/ (parse_inventory attrs m).1.1 = NL_SKIP)
          /\ registry_core (parse_inventory attrs m).1.2 = registry_core m) as Hinv.
  { unfold parse_inventory. rewrite Hnum.
    destruct (attrs KTF_A_HLIST) as [a|].
    - destruct (parse_hlist_ops (nla_nested a) 0 0 "" [] m) as (_ & _ & _ & Hcore).
      destruct (parse_hlist_status (nla_nested a) 0 0 "" [] m) as [Hst|Hst];
        destruct (parse_hlist (nla_nested a) 0 0 "" [] m) as [[stat m1] ev1];
        cbn [fst snd] in *; subst stat; cbn; auto.
    - cbn. auto. }
  unfold parse_query.
  destruct (negb _); [|exact Hinv].
  destruct (negb _); [split; [by right|done]|].
  destruct (parse_inventory attrs m) as [[r m1] evs]. exact Hinv.
Qed.

(** A response with a set list but no set count. *)
Definition query_no_count : nlattrs :=
  attrs_of [nla_nest KTF_A_LIST
              [nla_str KTF_A_STR "s"; nla_nest KTF_A_TEST [nla_str KTF_A_STR "t"]]].

Lemma parse_query_without_set_count_witness :
  registry_core (parse_query (mk_version 1 2 0 0) query_no_count new_mgr).1.2
  = registry_core new_mgr.
Proof.
  refine (proj2 (parse_query_without_set_count (mk_version 1 2 0 0) query_no_count
                   new_mgr _)).
  reflexivity.
Defined.

(** X16.  Every set name a query response announces is registered as a
    kernel set once the set list has been parsed to its end, whether tests
    follow the name or not. *)
Theorem parse_query_registers_announced_sets (attrs : nlattrs) (a : nlattr)
    (m : KernelTestMgr) :
  attrs KTF_A_LIST = Some a ->
  (parse_inventory attrs m).1.1 = NL_OK ->
  forall nla, nla ∈ nla_nested a -> nla_type nla = KTF_A_STR ->
    string_of (nla_get_string nla) ∈ kernelsets (parse_inventory attrs m).1.2.
Proof.
  intros Ha. unfold parse_inventory. rewrite Ha.
  destruct (match attrs KTF_A_HLIST with
            | Some a0 => parse_hlist (nla_nested a0) 0 0 "" [] m
            | None => (NL_OK, m, [])
            end) as [[stat m1] ev1].
  destruct (negb (stat =? NL_OK)) eqn:Est.
  { cbn [fst]. intros ->. discriminate Est. }
  destruct (attrs KTF_A_NUM); [|discriminate].
  pose proof (parse_set_list_announced (nla_nested a) "" m1) as H.
  destruct (parse_set_list (nla_nested a) "" m1) as [[r m2] ev2]. exact H.
Qed.

(** A response that announces the sets ["s"] (with a test) and ["empty"]. *)
Definition query_two_sets : nlattrs :=
  attrs_of [nla_u32 KTF_A_NUM 2;
            nla_nest KTF_A_LIST
              [nla_str KTF_A_STR "s"; nla_nest KTF_A_TEST [nla_str KTF_A_STR "t"];
               nla_str KTF_A_STR "empty"]].

Lemma parse_query_registers_announced_sets_witness :
  string_of (nla_get_string (nla_str KTF_A_STR "empty"))
    ∈ kernelsets (parse_inventory query_two_sets new_mgr).1.2.
Proof.
  refine (parse_query_registers_announced_sets query_two_sets
            (nla_nest KTF_A_LIST
               [nla_str KTF_A_STR "s"; nla_nest KTF_A_TEST [nla_str KTF_A_STR "t"];
                nla_str KTF_A_STR "empty"])
            new_mgr _ _ (nla_str KTF_A_STR "empty") _ _).
  - reflexivity.
  - vm_compute. reflexivity.
  - cbn [nla_nested]. do 2 apply list_elem_of_further. apply list_elem_of_here.
  - reflexivity.
Defined.

(** X17.  For any run response, [parse_result] calls the handler at most
    (number of status entries + 1) times and not at all when the response
    has no check list; it returns [NL_OK] exactly when the list, if there is
    one, holds only status, file, line-number and report entries, and
    [NL_SKIP] otherwise. *)
Theorem parse_result_calls_bounded (attrs : nlattrs) :
  (length (parse_result attrs).1.2
   <= match attrs KTF_A_LIST with
      | Some a => S (length (filter (fun a => is_stat a = true) (nla_nested a)))
      | None => 0
      end)%nat
  /\ (parse_result attrs).1.1.1
     = (if match attrs KTF_A_LIST with
           | Some a => forallb check_tag (nla_nested a)
           | None => true
           end then NL_OK else NL_SKIP).
Proof.
  unfold parse_result. destruct (attrs KTF_A_LIST) as [a|]; [|done].
  destruct (parse_result_loop_bound (nla_nested a) result_locals_init) as [Hlen Hfin].
  destruct (parse_result_loop (nla_nested a) result_locals_init)
    as [[[fin st] calls] ev]. cbn [fst snd] in *. rewrite <- Hfin.
  destruct fin; cbn [fst snd]; [|split; [lia|done]].
  split; [|done]. rewrite length_app. cbn [length]. lia.
Qed.

(** * Further properties: requests and responses *)

(** A coding of the request types, for the examples. *)
Definition example_ct_of_u32 (v : Z) : option ktf_cmd_type :=
  if v =? 1 then Some KTF_CT_QUERY
  else if v =? 2 then Some KTF_CT_RUN
  else None.

Definition empty_world : world :=
  {| w_mgr := new_mgr; w_errno := 0; w_io := []; w_calls := []; w_log := [] |}.

(** A run response with two checks. *)
Definition run_reply : nl_msg :=
  {| nlmsg_type := 16; genlmsg_parse_ret := 0;
     msg_attrs := attrs_of [nla_u32 KTF_A_TYPE 2; checks_2_0] |}.

(** X18.  The single-request discipline: every request function sends
    exactly one message and waits for exactly one acknowledgement; a
    receive follows at most once and only after the acknowledgement:
    [run] and [query_testsets] receive unless the acknowledgement is
    negative, [set_coverage] receives only when it is zero, and
    [Configure] never receives. *)
Theorem request_ack_discipline (latest : Z) (ct_of_u32 : Z -> option ktf_cmd_type)
    (ack : Z) (d : delivery) (w : world) :
  (forall kt ctx,
     w_io (run latest ct_of_u32 kt ctx ack d w)
     = w_io w ++ [IoSend (run_request latest kt ctx); IoWaitAck]
         ++ (if ack <? 0 then [] else [IoRecv]))
  /\ w_io (query_testsets latest ct_of_u32 ack d w).2
     = w_io w ++ [IoSend (query_request latest); IoWaitAck]
         ++ (if ack <? 0 then [] else [IoRecv])
  /\ (forall module opts enabled,
        w_io (set_coverage latest ct_of_u32 module opts enabled ack d w).2
        = w_io w ++ [IoSend (coverage_request latest module opts enabled); IoWaitAck]
            ++ (if ack =? 0 then [IoRecv] else []))
  /\ (forall c data data_sz,
        w_io (Configure latest c data data_sz ack w).2
        = w_io w ++ [IoSend (configure_request latest c data data_sz); IoWaitAck]).
Proof.
  split; [|split; [|split]].
  - intros kt ctx. unfold run. destruct (ack <? 0).
    + cbn. by rewrite ?app_nil_r.
    + destruct (recv_io latest ct_of_u32 d
                  (w_do w [IoSend (run_request latest kt ctx); IoWaitAck])) as [-> _].
      cbn. by rewrite <- app_assoc.
  - unfold query_testsets. destruct (ack <? 0).
    + cbn. by rewrite ?app_nil_r.
    + cbn [snd].
      destruct (recv_io latest ct_of_u32 d
                  (w_do w [IoSend (query_request latest); IoWaitAck])) as [-> _].
      cbn. by rewrite <- app_assoc.
  - intros module opts enabled. unfold set_coverage. destruct (ack =? 0).
    + cbn [snd].
      destruct (recv_io latest ct_of_u32 d
                  (w_do w [IoSend (coverage_request latest module opts enabled);
                           IoWaitAck])) as [-> _].
      cbn. by rewrite <- app_assoc.
    + cbn. by rewrite ?app_nil_r.
  - intros c data data_sz. done.
Qed.



(** X20.  What a response can do is fixed by its type: [parse_cb] changes
    the registry only for a query response and calls the handler only for a
    run response; a message that [genlmsg_parse] refuses, that has no type
    or that has another type does neither.  No response touches the socket
    or [errno]. *)
Theorem parse_cb_isolation (latest : Z) (ct_of_u32 : Z -> option ktf_cmd_type)
    (msg : nl_msg) (w : world) :
  (msg_cmd ct_of_u32 msg <> Some KTF_CT_QUERY ->
   w_mgr (parse_cb latest ct_of_u32 msg w).2 = w_mgr w)
  /\ (msg_cmd ct_of_u32 msg <> Some KTF_CT_RUN ->
      w_calls (parse_cb latest ct_of_u32 msg w).2 = w_calls w)
  /\ w_io (parse_cb latest ct_of_u32 msg w).2 = w_io w
  /\ w_errno (parse_cb latest ct_of_u32 msg w).2 = w_errno w.
Proof.
  split; [|split; [|apply parse_cb_io]].
  - intros Hq. rewrite parse_cb_mgr.
    by destruct (msg_cmd ct_of_u32 msg) as [[]|].
  - intros Hr. rewrite parse_cb_calls.
    destruct (msg_cmd ct_of_u32 msg) as [[]|]; try done; apply app_nil_r.
Qed.

Lemma parse_cb_isolation_witness :
  w_mgr (parse_cb 0 example_ct_of_u32 run_reply empty_world).2 = w_mgr empty_world.
Proof.
  refine (proj1 (parse_cb_isolation 0 example_ct_of_u32 run_reply empty_world) _).
  vm_compute. discriminate.
Defined.

(** X21.  A run whose request is acknowledged and answered by a run
    response with a well-formed check list calls the handler once per
    status entry and once more for the trailing flush, and changes neither
    the registry nor [errno]. *)
Theorem run_delivers_checks (latest : Z) (ct_of_u32 : Z -> option ktf_cmd_type)
    (kt : KernelTest) (ctx : string) (ack : Z) (msg : nl_msg) (a : nlattr) (w : world) :
  0 <= ack ->
  msg_cmd ct_of_u32 msg = Some KTF_CT_RUN ->
  msg_attrs msg KTF_A_LIST = Some a ->
  forallb check_tag (nla_nested a) = true ->
  length (w_calls (run latest ct_of_u32 kt ctx ack (DeliverValid msg) w))
  = (length (w_calls w)
     + S (length (filter (fun a => is_stat a = true) (nla_nested a))))%nat
  /\ w_mgr (run latest ct_of_u32 kt ctx ack (DeliverValid msg) w) = w_mgr w
  /\ w_errno (run latest ct_of_u32 kt ctx ack (DeliverValid msg) w) = w_errno w.
Proof.
  intros Hack Hcmd Ha Htags. unfold run.
  destruct (Z.ltb_spec ack 0) as [|_]; [lia|].
  rewrite recv_calls, recv_mgr, Hcmd.
  split; [|split; [done|]].
  - rewrite length_app, (parse_result_calls_count _ a Ha Htags). done.
  - by destruct (recv_io latest ct_of_u32 (DeliverValid msg)
                   (w_do w [IoSend (run_request latest kt ctx); IoWaitAck])) as [_ ->].
Qed.

Lemma run_delivers_checks_witness :
  length (w_calls (run 0 example_ct_of_u32 (built_test new_mgr "s" "t") "" 0
                     (DeliverValid run_reply) empty_world))
  = (length (w_calls empty_world)
     + S (length (filter (fun a => is_stat a = true) (nla_nested checks_2_0))))%nat.
Proof.
  refine (proj1 (run_delivers_checks 0 example_ct_of_u32 (built_test new_mgr "s" "t") ""
                   0 run_reply checks_2_0 empty_world _ _ _ _)).
  - discriminate.
  - vm_compute. reflexivity.
  - vm_compute. reflexivity.
  - vm_compute. reflexivity.
Defined.

(** X22.  [query_testsets] returns the set names of the registry as the
    response left it, and that list extends the list the registry had
    before: names returned by an earlier query keep their positions,
    whatever arrives. *)
Theorem query_testsets_extends_names (latest : Z) (ct_of_u32 : Z -> option ktf_cmd_type)
    (ack : Z) (d : delivery) (w : world) :
  (query_testsets latest ct_of_u32 ack d w).1
  = get_set_names (w_mgr (query_testsets latest ct_of_u32 ack d w).2)
  /\ get_set_names (w_mgr w) `prefix_of` (query_testsets latest ct_of_u32 ack d w).1.
Proof.
  unfold query_testsets. destruct (ack <? 0); [done|]. cbn [fst snd].
  split; [done|]. rewrite recv_mgr. cbn [w_mgr w_do].
  destruct d as [msg|msg]; [|done].
  destruct (msg_cmd ct_of_u32 msg) as [[]|]; try done.
  destruct (parse_query_ops latest (msg_attrs msg) (w_mgr w)) as (ops & _ & Hops).
  eapply apply_ops_set_names_prefix, Hops.
Qed.

(** X23.  A registered wrapper replaces the kernel run: once a wrapper has
    been registered for a test (here before the test is created),
    [run_test] on the test's record invokes the wrapper and sends nothing
    to the kernel. *)
Theorem run_test_prefers_wrapper (latest : Z) (ct_of_u32 : Z -> option ktf_cmd_type)
    (m : KernelTestMgr) (s t : string) (cb : test_cb) (hid : Z)
    (ctx : string) (ack : Z) (d : delivery) (w : world) :
  test_at m s t = None ->
  exists kt,
    test_at (add_test (add_wrapper m s t (Some cb)) s t hid) s t = Some kt
    /\ run_test latest ct_of_u32 kt ctx ack d w = RanUserTest cb kt.
Proof.
  intros Hnew. eexists. split.
  - rewrite test_at_add_test. by rewrite decide_True.
  - unfold run_test, built_test. cbn [user_test].
    rewrite add_wrapper_eq, sets_at_store.
    rewrite (add_wrapper_set_new _ _ _ Hnew). cbn [wrapper].
    by rewrite lookup_insert_eq.
Qed.

Lemma run_test_prefers_wrapper_witness :
  exists kt,
    test_at (add_test (add_wrapper new_mgr "s" "t" (Some 4%nat)) "s" "t" 0) "s" "t" = Some kt
    /\ run_test 0 example_ct_of_u32 kt "" 0 (DeliverValid run_reply) empty_world
       = RanUserTest 4%nat kt.
Proof.
  refine (run_test_prefers_wrapper 0 example_ct_of_u32 new_mgr "s" "t" 4%nat 0 "" 0
            (DeliverValid run_reply) empty_world _).
  vm_compute. reflexivity.
Defined.

(** X24.  [configure_context] tells its failures apart and sends nothing
    unless the context is unique and of the requested type: no context of
    the name and several contexts of the name fail with different
    assertions before any message is built, as does a type id that differs
    from the one of the single context; with a single context of the right
    type exactly one request is sent, and the call succeeds when the
    acknowledgement is zero. *)
Theorem configure_context_outcomes (latest : Z) (context : string) (type_id : Z)
    (data : option (list Z)) (data_sz : Z) (ack : Z) (w : world) :
  match find_contexts (w_mgr w) context with
  | [] =>
      configure_context latest context type_id data data_sz ack w
      = (Some NoContextFound, w)
  | [c] =>
      configure_context latest context type_id data data_sz ack w
      = if type_id =? cc_Type c
        then (if ack =? 0 then None else Some (ConfigureFailed ack),
              w_do w [IoSend (configure_request latest c data data_sz); IoWaitAck])
        else (Some TypeMismatch, w)
  | _ :: _ :: _ =>
      configure_context latest context type_id data data_sz ack w
      = (Some MoreThanOneContext, w)
  end.
Proof.
  unfold configure_context.
  destruct (find_contexts (w_mgr w) context) as [|c [|c' ct]].
  - done.
  - cbn [length]. change (1 <=? Z.of_nat 1) with true.
    change (Z.of_nat 1 =? 1) with true. cbn [negb].
    destruct (type_id =? cc_Type c); cbn [negb]; [|done].
    unfold Configure. by destruct (ack =? 0).
  - cbn [length].
    destruct (Z.leb_spec 1 (Z.of_nat (S (S (length ct))))) as [_|]; [|lia].
    destruct (Z.eqb_spec (Z.of_nat (S (S (length ct)))) 1) as [|_]; [lia|]. done.
Qed.

(** An answer of another type than a run response. *)
Definition query_reply : nl_msg :=
  {| nlmsg_type := 16; genlmsg_parse_ret := 0;
     msg_attrs := attrs_of [nla_u32 KTF_A_TYPE 1] |}.

(** X25.  [run] reports a verdict only from a run response: when the
    message that arrives is invalid, is refused by [genlmsg_parse], has no
    type or has another type than [KTF_CT_RUN], the handler is not called at
    all, whatever the acknowledgement was; an invalid message leaves one
    line on [stderr] and nothing else. *)
Theorem run_without_run_reply (latest : Z) (ct_of_u32 : Z -> option ktf_cmd_type)
    (kt : KernelTest) (ctx : string) (ack : Z) (d : delivery) (w : world) :
  match d with
  | DeliverValid msg => msg_cmd ct_of_u32 msg <> Some KTF_CT_RUN
  | DeliverInvalid _ => True
  end ->
  w_calls (run latest ct_of_u32 kt ctx ack d w) = w_calls w
  /\ (forall msg, d = DeliverInvalid msg -> 0 <= ack ->
      w_log (run latest ct_of_u32 kt ctx ack d w) = w_log w ++ [CbInvalid (nlmsg_type msg)]
      /\ w_mgr (run latest ct_of_u32 kt ctx ack d w) = w_mgr w).
Proof.
  intros Hd. split.
  - unfold run. destruct (ack <? 0); [done|].
    rewrite recv_calls. cbn [w_calls w_do].
    destruct d as [msg|msg]; [|apply app_nil_r].
    destruct (msg_cmd ct_of_u32 msg) as [[]|]; try done; apply app_nil_r.
  - intros msg -> Hack. unfold run.
    destruct (Z.ltb_spec ack 0) as [|_]; [lia|]. done.
Qed.

Lemma run_without_run_reply_witness :
  w_calls (run 0 example_ct_of_u32 (built_test new_mgr "s" "t") "" 0
             (DeliverValid query_reply) empty_world)
  = w_calls empty_world.
Proof.
  refine (proj1 (run_without_run_reply 0 example_ct_of_u32 (built_test new_mgr "s" "t") ""
                   0 (DeliverValid query_reply) empty_world _)).
  vm_compute. discriminate.
Defined.
